(** * OpenClapp: clap-time accounting, statistics, history and X verification

    A shallow embedding of [convex/clapApi.ts] (with the tables of
    [convex/schema.ts]) and the properties of its percentage arithmetic,
    clap-state mutations, history reconstruction and verification workflow.

    Numbers.  The [v.number()] fields of the tables are timestamps read from
    [Date.now()] or sums of differences of timestamps, so these are integers
    ([Z]).  Quotients (the percentages) are exact rationals ([Q]);
    floating-point rounding is not modelled.  [Q] makes [x / 0 = 0], so that
    no divisor is zero is proved on its own.  The numeric arguments [page],
    [pageSize], [limit] and [keep] can be any JavaScript number and have the
    type [Num]: not a number, an infinity, or a finite value.

    Database.  A table is the list of its documents in creation order, which
    is the order of [ctx.db.query(t).collect()].  Handlers are written in a
    small state-and-exception monad over the database; an exception keeps the
    state reached so far, so that "nothing was written" is a theorem about
    the handler and not a property of the transaction that runs it. *)

From Stdlib Require Import ZArith QArith Qminmax Qround Lqa List String Ascii Bool Lia.
From Stdlib Require Import Sorted Permutation.
Import ListNotations.

Open Scope Z_scope.

(** ** Documents *)

Definition Id := nat.

Module Agent.
(** Table [agents].  [publicId] is left out: no handler reads or writes it. *)
Record t := mk {
  _id : Id;
  name : string;
  xHandle : option string;
  xVerified : bool;
  isClapping : bool;
  cumulativeClapMs : Z;
  lastStateChangedAt : Z;
  lastHeartbeatAt : Z;
  createdAt : Z;
  updatedAt : Z
}.
End Agent.

Inductive ClapType := started | stopped.

Module ClapEvent.
(** Table [clapEvents]. *)
Record t := mk {
  _id : Id;
  agentId : Id;
  agentName : string;
  type : ClapType;
  createdAt : Z
}.
End ClapEvent.

Module Challenge.
(** Table [xVerificationChallenges]. *)
Record t := mk {
  _id : Id;
  agentId : Id;
  xHandle : string;
  challengeText : string;
  createdAt : Z;
  expiresAt : Z;
  completedAt : option Z;
  matchedPostUrl : option string
}.
End Challenge.

(** ** Percentages *)

(** [clampPct(value) = Math.max(0, Math.min(100, value))]. *)
Definition clampPct (value : Q) : Q := Qmax 0 (Qmin 100 value).

(** [Math.max(1, now - agent.createdAt)], the denominator of a percentage. *)
Definition elapsedMs (agent : Agent.t) (now : Z) : Z :=
  Z.max 1 (now - Agent.createdAt agent).

(** [agent.isClapping ? Math.max(0, now - agent.lastStateChangedAt) : 0]. *)
Definition liveClapMs (agent : Agent.t) (now : Z) : Z :=
  if Agent.isClapping agent
  then Z.max 0 (now - Agent.lastStateChangedAt agent)
  else 0.

Definition computeAgentPct (agent : Agent.t) (now : Z) : Q :=
  let elapsed := elapsedMs agent now in
  let liveClapMs := liveClapMs agent now in
  clampPct
    ((inject_Z (Agent.cumulativeClapMs agent + liveClapMs) / inject_Z elapsed)
     * 100).

(** The accumulator of [groupPct]'s [reduce]. *)
Record Totals := mkTotals { t_elapsed : Z; t_clap : Z }.

Definition groupPct_step (now : Z) (acc : Totals) (agent : Agent.t) : Totals :=
  let elapsed := Z.max 1 (now - Agent.createdAt agent) in
  let liveClapMs :=
    if Agent.isClapping agent
    then Z.max 0 (now - Agent.lastStateChangedAt agent) else 0 in
  {| t_elapsed := t_elapsed acc + elapsed;
     t_clap := t_clap acc + (Agent.cumulativeClapMs agent + liveClapMs) |}.

Definition groupTotals (now : Z) (subset : list Agent.t) : Totals :=
  fold_left (groupPct_step now) subset {| t_elapsed := 0; t_clap := 0 |}.

(** The closure [groupPct] of [getCurrentStats].  It reads only the agent
    fields of its argument, so it is given the agents themselves. *)
Definition groupPct (now : Z) (subset : list Agent.t) : Q :=
  match subset with
  | [] => 0%Q
  | _ =>
      let totals := groupTotals now subset in
      clampPct
        ((inject_Z (t_clap totals) / inject_Z (Z.max 1 (t_elapsed totals)))
         * 100)
  end.

(** *** The specification's formulas, for comparison *)

Definition spec_elapsed (now createdAt : Z) : Z := Z.max 1 (now - createdAt).

Definition spec_liveMs (isClapping : bool) (now lastStateChangedAt : Z) : Z :=
  if isClapping then Z.max 0 (now - lastStateChangedAt) else 0.

(** Clamp to [0,100], written with comparisons. *)
Definition spec_clamp (x : Q) : Q :=
  if Qle_bool x 0 then 0%Q else if Qle_bool 100 x then 100%Q else x.

Definition spec_pct (agent : Agent.t) (now : Z) : Q :=
  spec_clamp
    (inject_Z (Agent.cumulativeClapMs agent
               + spec_liveMs (Agent.isClapping agent) now
                   (Agent.lastStateChangedAt agent))
     / inject_Z (spec_elapsed now (Agent.createdAt agent)) * 100).

Definition sumZ (l : list Z) : Z := fold_right Z.add 0 l.

Definition spec_groupPct (now : Z) (members : list Agent.t) : Q :=
  spec_clamp
    (inject_Z (sumZ (map (fun a => Agent.cumulativeClapMs a
                                   + spec_liveMs (Agent.isClapping a) now
                                       (Agent.lastStateChangedAt a)) members))
     / inject_Z (sumZ (map (fun a => spec_elapsed now (Agent.createdAt a))
                         members))
     * 100).

(** ** Strings *)

(** JavaScript strings are modelled as ASCII strings: [trim] removes the
    ASCII white space (tab, line feed, vertical tab, form feed, carriage
    return, space) and [toLowerCase] maps [A-Z] to [a-z]. *)

Definition isWhiteSpace (c : ascii) : bool :=
  let n := nat_of_ascii c in
  ((9 <=? n)%nat && (n <=? 13)%nat) || (n =? 32)%nat.

Fixpoint dropWhile {A : Type} (p : A -> bool) (l : list A) : list A :=
  match l with
  | [] => []
  | x :: l' => if p x then dropWhile p l' else l
  end.

Definition trim (s : string) : string :=
  let front := dropWhile isWhiteSpace (list_ascii_of_string s) in
  string_of_list_ascii (rev (dropWhile isWhiteSpace (rev front))).

Definition lowerAscii (c : ascii) : ascii :=
  let n := nat_of_ascii c in
  if ((65 <=? n)%nat && (n <=? 90)%nat)%bool then ascii_of_nat (n + 32) else c.

Fixpoint toLowerCase (s : string) : string :=
  match s with
  | EmptyString => EmptyString
  | String c s' => String (lowerAscii c) (toLowerCase s')
  end.

(** [s.replace(/^@/, "")]: one leading [@] is removed. *)
Definition stripAt (s : string) : string :=
  match s with
  | String "@"%char s' => s'
  | _ => s
  end.

Definition normalizeXHandle (raw : string) : string :=
  toLowerCase (stripAt (trim raw)).

(** ** The database and the handler monad *)

Record DB := mkDB {
  agents : list Agent.t;
  clapEvents : list ClapEvent.t;
  xVerificationChallenges : list Challenge.t;
  nextId : Id
}.

Inductive Outcome (A : Type) : Type :=
| Ok (value : A)
| Throw (message : string).
Arguments Ok {A} value.
Arguments Throw {A} message.

Definition Mut (A : Type) : Type := DB -> Outcome A * DB.

Definition ret {A} (a : A) : Mut A := fun db => (Ok a, db).

Definition throw {A} (message : string) : Mut A := fun db => (Throw message, db).

Definition bind {A B} (m : Mut A) (k : A -> Mut B) : Mut B :=
  fun db =>
    match m db with
    | (Ok a, db') => k a db'
    | (Throw message, db') => (Throw message, db')
    end.

Declare Scope mut_scope.
Delimit Scope mut_scope with mut.
Notation "x <- m ;; k" := (bind m (fun x => k))
  (at level 61, m at next level, right associativity) : mut_scope.
Notation "m ;;; k" := (bind m (fun _ => k))
  (at level 61, right associativity) : mut_scope.
Open Scope mut_scope.

(** [ctx.db.get(id)] on each table: the document with that id, or [null]. *)
Definition lookupAgent (id : Id) (l : list Agent.t) : option Agent.t :=
  find (fun a => Nat.eqb (Agent._id a) id) l.

Definition lookupChallenge (id : Id) (l : list Challenge.t) : option Challenge.t :=
  find (fun c => Nat.eqb (Challenge._id c) id) l.

Definition getAgent (id : Id) : Mut (option Agent.t) :=
  fun db => (Ok (lookupAgent id (agents db)), db).

Definition getChallenge (id : Id) : Mut (option Challenge.t) :=
  fun db => (Ok (lookupChallenge id (xVerificationChallenges db)), db).

Definition patchList {A} (idOf : A -> Id) (id : Id) (f : A -> A) (l : list A)
  : list A :=
  map (fun x => if Nat.eqb (idOf x) id then f x else x) l.

(** [ctx.db.patch(id, fields)]: the fields are merged into the stored
    document; patching an id that has no document throws. *)
Definition patchAgent (id : Id) (f : Agent.t -> Agent.t) : Mut unit :=
  fun db =>
    match lookupAgent id (agents db) with
    | None => (Throw "Update on nonexistent document", db)
    | Some _ =>
        (Ok tt,
         mkDB (patchList Agent._id id f (agents db)) (clapEvents db)
           (xVerificationChallenges db) (nextId db))
    end.

Definition patchChallenge (id : Id) (f : Challenge.t -> Challenge.t) : Mut unit :=
  fun db =>
    match lookupChallenge id (xVerificationChallenges db) with
    | None => (Throw "Update on nonexistent document", db)
    | Some _ =>
        (Ok tt,
         mkDB (agents db) (clapEvents db)
           (patchList Challenge._id id f (xVerificationChallenges db))
           (nextId db))
    end.

(** [ctx.db.insert(table, doc)]: the document gets a fresh id and goes to the
    end of its table. *)
Definition insertAgent (doc : Id -> Agent.t) : Mut Id :=
  fun db =>
    let id := nextId db in
    (Ok id,
     mkDB (agents db ++ [doc id]) (clapEvents db) (xVerificationChallenges db)
       (S id)).

Definition insertClapEvent (doc : Id -> ClapEvent.t) : Mut Id :=
  fun db =>
    let id := nextId db in
    (Ok id,
     mkDB (agents db) (clapEvents db ++ [doc id]) (xVerificationChallenges db)
       (S id)).

Definition insertChallenge (doc : Id -> Challenge.t) : Mut Id :=
  fun db =>
    let id := nextId db in
    (Ok id,
     mkDB (agents db) (clapEvents db) (xVerificationChallenges db ++ [doc id])
       (S id)).

(** [ctx.db.delete(id)] on each table. *)
Definition deleteAgent (id : Id) : Mut unit :=
  fun db =>
    (Ok tt,
     mkDB (filter (fun a => negb (Nat.eqb (Agent._id a) id)) (agents db))
       (clapEvents db) (xVerificationChallenges db) (nextId db)).

Definition deleteClapEvent (id : Id) : Mut unit :=
  fun db =>
    (Ok tt,
     mkDB (agents db)
       (filter (fun e => negb (Nat.eqb (ClapEvent._id e) id)) (clapEvents db))
       (xVerificationChallenges db) (nextId db)).

Definition deleteChallenge (id : Id) : Mut unit :=
  fun db =>
    (Ok tt,
     mkDB (agents db) (clapEvents db)
       (filter (fun c => negb (Nat.eqb (Challenge._id c) id))
          (xVerificationChallenges db))
       (nextId db)).

(** [ctx.db.query(table).collect()]. *)
Definition collectAgents : Mut (list Agent.t) := fun db => (Ok (agents db), db).

Definition collectClapEvents : Mut (list ClapEvent.t) :=
  fun db => (Ok (clapEvents db), db).

Definition collectChallenges : Mut (list Challenge.t) :=
  fun db => (Ok (xVerificationChallenges db), db).

(** [for (const x of l) body(x)]. *)
Fixpoint forEach {A} (l : list A) (body : A -> Mut unit) : Mut unit :=
  match l with
  | [] => ret tt
  | x :: rest => body x ;;; forEach rest body
  end.

(** Field writes of a patch. *)
Definition set_xHandle (v : option string) (a : Agent.t) : Agent.t :=
  Agent.mk (Agent._id a) (Agent.name a) v (Agent.xVerified a)
    (Agent.isClapping a) (Agent.cumulativeClapMs a)
    (Agent.lastStateChangedAt a) (Agent.lastHeartbeatAt a)
    (Agent.createdAt a) (Agent.updatedAt a).

Definition set_xVerified (v : bool) (a : Agent.t) : Agent.t :=
  Agent.mk (Agent._id a) (Agent.name a) (Agent.xHandle a) v
    (Agent.isClapping a) (Agent.cumulativeClapMs a)
    (Agent.lastStateChangedAt a) (Agent.lastHeartbeatAt a)
    (Agent.createdAt a) (Agent.updatedAt a).

Definition set_isClapping (v : bool) (a : Agent.t) : Agent.t :=
  Agent.mk (Agent._id a) (Agent.name a) (Agent.xHandle a) (Agent.xVerified a)
    v (Agent.cumulativeClapMs a)
    (Agent.lastStateChangedAt a) (Agent.lastHeartbeatAt a)
    (Agent.createdAt a) (Agent.updatedAt a).

Definition set_cumulativeClapMs (v : Z) (a : Agent.t) : Agent.t :=
  Agent.mk (Agent._id a) (Agent.name a) (Agent.xHandle a) (Agent.xVerified a)
    (Agent.isClapping a) v
    (Agent.lastStateChangedAt a) (Agent.lastHeartbeatAt a)
    (Agent.createdAt a) (Agent.updatedAt a).

Definition set_lastStateChangedAt (v : Z) (a : Agent.t) : Agent.t :=
  Agent.mk (Agent._id a) (Agent.name a) (Agent.xHandle a) (Agent.xVerified a)
    (Agent.isClapping a) (Agent.cumulativeClapMs a)
    v (Agent.lastHeartbeatAt a)
    (Agent.createdAt a) (Agent.updatedAt a).

Definition set_lastHeartbeatAt (v : Z) (a : Agent.t) : Agent.t :=
  Agent.mk (Agent._id a) (Agent.name a) (Agent.xHandle a) (Agent.xVerified a)
    (Agent.isClapping a) (Agent.cumulativeClapMs a)
    (Agent.lastStateChangedAt a) v
    (Agent.createdAt a) (Agent.updatedAt a).

Definition set_updatedAt (v : Z) (a : Agent.t) : Agent.t :=
  Agent.mk (Agent._id a) (Agent.name a) (Agent.xHandle a) (Agent.xVerified a)
    (Agent.isClapping a) (Agent.cumulativeClapMs a)
    (Agent.lastStateChangedAt a) (Agent.lastHeartbeatAt a)
    (Agent.createdAt a) v.

Definition set_completion (completedAt : option Z) (matchedPostUrl : option string)
  (c : Challenge.t) : Challenge.t :=
  Challenge.mk (Challenge._id c) (Challenge.agentId c) (Challenge.xHandle c)
    (Challenge.challengeText c) (Challenge.createdAt c) (Challenge.expiresAt c)
    completedAt matchedPostUrl.

(** ** Mutations

    A handler takes the value of [Date.now()] as [now]. *)

(** A string is truthy when it is not empty. *)
Definition truthyString (s : string) : bool :=
  match s with EmptyString => false | _ => true end.

(** An optional number is truthy when it is present and not zero. *)
Definition truthyNumber (o : option Z) : bool :=
  match o with Some t => negb (t =? 0) | None => false end.

Definition registerAgent (now : Z) (name : string) (xHandle : option string)
  : Mut Id :=
  agentId <- insertAgent (fun id =>
    Agent.mk id (trim name)
      (match xHandle with
       | Some h => if truthyString h then Some (normalizeXHandle h) else None
       | None => None
       end)
      false false 0 now now now now) ;;
  ret agentId.

Record ClapResult := mkClapResult { ok : bool; changed : bool }.

Definition setClappingState (now : Z) (agentId : Id) (clapping : bool)
  : Mut ClapResult :=
  agent <- getAgent agentId ;;
  match agent with
  | None => throw "Agent not found"
  | Some agent =>
      let cumulativeClapMs :=
        if Agent.isClapping agent && negb clapping
        then Agent.cumulativeClapMs agent
             + Z.max 0 (now - Agent.lastStateChangedAt agent)
        else Agent.cumulativeClapMs agent in
      let changed := negb (Bool.eqb (Agent.isClapping agent) clapping) in
      patchAgent agentId (fun doc =>
        set_updatedAt now
          (set_lastHeartbeatAt now
            (set_lastStateChangedAt
               (if changed then now else Agent.lastStateChangedAt agent)
               (set_cumulativeClapMs cumulativeClapMs
                  (set_isClapping clapping doc))))) ;;;
      (if changed
       then
         _ <- insertClapEvent (fun id =>
           ClapEvent.mk id agentId (Agent.name agent)
             (if clapping then started else stopped) now) ;;
         ret tt
       else ret tt) ;;;
      ret {| ok := true; changed := changed |}
  end.

Definition heartbeat (now : Z) (agentId : Id) (clapping : option bool)
  : Mut ClapResult :=
  agent <- getAgent agentId ;;
  match agent with
  | None => throw "Agent not found"
  | Some agent =>
      match clapping with
      | Some clapping =>
          let cumulativeClapMs :=
            if Agent.isClapping agent && negb clapping
            then Agent.cumulativeClapMs agent
                 + Z.max 0 (now - Agent.lastStateChangedAt agent)
            else Agent.cumulativeClapMs agent in
          let changed := negb (Bool.eqb (Agent.isClapping agent) clapping) in
          patchAgent agentId (fun doc =>
            set_updatedAt now
              (set_lastHeartbeatAt now
                (set_lastStateChangedAt
                   (if changed then now else Agent.lastStateChangedAt agent)
                   (set_cumulativeClapMs cumulativeClapMs
                      (set_isClapping clapping doc))))) ;;;
          (if changed
           then
             _ <- insertClapEvent (fun id =>
               ClapEvent.mk id agentId (Agent.name agent)
                 (if clapping then started else stopped) now) ;;
             ret tt
           else ret tt) ;;;
          ret {| ok := true; changed := changed |}
      | None =>
          patchAgent agentId (fun doc =>
            set_updatedAt now (set_lastHeartbeatAt now doc)) ;;;
          ret {| ok := true; changed := false |}
      end
  end.

(** The index [by_x_verified] lists the agents by [xVerified] ([false] before
    [true]) and, within one value, in creation order. *)
Definition by_x_verified (l : list Agent.t) : list Agent.t :=
  filter (fun a => negb (Agent.xVerified a)) l ++ filter Agent.xVerified l.

Definition optString_eqb (o : option string) (s : string) : bool :=
  match o with Some h => String.eqb h s | None => false end.

(** [.withIndex("by_x_verified").filter(xVerified == true && xHandle == h).first()]. *)
Definition existingOwner (handle : string) (db : DB) : option Agent.t :=
  find (fun a => Bool.eqb (Agent.xVerified a) true
                 && optString_eqb (Agent.xHandle a) handle)
    (by_x_verified (agents db)).

Definition findExistingOwner (handle : string) : Mut (option Agent.t) :=
  fun db => (Ok (existingOwner handle db), db).

(** [existingOwner && existingOwner._id !== agentId]. *)
Definition ownedByOther (owner : option Agent.t) (agentId : Id) : bool :=
  match owner with
  | Some o => negb (Nat.eqb (Agent._id o) agentId)
  | None => false
  end.

Definition err_conflict : string :=
  "That X handle is already linked to another verified agent".

Record ChallengeIssued := mkChallengeIssued {
  ci_challengeId : Id;
  ci_challengeText : string;
  ci_xHandle : string;
  ci_expiresAt : Z
}.

Definition createXVerificationChallenge (now : Z) (agentId : Id)
  (xHandle challengeText : string) (expiresAt : Z) : Mut ChallengeIssued :=
  agent <- getAgent agentId ;;
  match agent with
  | None => throw "Agent not found"
  | Some _ =>
      let normalizedHandle := normalizeXHandle xHandle in
      owner <- findExistingOwner normalizedHandle ;;
      if ownedByOther owner agentId then throw err_conflict
      else
        challengeId <- insertChallenge (fun id =>
          Challenge.mk id agentId normalizedHandle challengeText now expiresAt
            None None) ;;
        patchAgent agentId (fun doc =>
          set_updatedAt now (set_xHandle (Some normalizedHandle) doc)) ;;;
        ret {| ci_challengeId := challengeId;
               ci_challengeText := challengeText;
               ci_xHandle := normalizedHandle;
               ci_expiresAt := expiresAt |}
  end.

Definition getXVerificationChallengeForCheck (challengeId : Id) (db : DB)
  : option Challenge.t :=
  lookupChallenge challengeId (xVerificationChallenges db).

Record ChallengeCompleted := mkChallengeCompleted {
  cc_ok : bool;
  cc_agentId : Id;
  cc_xHandle : string
}.

(** The handler reads the clock twice: [nowCheck] is the reading compared
    with [expiresAt], [now] the later one that is stamped. *)
Definition completeXVerificationChallenge (nowCheck now : Z) (challengeId : Id)
  (matchedPostUrl : option string) : Mut ChallengeCompleted :=
  challenge <- getChallenge challengeId ;;
  match challenge with
  | None => throw "Challenge not found"
  | Some challenge =>
      if truthyNumber (Challenge.completedAt challenge)
      then throw "Challenge already completed"
      else if Challenge.expiresAt challenge <? nowCheck
      then throw "Challenge expired"
      else
        owner <- findExistingOwner (Challenge.xHandle challenge) ;;
        if ownedByOther owner (Challenge.agentId challenge)
        then throw err_conflict
        else
          patchChallenge (Challenge._id challenge)
            (set_completion (Some now) matchedPostUrl) ;;;
          patchAgent (Challenge.agentId challenge) (fun doc =>
            set_updatedAt now
              (set_xVerified true
                 (set_xHandle (Some (Challenge.xHandle challenge)) doc))) ;;;
          ret {| cc_ok := true;
                 cc_agentId := Challenge.agentId challenge;
                 cc_xHandle := Challenge.xHandle challenge |}
  end.

(** The five mutations that write single documents, as one step function;
    the two bulk deletions are the steps of [Deletion] below. *)
Inductive Mutation :=
| MRegisterAgent (name : string) (xHandle : option string)
| MSetClappingState (agentId : Id) (clapping : bool)
| MHeartbeat (agentId : Id) (clapping : option bool)
| MCreateXVerificationChallenge (agentId : Id) (xHandle challengeText : string)
    (expiresAt : Z)
| MCompleteXVerificationChallenge (challengeId : Id)
    (matchedPostUrl : option string).

(** A mutation runs as a transaction: when the handler throws, its writes
    are discarded. *)
Definition runMutation {A} (handler : Mut A) (db : DB) : Outcome A * DB :=
  match handler db with
  | (Ok a, db') => (Ok a, db')
  | (Throw message, _) => (Throw message, db)
  end.

Definition handlerOf (now : Z) (m : Mutation) : Mut unit :=
  match m with
  | MRegisterAgent name xHandle =>
      registerAgent now name xHandle ;;; ret tt
  | MSetClappingState agentId clapping =>
      setClappingState now agentId clapping ;;; ret tt
  | MHeartbeat agentId clapping =>
      heartbeat now agentId clapping ;;; ret tt
  | MCreateXVerificationChallenge agentId xHandle challengeText expiresAt =>
      createXVerificationChallenge now agentId xHandle challengeText expiresAt
      ;;; ret tt
  | MCompleteXVerificationChallenge challengeId matchedPostUrl =>
      completeXVerificationChallenge now now challengeId matchedPostUrl
      ;;; ret tt
  end.

(** The database after the mutation [m] is called at time [now]. *)
Definition step (now : Z) (m : Mutation) (db : DB) : DB :=
  snd (runMutation (handlerOf now m) db).

(** ** Queries *)

Definition countIf {A} (p : A -> bool) (l : list A) : Z :=
  Z.of_nat (List.length (filter p l)).

(** [n ? (k / n) * 100 : 0]. *)
Definition shareOf (k n : Z) : Q :=
  if n =? 0 then 0%Q else (inject_Z k / inject_Z n) * 100.

Record WithPct := mkWithPct { wp_agent : Agent.t; clapPct : Q }.

Record CurrentStats := mkCurrentStats {
  totalAgents : Z;
  totalAgentsVerified : Z;
  totalAgentsUnverified : Z;
  clappingNow : Z;
  clappingNowVerified : Z;
  clappingNowUnverified : Z;
  currentClappingPct : Q;
  currentClappingPctVerified : Q;
  currentClappingPctUnverified : Q;
  lifetimeClappingPctOverall : Q;
  lifetimeClappingPctVerified : Q;
  lifetimeClappingPctUnverified : Q
}.

(** [agents.map((a) => ({ ...a, clapPct: computeAgentPct(a, now) }))]. *)
Definition withPct (now : Z) (l : list Agent.t) : list WithPct :=
  map (fun a => {| wp_agent := a; clapPct := computeAgentPct a now |}) l.

Definition getCurrentStats (now : Z) (db : DB) : CurrentStats :=
  let agents := agents db in
  let total := Z.of_nat (List.length agents) in
  let clappingNow := countIf Agent.isClapping agents in
  let withPct := withPct now agents in
  let verified := filter (fun a => Agent.xVerified (wp_agent a)) withPct in
  let unverified :=
    filter (fun a => negb (Agent.xVerified (wp_agent a))) withPct in
  let clappingNowVerified :=
    countIf (fun a => Agent.isClapping (wp_agent a)) verified in
  let clappingNowUnverified :=
    countIf (fun a => Agent.isClapping (wp_agent a)) unverified in
  {| totalAgents := total;
     totalAgentsVerified := Z.of_nat (List.length verified);
     totalAgentsUnverified := Z.of_nat (List.length unverified);
     clappingNow := clappingNow;
     clappingNowVerified := clappingNowVerified;
     clappingNowUnverified := clappingNowUnverified;
     currentClappingPct := shareOf clappingNow total;
     currentClappingPctVerified :=
       shareOf clappingNowVerified (Z.of_nat (List.length verified));
     currentClappingPctUnverified :=
       shareOf clappingNowUnverified (Z.of_nat (List.length unverified));
     lifetimeClappingPctOverall := groupPct now (map wp_agent withPct);
     lifetimeClappingPctVerified := groupPct now (map wp_agent verified);
     lifetimeClappingPctUnverified := groupPct now (map wp_agent unverified) |}.

Module AgentView.
(** What [getAgentById] returns for an agent. *)
Record t := mk {
  _id : Id;
  name : string;
  xHandle : option string;
  xVerified : bool;
  isClapping : bool;
  clapPct : Q;
  createdAt : Z;
  lastHeartbeatAt : Z
}.
End AgentView.

Definition getAgentById (now : Z) (agentId : Id) (db : DB)
  : option AgentView.t :=
  match lookupAgent agentId (agents db) with
  | None => None
  | Some agent =>
      Some (AgentView.mk (Agent._id agent) (Agent.name agent)
              (Agent.xHandle agent) (Agent.xVerified agent)
              (Agent.isClapping agent) (computeAgentPct agent now)
              (Agent.createdAt agent) (Agent.lastHeartbeatAt agent))
  end.

Module AgentItem.
(** An item of [listAgents]. *)
Record t := mk {
  _id : Id;
  name : string;
  xHandle : option string;
  xVerified : bool;
  isClapping : bool;
  createdAt : Z;
  clapPct : Q
}.
End AgentItem.

Inductive Sort := newest | oldest | highest_clap | lowest_clap.

(** The comparator given to [normalized.sort]. *)
Definition compareItems (sort : Sort) (a b : AgentItem.t) : Q :=
  match sort with
  | oldest => inject_Z (AgentItem.createdAt a - AgentItem.createdAt b)
  | highest_clap => AgentItem.clapPct b - AgentItem.clapPct a
  | lowest_clap => AgentItem.clapPct a - AgentItem.clapPct b
  | newest => inject_Z (AgentItem.createdAt b - AgentItem.createdAt a)
  end.

(** [Array.prototype.sort] is stable; with a comparator that is a difference
    of numbers its result is that of a stable insertion sort. *)
Fixpoint insertBy {A} (cmp : A -> A -> Q) (x : A) (l : list A) : list A :=
  match l with
  | [] => [x]
  | y :: l' =>
      if Qle_bool (cmp x y) 0 then x :: l else y :: insertBy cmp x l'
  end.

Definition sortBy {A} (cmp : A -> A -> Q) (l : list A) : list A :=
  fold_right (insertBy cmp) [] l.

Definition orDefault {A} (o : option A) (d : A) : A :=
  match o with Some v => v | None => d end.

(** *** Numbers

    The numeric arguments of the handlers are JavaScript numbers
    ([v.number()]): not a number, an infinity, or a finite value.  A finite
    value is taken as the rational it stands for: the rounding of machine
    arithmetic and the sign of zero are not modelled. *)
Inductive Num := NaN | NegInfinity | Infinity | Finite (q : Q).

(** The number of an integer. *)
Definition ofInteger (z : Z) : Num := Finite (inject_Z z).

Module Math.

(** [Math.max(a, b)]: not a number as soon as an argument is. *)
Definition max (a b : Num) : Num :=
  match a, b with
  | NaN, _ | _, NaN => NaN
  | Infinity, _ | _, Infinity => Infinity
  | NegInfinity, x | x, NegInfinity => x
  | Finite p, Finite q => if Qle_bool p q then Finite q else Finite p
  end.

(** [Math.min(a, b)]. *)
Definition min (a b : Num) : Num :=
  match a, b with
  | NaN, _ | _, NaN => NaN
  | NegInfinity, _ | _, NegInfinity => NegInfinity
  | Infinity, x | x, Infinity => x
  | Finite p, Finite q => if Qle_bool p q then Finite p else Finite q
  end.

(** [Math.floor(x)]. *)
Definition floor (x : Num) : Num :=
  match x with
  | Finite q => Finite (inject_Z (Qfloor q))
  | _ => x
  end.

(** [Math.ceil(x)]. *)
Definition ceil (x : Num) : Num :=
  match x with
  | Finite q => Finite (inject_Z (Qceiling q))
  | _ => x
  end.

End Math.

(** [- x]. *)
Definition numOpp (x : Num) : Num :=
  match x with
  | NaN => NaN
  | NegInfinity => Infinity
  | Infinity => NegInfinity
  | Finite q => Finite (- q)
  end.

(** [a + b]. *)
Definition numAdd (a b : Num) : Num :=
  match a, b with
  | NaN, _ | _, NaN => NaN
  | Infinity, NegInfinity | NegInfinity, Infinity => NaN
  | Infinity, _ | _, Infinity => Infinity
  | NegInfinity, _ | _, NegInfinity => NegInfinity
  | Finite p, Finite q => Finite (p + q)
  end.

(** [a - b]. *)
Definition numSub (a b : Num) : Num := numAdd a (numOpp b).

(** The product of an infinity, positive or not, and the finite [q]. *)
Definition infinityTimes (positive : bool) (q : Q) : Num :=
  if Qeq_bool q 0 then NaN
  else if Bool.eqb positive (Qle_bool 0 q) then Infinity else NegInfinity.

(** [a * b]. *)
Definition numMul (a b : Num) : Num :=
  match a, b with
  | NaN, _ | _, NaN => NaN
  | Infinity, Infinity | NegInfinity, NegInfinity => Infinity
  | Infinity, NegInfinity | NegInfinity, Infinity => NegInfinity
  | Infinity, Finite q | Finite q, Infinity => infinityTimes true q
  | NegInfinity, Finite q | Finite q, NegInfinity => infinityTimes false q
  | Finite p, Finite q => Finite (p * q)
  end.

(** [a / b]; a zero divisor is taken as [+0]. *)
Definition numDiv (a b : Num) : Num :=
  match a, b with
  | NaN, _ | _, NaN => NaN
  | Finite _, Infinity | Finite _, NegInfinity => Finite 0
  | Infinity, Finite q =>
      if Qle_bool 0 q then Infinity else NegInfinity
  | NegInfinity, Finite q =>
      if Qle_bool 0 q then NegInfinity else Infinity
  | Finite p, Finite q =>
      if Qeq_bool q 0
      then if Qeq_bool p 0 then NaN
           else if Qle_bool 0 p then Infinity else NegInfinity
      else Finite (p / q)
  | _, _ => NaN
  end.

(** The integer part of a rational: rounding towards zero. *)
Definition Qtrunc (q : Q) : Z :=
  if Qle_bool 0 q then Qfloor q else Qceiling q.

(** An integer or an infinity, the result of [ToIntegerOrInfinity]. *)
Inductive IntegerOrInfinity :=
| MinusInfinity
| PlusInfinity
| Integer (z : Z).

(** [ToIntegerOrInfinity(x)]: not a number counts as 0, a finite value is
    rounded towards zero. *)
Definition toIntegerOrInfinity (x : Num) : IntegerOrInfinity :=
  match x with
  | NaN => Integer 0
  | NegInfinity => MinusInfinity
  | Infinity => PlusInfinity
  | Finite q => Integer (Qtrunc q)
  end.

(** The position in a list of length [len] that a relative index of
    [slice] stands for: a negative index counts from the end, and the
    result lies in [0 .. len]. *)
Definition relativeIndex (len : Z) (i : IntegerOrInfinity) : Z :=
  match i with
  | MinusInfinity => 0
  | PlusInfinity => len
  | Integer z => if z <? 0 then Z.max (len + z) 0 else Z.min z len
  end.

(** [l.slice(start, stop)]. *)
Definition slice {A} (start stop : Num) (l : list A) : list A :=
  let len := Z.of_nat (List.length l) in
  let k := relativeIndex len (toIntegerOrInfinity start) in
  let final := relativeIndex len (toIntegerOrInfinity stop) in
  firstn (Z.to_nat (Z.max (final - k) 0)) (skipn (Z.to_nat k) l).

Record AgentPage := mkAgentPage {
  ap_page : Num;
  ap_pageSize : Num;
  ap_total : Z;
  ap_totalPages : Num;
  ap_items : list AgentItem.t
}.

Definition listAgents (now : Z) (sort : option Sort) (page pageSize : option Num)
  (verifiedOnly : option bool) (db : DB) : AgentPage :=
  let page := Math.max (ofInteger 1) (orDefault page (ofInteger 1)) in
  let pageSize :=
    Math.min (ofInteger 100)
      (Math.max (ofInteger 1) (orDefault pageSize (ofInteger 24))) in
  let sort := orDefault sort newest in
  let verifiedOnly := orDefault verifiedOnly false in
  let normalized :=
    map (fun a =>
           AgentItem.mk (Agent._id a) (Agent.name a) (Agent.xHandle a)
             (Agent.xVerified a) (Agent.isClapping a) (Agent.createdAt a)
             (computeAgentPct a now))
      (filter (fun a => if verifiedOnly then Agent.xVerified a else true)
         (agents db)) in
  let normalized := sortBy (compareItems sort) normalized in
  let total := Z.of_nat (List.length normalized) in
  let start := numMul (numSub page (ofInteger 1)) pageSize in
  let items := slice start (numAdd start pageSize) normalized in
  {| ap_page := page;
     ap_pageSize := pageSize;
     ap_total := total;
     ap_totalPages :=
       Math.max (ofInteger 1) (Math.ceil (numDiv (ofInteger total) pageSize));
     ap_items := items |}.

(** ** Bulk deletions *)

Record Kept := mkKept { k_ok : bool; kept : Num; deleted : Z }.

(** [keepIds.has(id)]. *)
Definition hasId (keepIds : list Id) (id : Id) : bool :=
  existsb (Nat.eqb id) keepIds.

Definition deleteAllButNAgents (keep : Num) : Mut Kept :=
  let k := Math.max (ofInteger 0) (Math.floor keep) in
  agents <- collectAgents ;;
  let agents :=
    sortBy (fun a b => inject_Z (Agent.createdAt b - Agent.createdAt a)) agents in
  let keepIds := map Agent._id (slice (ofInteger 0) k agents) in
  events <- collectClapEvents ;;
  forEach events (fun e =>
    if negb (hasId keepIds (ClapEvent.agentId e))
    then deleteClapEvent (ClapEvent._id e) else ret tt) ;;;
  challenges <- collectChallenges ;;
  forEach challenges (fun c =>
    if negb (hasId keepIds (Challenge.agentId c))
    then deleteChallenge (Challenge._id c) else ret tt) ;;;
  forEach agents (fun a =>
    if negb (hasId keepIds (Agent._id a))
    then deleteAgent (Agent._id a) else ret tt) ;;;
  ret {| k_ok := true;
         kept := Math.min k (ofInteger (Z.of_nat (List.length agents)));
         deleted :=
           countIf (fun a => negb (hasId keepIds (Agent._id a))) agents |}.

Record Wiped := mkWiped {
  w_ok : bool;
  w_agents : Z;
  w_events : Z;
  w_challenges : Z
}.

Definition deleteAllAgentsAndData (confirmWipe : string) : Mut Wiped :=
  if negb (String.eqb confirmWipe "YES_DELETE_EVERYTHING")
  then throw "Must pass confirmWipe: 'YES_DELETE_EVERYTHING' to proceed"
  else
    events <- collectClapEvents ;;
    forEach events (fun event => deleteClapEvent (ClapEvent._id event)) ;;;
    challenges <- collectChallenges ;;
    forEach challenges (fun challenge =>
      deleteChallenge (Challenge._id challenge)) ;;;
    agents <- collectAgents ;;
    forEach agents (fun agent => deleteAgent (Agent._id agent)) ;;;
    ret {| w_ok := true;
           w_agents := Z.of_nat (List.length agents);
           w_events := Z.of_nat (List.length events);
           w_challenges := Z.of_nat (List.length challenges) |}.

Inductive Deletion :=
| DDeleteAllButNAgents (keep : Num)
| DDeleteAllAgentsAndData (confirmWipe : string).

Definition deletionStep (d : Deletion) (db : DB) : DB :=
  match d with
  | DDeleteAllButNAgents keep =>
      snd (runMutation (deleteAllButNAgents keep) db)
  | DDeleteAllAgentsAndData confirmWipe =>
      snd (runMutation (deleteAllAgentsAndData confirmWipe) db)
  end.

Definition emptyDB : DB := mkDB [] [] [] 0%nat.

(** The databases that calls of the mutations build from the empty one. *)
Inductive reachable : DB -> Prop :=
| reach_empty : reachable emptyDB
| reach_step (now : Z) (m : Mutation) (db : DB) :
    reachable db -> reachable (step now m db)
| reach_deletion (d : Deletion) (db : DB) :
    reachable db -> reachable (deletionStep d db).

(** ** History reconstruction *)

Inductive Range := hour | day | week | month | all.

Definition windows (range : Range) : Z :=
  match range with
  | hour => 60 * 60 * 1000
  | day => 24 * 60 * 60 * 1000
  | week => 7 * 24 * 60 * 60 * 1000
  | month => 30 * 24 * 60 * 60 * 1000
  | all => 3650 * 24 * 60 * 60 * 1000
  end.

(** The index [by_created_at] read with [order("desc")]: newest first, and
    of two events with one timestamp the one created later first.  The table
    is scanned in creation order and each event is put in front of the first
    event that is not newer than it. *)
Fixpoint insertDesc (e : ClapEvent.t) (l : list ClapEvent.t) : list ClapEvent.t :=
  match l with
  | [] => [e]
  | y :: l' =>
      if ClapEvent.createdAt y <=? ClapEvent.createdAt e
      then e :: l
      else y :: insertDesc e l'
  end.

Definition by_created_at_desc (l : list ClapEvent.t) : list ClapEvent.t :=
  fold_left (fun acc e => insertDesc e acc) l [].

Definition takeLimit : nat := 5000.

(** [query("clapEvents").withIndex("by_created_at").order("desc").take(5000)]. *)
Definition fetchedEvents (db : DB) : list ClapEvent.t :=
  firstn takeLimit (by_created_at_desc (clapEvents db)).

Definition inWindow (fromTs : Z) (e : ClapEvent.t) : bool :=
  fromTs <=? ClapEvent.createdAt e.

(** [filtered]: the fetched events with [createdAt >= fromTs]. *)
Definition filteredEvents (now : Z) (range : Range) (db : DB) : list ClapEvent.t :=
  let lookbackMs := windows range in
  let fromTs := now - lookbackMs in
  filter (inWindow fromTs) (fetchedEvents db).

Module Point.
(** A point of the series. *)
Record t := mk {
  ts : Z;
  clappingNow : Z;
  pct : Q
}.
End Point.

(** One turn of the [for] loop over [filtered]: the state is [running] and
    [reversePoints]. *)
Definition replayStep (totalAgents : Z) (st : Z * list Point.t) (e : ClapEvent.t)
  : Z * list Point.t :=
  let '(running, reversePoints) := st in
  let running :=
    running + (match ClapEvent.type e with started => -1 | stopped => 1 end) in
  let running := Z.max 0 (Z.min totalAgents running) in
  (running,
   reversePoints ++ [Point.mk (ClapEvent.createdAt e) running
                        (shareOf running totalAgents)]).

(** [reversePoints] when the loop ends. *)
Definition reversePoints (now totalAgents currentClappingNow : Z)
  (filtered : list ClapEvent.t) : list Point.t :=
  let running := currentClappingNow in
  snd (fold_left (replayStep totalAgents) filtered
         (running,
          [Point.mk now running (shareOf running totalAgents)])).

Definition maxPoints (range : Range) : Z :=
  match range with hour => 120 | day => 200 | _ => 260 end.

(** [l.filter((_, i) => keep(i))]. *)
Fixpoint filterIndexFrom {A} (keep : Z -> bool) (i : Z) (l : list A) : list A :=
  match l with
  | [] => []
  | x :: l' =>
      if keep i then x :: filterIndexFrom keep (i + 1) l'
      else filterIndexFrom keep (i + 1) l'
  end.

Definition strideOf (range : Range) (points : list Point.t) : Z :=
  Z.max 1 (Qceiling (inject_Z (Z.of_nat (List.length points))
                     / inject_Z (maxPoints range))).

Definition downsample (range : Range) (points : list Point.t) : list Point.t :=
  let stride := strideOf range points in
  filterIndexFrom
    (fun i => (i mod stride =? 0) || (i =? Z.of_nat (List.length points) - 1))
    0 points.

(** [points]: the series in chronological order, before it is sampled. *)
Definition historyPoints (now : Z) (range : Range) (db : DB) : list Point.t :=
  let totalAgents := Z.of_nat (List.length (agents db)) in
  let currentClappingNow := countIf Agent.isClapping (agents db) in
  rev (reversePoints now totalAgents currentClappingNow
         (filteredEvents now range db)).

Record History := mkHistory {
  h_range : Range;
  h_totalAgents : Z;
  h_points : list Point.t
}.

Definition getClapRateHistory (now : Z) (range : Range) (db : DB) : History :=
  let totalAgents := Z.of_nat (List.length (agents db)) in
  let points := historyPoints now range db in
  let sampled := downsample range points in
  {| h_range := range; h_totalAgents := totalAgents; h_points := sampled |}.

(** *** The specification's walk, for comparison *)

(** Walking backward from a running count: a [started] event lowers the
    count by one, a [stopped] event raises it, and each result is clamped to
    [0, total].  The result lists the points from the newest event back. *)
Fixpoint spec_walk (total running : Z) (events : list ClapEvent.t)
  : list (Z * Z) :=
  match events with
  | [] => []
  | e :: rest =>
      let moved :=
        match ClapEvent.type e with
        | started => running - 1
        | stopped => running + 1
        end in
      let clamped :=
        if moved <? 0 then 0 else if total <? moved then total else moved in
      (ClapEvent.createdAt e, clamped) :: spec_walk total clamped rest
  end.

(** The series the specification describes: the anchor at [now], then the
    walk, in chronological order. *)
Definition spec_series (now total current : Z) (events : list ClapEvent.t)
  : list (Z * Z) :=
  rev ((now, current) :: spec_walk total current events).

(** The series with nothing left out: every event of the log that lies in
    the window is replayed. *)
Definition exactPoints (now : Z) (range : Range) (db : DB) : list Point.t :=
  let totalAgents := Z.of_nat (List.length (agents db)) in
  let currentClappingNow := countIf Agent.isClapping (agents db) in
  rev (reversePoints now totalAgents currentClappingNow
         (filter (inWindow (now - windows range))
            (by_created_at_desc (clapEvents db)))).

(** The count a series shows for the instant [t]: each point carries the
    count that held up to its timestamp, so it is the count of the first
    point at or after [t]. *)
Fixpoint countAt (points : list Point.t) (t : Z) : option Z :=
  match points with
  | [] => None
  | p :: rest =>
      if t <=? Point.ts p then Some (Point.clappingNow p) else countAt rest t
  end.

(** ** Notions used in the statements *)

(** The agent document after a clap-state write of [clapping] at [now]. *)
Definition clapPatch (now : Z) (agent : Agent.t) (clapping : bool)
  (doc : Agent.t) : Agent.t :=
  set_updatedAt now
    (set_lastHeartbeatAt now
       (set_lastStateChangedAt
          (if negb (Bool.eqb (Agent.isClapping agent) clapping)
           then now else Agent.lastStateChangedAt agent)
          (set_cumulativeClapMs
             (if Agent.isClapping agent && negb clapping
              then Agent.cumulativeClapMs agent
                   + Z.max 0 (now - Agent.lastStateChangedAt agent)
              else Agent.cumulativeClapMs agent)
             (set_isClapping clapping doc)))).

(** The database after a clap-state write for [agent]: the agent patched,
    and one event appended when the flag changed. *)
Definition afterClapWrite (now : Z) (agentId : Id) (agent : Agent.t)
  (clapping : bool) (db : DB) : DB :=
  if negb (Bool.eqb (Agent.isClapping agent) clapping)
  then mkDB (patchList Agent._id agentId (clapPatch now agent clapping)
               (agents db))
         (clapEvents db
          ++ [ClapEvent.mk (nextId db) agentId (Agent.name agent)
                (if clapping then started else stopped) now])
         (xVerificationChallenges db) (S (nextId db))
  else mkDB (patchList Agent._id agentId (clapPatch now agent clapping)
               (agents db))
         (clapEvents db) (xVerificationChallenges db) (nextId db).

(** The agent document after a completed verification of the handle [h]. *)
Definition verifiedPatch (now : Z) (h : string) (doc : Agent.t) : Agent.t :=
  set_updatedAt now (set_xVerified true (set_xHandle (Some h) doc)).

(** A patch that leaves the clap accounting of a document alone. *)
Definition keepsClapFields (f : Agent.t -> Agent.t) : Prop :=
  forall doc,
    Agent._id (f doc) = Agent._id doc
    /\ Agent.isClapping (f doc) = Agent.isClapping doc
    /\ Agent.cumulativeClapMs (f doc) = Agent.cumulativeClapMs doc
    /\ Agent.lastStateChangedAt (f doc) = Agent.lastStateChangedAt doc.

(** What one mutation can do to the table of agents. *)
Inductive AgentsChange (now : Z) (before : list Agent.t) : list Agent.t -> Prop :=
| change_none : AgentsChange now before before
| change_insert (a : Agent.t) : AgentsChange now before (before ++ [a])
| change_frame (id : Id) (f : Agent.t -> Agent.t) :
    keepsClapFields f ->
    AgentsChange now before (patchList Agent._id id f before)
| change_clap (id : Id) (agent : Agent.t) (clapping : bool) :
    lookupAgent id before = Some agent ->
    AgentsChange now before
      (patchList Agent._id id (clapPatch now agent clapping) before).

(** The arithmetic mean of the members' own percentages. *)
Definition meanPct (now : Z) (members : list Agent.t) : Q :=
  fold_right Qplus 0%Q (map (fun a => computeAgentPct a now) members)
  / inject_Z (Z.of_nat (List.length members)).

(** The filter of the owner query, as a test on one agent. *)
Definition ownsHandle (h : string) (a : Agent.t) : bool :=
  Bool.eqb (Agent.xVerified a) true && optString_eqb (Agent.xHandle a) h.

(** [a] is an agent of the database that is verified with the handle [h]. *)
Definition verifiedOwner (db : DB) (h : string) (a : Agent.t) : Prop :=
  In a (agents db) /\ Agent.xVerified a = true /\ Agent.xHandle a = Some h.

(** Every handle has at most one verified agent. *)
Definition uniqueOwners (db : DB) : Prop :=
  forall h a b,
    verifiedOwner db h a -> verifiedOwner db h b -> Agent._id a = Agent._id b.

(** The challenge is open at [nowCheck]: not completed and not expired. *)
Definition openAt (nowCheck : Z) (c : Challenge.t) : Prop :=
  truthyNumber (Challenge.completedAt c) = false
  /\ Challenge.expiresAt c >= nowCheck.

(** A handler that adds no agent and changes none. *)
Definition shrinks {A} (handler : Mut A) : Prop :=
  forall db, incl (agents (snd (handler db))) (agents db).

(** What one mutation can do to the bindings of handles. *)
Inductive OwnersChange (db : DB) : list Agent.t -> Prop :=
| owners_same : OwnersChange db (agents db)
| owners_insert (a : Agent.t) :
    Agent.xVerified a = false -> OwnersChange db (agents db ++ [a])
| owners_keep (id : Id) (f : Agent.t -> Agent.t) :
    (forall doc,
        Agent._id (f doc) = Agent._id doc
        /\ Agent.xVerified (f doc) = Agent.xVerified doc
        /\ Agent.xHandle (f doc) = Agent.xHandle doc) ->
    OwnersChange db (patchList Agent._id id f (agents db))
| owners_bind (id : Id) (h : string) (f : Agent.t -> Agent.t) :
    ownedByOther (existingOwner h db) id = false ->
    (forall doc,
        Agent._id (f doc) = Agent._id doc /\ Agent.xHandle (f doc) = Some h) ->
    OwnersChange db (patchList Agent._id id f (agents db)).

(** The list is in the order of the index read newest first. *)
Definition newestFirst (l : list ClapEvent.t) : Prop :=
  StronglySorted
    (fun x y => ClapEvent.createdAt y <= ClapEvent.createdAt x) l.

(** The log is in the order of its timestamps. *)
Definition chronological (l : list ClapEvent.t) : Prop :=
  StronglySorted
    (fun x y => ClapEvent.createdAt x <= ClapEvent.createdAt y) l.

(** The timestamp and count of a point. *)
Definition tsAndCount (p : Point.t) : Z * Z := (Point.ts p, Point.clappingNow p).

(** The point made of a timestamp and a count. *)
Definition pointOf (total : Z) (tc : Z * Z) : Point.t :=
  Point.mk (fst tc) (snd tc) (shareOf (snd tc) total).

(** ** Sample data *)

(** An agent registered at time 0 that has never clapped, and one
    registered at time 900 that has clapped ever since. *)
Definition idleSince0 : Agent.t :=
  Agent.mk 1%nat "old" None false false 0 0 0 0 0.

Definition clappingSince900 : Agent.t :=
  Agent.mk 2%nat "young" None true true 0 900 900 900 900.

(** [alpha] is verified with the handle [jeb]; [beta] asked for the same
    handle at time 100, in a challenge that expires at 1000. *)
Definition alpha : Agent.t :=
  Agent.mk 0%nat "alpha" (Some "jeb"%string) true false 0 10 10 10 300.

Definition beta : Agent.t :=
  Agent.mk 1%nat "beta" (Some "jeb"%string) false false 0 20 20 20 100.

Definition betaChallenge : Challenge.t :=
  Challenge.mk 2%nat 1%nat "jeb" "claim beta" 100 1000 None None.

Definition alphaChallenge : Challenge.t :=
  Challenge.mk 3%nat 0%nat "jeb" "claim alpha" 200 1200 (Some 300)
    (Some "https://x.com/jeb/status/1"%string).

Definition betaAlone : DB := mkDB [beta] [] [betaChallenge] 4%nat.

Definition alphaAndBeta : DB :=
  mkDB [alpha; beta] [] [betaChallenge; alphaChallenge] 4%nat.

(** The run that builds [alphaAndBeta] from the empty database: [alpha] and
    [beta] register at 10 and 20, [beta] starts a challenge for [jeb] at
    100, [alpha] starts one at 200 and completes it at 300. *)
Definition conflictScenario : DB :=
  step 300
    (MCompleteXVerificationChallenge 3%nat
       (Some "https://x.com/jeb/status/1"%string))
    (step 200 (MCreateXVerificationChallenge 0%nat "@Jeb" "claim alpha" 1200)
       (step 100 (MCreateXVerificationChallenge 1%nat "jeb" "claim beta" 1000)
          (step 20 (MRegisterAgent "beta" None)
             (step 10 (MRegisterAgent "alpha" None) emptyDB)))).

(** [n] agents of which the first [k] clap, and a log of [n] events at the
    times [1 .. n], alternately [started] and [stopped]. *)
Definition crowd (n k : nat) : list Agent.t :=
  map (fun i => Agent.mk i "agent" None false (Nat.ltb i k) 0 0 0 0 0)
    (seq 0 n).

Definition tickLog (n : nat) : list ClapEvent.t :=
  map (fun i =>
         ClapEvent.mk (100 + i)%nat 0%nat "agent"
           (if Nat.even i then started else stopped) (Z.of_nat (S i)))
    (seq 0 n).

Definition busyHour : DB := mkDB (crowd 10 5) (tickLog 120) [] 1000%nat.

(** Ten agents, five of them clapping; the log holds a [stopped] event of
    time 1000000 and a [started] event of time 6400000, which is one hour
    before 10000000. *)
Definition oneStartAnHourAgo : DB :=
  mkDB (crowd 10 5)
    [ClapEvent.mk 100%nat 0%nat "agent" stopped 1000000;
     ClapEvent.mk 101%nat 0%nat "agent" started 6400000]
    [] 1000%nat.

(** The same database with its two events written in the other order. *)
Definition oneStartAnHourAgo' : DB :=
  mkDB (crowd 10 5)
    [ClapEvent.mk 101%nat 0%nat "agent" started 6400000;
     ClapEvent.mk 100%nat 0%nat "agent" stopped 1000000]
    [] 2000%nat.

(** * Further notions *)

(** ** Well-formed databases and the shape of a step *)

(** The ids of a table are distinct and were all handed out already. *)
Definition freshTable {A} (idOf : A -> Id) (l : list A) (next : Id) : Prop :=
  NoDup (map idOf l) /\ Forall (fun x => (idOf x < next)%nat) l.

Definition wfDB (db : DB) : Prop :=
  freshTable Agent._id (agents db) (nextId db)
  /\ freshTable ClapEvent._id (clapEvents db) (nextId db)
  /\ freshTable Challenge._id (xVerificationChallenges db) (nextId db).

(** The document [registerAgent] inserts. *)
Definition newAgent (now : Z) (name : string) (xHandle : option string)
  (id : Id) : Agent.t :=
  Agent.mk id (trim name)
    (match xHandle with
     | Some h => if truthyString h then Some (normalizeXHandle h) else None
     | None => None
     end)
    false false 0 now now now now.

(** The patch of a [heartbeat] without a boolean. *)
Definition heartbeatPatch (now : Z) (doc : Agent.t) : Agent.t :=
  set_updatedAt now (set_lastHeartbeatAt now doc).

(** The patch of the agent in [createXVerificationChallenge]. *)
Definition handlePatch (now : Z) (h : string) (doc : Agent.t) : Agent.t :=
  set_updatedAt now (set_xHandle (Some h) doc).

(** The document [createXVerificationChallenge] inserts. *)
Definition newChallenge (now : Z) (agentId : Id) (h challengeText : string)
  (expiresAt : Z) (id : Id) : Challenge.t :=
  Challenge.mk id agentId h challengeText now expiresAt None None.

(** What the mutation [m] called at [now] makes of the database: nothing (it
    threw, or there was nothing to write), or the writes of its handler. *)
Inductive StepShape (now : Z) (db : DB) : Mutation -> DB -> Prop :=
| shape_same (m : Mutation) : StepShape now db m db
| shape_register (name : string) (xHandle : option string) :
    StepShape now db (MRegisterAgent name xHandle)
      (mkDB (agents db ++ [newAgent now name xHandle (nextId db)])
         (clapEvents db) (xVerificationChallenges db) (S (nextId db)))
| shape_clap (m : Mutation) (agentId : Id) (agent : Agent.t) (clapping : bool) :
    m = MSetClappingState agentId clapping
    \/ m = MHeartbeat agentId (Some clapping) ->
    lookupAgent agentId (agents db) = Some agent ->
    StepShape now db m (afterClapWrite now agentId agent clapping db)
| shape_heartbeat (agentId : Id) (agent : Agent.t) :
    lookupAgent agentId (agents db) = Some agent ->
    StepShape now db (MHeartbeat agentId None)
      (mkDB (patchList Agent._id agentId (heartbeatPatch now) (agents db))
         (clapEvents db) (xVerificationChallenges db) (nextId db))
| shape_issue (agentId : Id) (agent : Agent.t) (raw challengeText : string)
    (expiresAt : Z) :
    lookupAgent agentId (agents db) = Some agent ->
    ownedByOther (existingOwner (normalizeXHandle raw) db) agentId = false ->
    StepShape now db
      (MCreateXVerificationChallenge agentId raw challengeText expiresAt)
      (mkDB (patchList Agent._id agentId
               (handlePatch now (normalizeXHandle raw)) (agents db))
         (clapEvents db)
         (xVerificationChallenges db
          ++ [newChallenge now agentId (normalizeXHandle raw) challengeText
                expiresAt (nextId db)])
         (S (nextId db)))
| shape_complete (challengeId : Id) (c : Challenge.t) (agent : Agent.t)
    (url : option string) :
    lookupChallenge challengeId (xVerificationChallenges db) = Some c ->
    openAt now c ->
    ownedByOther (existingOwner (Challenge.xHandle c) db) (Challenge.agentId c)
    = false ->
    lookupAgent (Challenge.agentId c) (agents db) = Some agent ->
    StepShape now db (MCompleteXVerificationChallenge challengeId url)
      (mkDB (patchList Agent._id (Challenge.agentId c)
               (verifiedPatch now (Challenge.xHandle c)) (agents db))
         (clapEvents db)
         (patchList Challenge._id challengeId (set_completion (Some now) url)
            (xVerificationChallenges db))
         (nextId db)).

(** ** What the bulk deletions leave *)

(** The table without the documents whose id is in [doomed]. *)
Definition withoutIds {A} (idOf : A -> Id) (doomed : list Id) (l : list A)
  : list A :=
  filter (fun y => negb (hasId doomed (idOf y))) l.

(** The agents in the order [deleteAllButNAgents] sorts them, newest first. *)
Definition newestAgentsFirst (l : list Agent.t) : list Agent.t :=
  sortBy (fun a b => inject_Z (Agent.createdAt b - Agent.createdAt a)) l.

(** The ids [deleteAllButNAgents] keeps. *)
Definition keepIdsOf (keep : Num) (db : DB) : list Id :=
  map Agent._id
    (slice (ofInteger 0) (Math.max (ofInteger 0) (Math.floor keep))
       (newestAgentsFirst (agents db))).

(** ** Runs with a clock that never goes back *)

(** The databases that the mutations build from the empty one when every
    call reads a clock value not below the one before; [t] is the last
    reading. *)
Inductive builtBy : Z -> DB -> Prop :=
| built_empty (t : Z) : builtBy t emptyDB
| built_step (t now : Z) (m : Mutation) (db : DB) :
    builtBy t db -> t <= now -> builtBy now (step now m db)
| built_deletion (t : Z) (d : Deletion) (db : DB) :
    builtBy t db -> builtBy t (deletionStep d db).

(** The timestamps and the accumulator of an agent fit a clock that reads
    [t]: the last state change lies between the creation and [t], and the
    accumulated clap time fits between the creation and the last change. *)
Definition soundTimes (t : Z) (a : Agent.t) : Prop :=
  Agent.createdAt a <= Agent.lastStateChangedAt a
  /\ Agent.lastStateChangedAt a <= t
  /\ 0 <= Agent.cumulativeClapMs a
  /\ Agent.cumulativeClapMs a
     <= Agent.lastStateChangedAt a - Agent.createdAt a.

(** Every event and every challenge belongs to an agent of the table. *)
Definition noOrphans (db : DB) : Prop :=
  Forall (fun e => lookupAgent (ClapEvent.agentId e) (agents db) <> None)
    (clapEvents db)
  /\ Forall (fun c => lookupAgent (Challenge.agentId c) (agents db) <> None)
       (xVerificationChallenges db).

(** A run with claps: [alpha] registers at 10, starts clapping at 100 and
    stops at 300. *)
Definition clapRun : DB :=
  step 300 (MSetClappingState 0%nat false)
    (step 100 (MSetClappingState 0%nat true)
       (step 10 (MRegisterAgent "alpha" None) emptyDB)).

(** ** Listings *)

(** The item [listAgents] makes of an agent. *)
Definition itemOf (now : Z) (a : Agent.t) : AgentItem.t :=
  AgentItem.mk (Agent._id a) (Agent.name a) (Agent.xHandle a)
    (Agent.xVerified a) (Agent.isClapping a) (Agent.createdAt a)
    (computeAgentPct a now).

(** [a] may stand before [b] in a list sorted by [sort]. *)
Definition inOrder (sort : Sort) (a b : AgentItem.t) : Prop :=
  match sort with
  | newest => AgentItem.createdAt b <= AgentItem.createdAt a
  | oldest => AgentItem.createdAt a <= AgentItem.createdAt b
  | highest_clap => (AgentItem.clapPct b <= AgentItem.clapPct a)%Q
  | lowest_clap => (AgentItem.clapPct a <= AgentItem.clapPct b)%Q
  end.

(** The items of the pages [1 .. n], page after page. *)
Definition pagesUpTo (now : Z) (sort : option Sort) (pageSize : option Num)
  (verifiedOnly : option bool) (db : DB) (n : nat) : list AgentItem.t :=
  flat_map
    (fun p =>
       ap_items
         (listAgents now sort (Some (ofInteger (Z.of_nat p))) pageSize
            verifiedOnly db))
    (seq 1 n).

(** ** The ticker *)

Module TickerEvent.
(** An element of [getTickerEvents]: [{ ...e, xVerified }]. *)
Record t := mk {
  event : ClapEvent.t;
  xVerified : bool
}.
End TickerEvent.

(** [Boolean(agent?.xVerified)]. *)
Definition verifiedFlag (agent : option Agent.t) : bool :=
  match agent with
  | Some a => Agent.xVerified a
  | None => false
  end.

(** [query.take(n)] for a non-negative integer [n]: the first [n]
    documents.  What [take] does with another number is decided by the
    Convex library, which is not part of this repository; the model leaves
    it undefined. *)
Definition take {A} (n : Num) (l : list A) : option (list A) :=
  match n with
  | Finite q =>
      if Qle_bool 0 q && Qeq_bool q (inject_Z (Qfloor q))
      then Some (firstn (Z.to_nat (Qfloor q)) l)
      else None
  | _ => None
  end.

Definition getTickerEvents (limit : option Num) (db : DB)
  : option (list TickerEvent.t) :=
  let limit :=
    Math.min (ofInteger 100)
      (Math.max (ofInteger 1) (orDefault limit (ofInteger 20))) in
  match take limit (by_created_at_desc (clapEvents db)) with
  | None => None
  | Some events =>
      Some (map (fun e =>
                   let agent := lookupAgent (ClapEvent.agentId e) (agents db) in
                   TickerEvent.mk e (verifiedFlag agent))
              events)
  end.

(** ** The handle format of the HTTP route *)

(** A character of the class [[a-z0-9_]]. *)
Definition isHandleChar (c : ascii) : bool :=
  let n := nat_of_ascii c in
  ((97 <=? n)%nat && (n <=? 122)%nat)
  || ((48 <=? n)%nat && (n <=? 57)%nat)
  || (n =? 95)%nat.

(** [xHandle.match(/^[a-z0-9_]{1,15}$/)], the test of the route
    [/api/verifications/x/start] on the normalized handle. *)
Definition matchesHandleFormat (s : string) : bool :=
  (1 <=? String.length s)%nat && (String.length s <=? 15)%nat
  && forallb isHandleChar (list_ascii_of_string s).

(** ** The emoji of an agent *)

(** The value of a number as a 32-bit signed integer ([x | 0]). *)
Definition toInt32 (x : Z) : Z := (x + 2 ^ 31) mod 2 ^ 32 - 2 ^ 31.

(** One turn of the loop: [hash = ((hash << 5) - hash) + code; hash |= 0]. *)
Definition hashStep (hash code : Z) : Z :=
  let hash := (toInt32 (Z.shiftl hash 5) - hash) + code in
  toInt32 hash.

(** [hash] when the loop over the code units of the seed ends. *)
Definition hashOf (codes : list Z) : Z := fold_left hashStep codes 0.

(** The table of emojis, as UTF-8 strings. *)
Definition AGENT_EMOJIS : list string :=
  [
   "🤖"; "🦾"; "🧠"; "⚡"; "🔥"; "🎯"; "🦞"; "🔨"; "💡"; "🚀";
   "🛠️"; "🧬"; "🌀"; "👾"; "🦿"; "🤯"; "🎲"; "🔮"; "🧪"; "🏗️";
   "🦀"; "🐙"; "🦈"; "🐺"; "🦅"; "🧭"; "🛰️"; "📡"; "🧱"; "⚙️";
   "🔩"; "🧰"; "🔧"; "⛏️"; "📈"; "📊"; "🗂️"; "🧵"; "🧲"; "🌊";
   "🌟"; "💥"; "🛡️"; "🗜️"; "🧯"; "🧮"; "🧑‍💻"; "👨‍🔬"; "🕹️"; "🚢"
  ]%string.

(** [AGENT_EMOJIS[Math.abs(hash) % AGENT_EMOJIS.length]]; an index outside
    the table would give [undefined], here [None].  The seed is given as
    its UTF-16 code units. *)
Definition getAgentEmoji (seed : list Z) : option string :=
  let hash := hashOf seed in
  nth_error AGENT_EMOJIS
    (Z.to_nat (Z.abs hash mod Z.of_nat (List.length AGENT_EMOJIS))).

(** The sum [c0 * 31^(n-1) + ... + c(n-1)], without wrap-around. *)
Definition polyHash (codes : list Z) : Z :=
  fold_left (fun h c => 31 * h + c) codes 0.

(** ** Order in time *)

(** The points of a series are in the order of their timestamps. *)
Definition inTimeOrder (points : list Point.t) : Prop :=
  StronglySorted (fun p q => Point.ts p <= Point.ts q) points.

(** The anchor of the series: the clapping count at [now]. *)
Definition anchorPoint (now : Z) (db : DB) : Point.t :=
  pointOf (Z.of_nat (List.length (agents db)))
    (now, countIf Agent.isClapping (agents db)).

(** ** How many agents [deleteAllButNAgents] keeps *)

(** Of [n] agents, [slice(0, max(0, floor(keep)))] holds this many. *)
Definition staying (keep : Num) (n : Z) : Z :=
  match keep with
  | NaN | NegInfinity => 0
  | Infinity => n
  | Finite q => Z.min (Z.max 0 (Qfloor q)) n
  end.

(** * Properties *)

Arguments lookupAgent : simpl never.
Arguments lookupChallenge : simpl never.
Arguments patchList : simpl never.

(** ** Percentages *)

Lemma clampPct_spec_clamp (x : Q) : clampPct x = spec_clamp x.
Proof.
  unfold clampPct, spec_clamp, Qmax, Qmin, GenericMinMax.gmax,
    GenericMinMax.gmin.
  destruct (Qcompare_spec 100 x) as [E | L | G].
  - change (0 ?= 100)%Q with Lt.
    destruct (Qle_bool x 0) eqn:H0.
    + apply Qle_bool_iff in H0. rewrite <- E in H0. lra.
    + destruct (Qle_bool 100 x) eqn:H1; [reflexivity|].
      assert (Qle_bool 100 x = true) by (apply Qle_bool_iff; rewrite E; lra).
      congruence.
  - change (0 ?= 100)%Q with Lt.
    destruct (Qle_bool x 0) eqn:H0.
    + apply Qle_bool_iff in H0. lra.
    + destruct (Qle_bool 100 x) eqn:H1; [reflexivity|].
      assert (Qle_bool 100 x = true) by (apply Qle_bool_iff; lra).
      congruence.
  - destruct (Qcompare_spec 0 x) as [E0 | L0 | G0].
    + assert (H : Qle_bool x 0 = true) by (apply Qle_bool_iff; rewrite E0; lra).
      now rewrite H.
    + destruct (Qle_bool x 0) eqn:H0.
      * apply Qle_bool_iff in H0. lra.
      * destruct (Qle_bool 100 x) eqn:H1; [|reflexivity].
        apply Qle_bool_iff in H1. lra.
    + assert (H : Qle_bool x 0 = true) by (apply Qle_bool_iff; lra).
      now rewrite H.
Qed.

Lemma spec_clamp_bounds (x : Q) : (0 <= spec_clamp x /\ spec_clamp x <= 100)%Q.
Proof.
  unfold spec_clamp.
  destruct (Qle_bool x 0) eqn:H0; [lra|].
  destruct (Qle_bool 100 x) eqn:H1; [lra|].
  assert (~ (x <= 0)%Q) by (rewrite <- Qle_bool_iff; congruence).
  assert (~ (100 <= x)%Q) by (rewrite <- Qle_bool_iff; congruence).
  lra.
Qed.

Lemma clampPct_bounds (x : Q) : (0 <= clampPct x /\ clampPct x <= 100)%Q.
Proof. rewrite clampPct_spec_clamp. apply spec_clamp_bounds. Qed.

Lemma computeAgentPct_unfold (agent : Agent.t) (now : Z) :
  computeAgentPct agent now = spec_pct agent now.
Proof.
  unfold computeAgentPct, spec_pct, elapsedMs, liveClapMs, spec_elapsed,
    spec_liveMs.
  apply clampPct_spec_clamp.
Qed.

Lemma in_firstn_skipn {A} (n k : nat) (l : list A) (x : A) :
  In x (firstn n (skipn k l)) -> In x l.
Proof.
  intro H.
  rewrite <- (firstn_skipn k l). apply in_or_app. right.
  rewrite <- (firstn_skipn n (skipn k l)).
  apply in_or_app. now left.
Qed.

Lemma in_slice {A} (start stop : Num) (l : list A) (x : A) :
  In x (slice start stop l) -> In x l.
Proof. unfold slice. apply in_firstn_skipn. Qed.

Lemma in_insertBy {A} (cmp : A -> A -> Q) (x y : A) (l : list A) :
  In y (insertBy cmp x l) -> y = x \/ In y l.
Proof.
  induction l as [|z l IH]; simpl.
  - intros [H | []]. now left.
  - destruct (Qle_bool (cmp x z) 0); simpl.
    + intros [H | H]; [now left | now right].
    + intros [H | H]; [right; now left|].
      destruct (IH H) as [E | I]; [now left | right; now right].
Qed.

Lemma in_sortBy {A} (cmp : A -> A -> Q) (l : list A) (y : A) :
  In y (sortBy cmp l) -> In y l.
Proof.
  induction l as [|x l IH]; simpl; [easy|].
  intro H. apply in_insertBy in H. destruct H as [E | I]; [now left|].
  right. now apply IH.
Qed.

Lemma withPct_clapPct (now : Z) (l : list Agent.t) :
  map clapPct (withPct now l) = map (fun a => spec_pct a now) l.
Proof.
  unfold withPct. rewrite map_map. apply map_ext.
  intro a. apply computeAgentPct_unfold.
Qed.

Lemma listAgents_items (now : Z) sort page pageSize verifiedOnly (db : DB) :
  Forall (fun item =>
            exists agent,
              In agent (agents db)
              /\ AgentItem._id item = Agent._id agent
              /\ AgentItem.clapPct item = spec_pct agent now)
    (ap_items (listAgents now sort page pageSize verifiedOnly db)).
Proof.
  apply Forall_forall. intros item H. unfold listAgents in H. cbn [ap_items] in H.
  apply in_slice, in_sortBy, in_map_iff in H.
  destruct H as (agent & E & I). apply filter_In in I. destruct I as [I _].
  exists agent. subst item. cbn. split; [assumption|]. split; [reflexivity|].
  apply computeAgentPct_unfold.
Qed.

(** C1.  The percentage of an agent observed at [now] is the clamp to
    [0,100] of [(cumulativeClapMs + liveMs) / elapsed * 100] with
    [elapsed = max(1, now - createdAt)] and [liveMs = max(0, now -
    lastStateChangedAt)] for a clapping agent and [0] otherwise: this is what
    [computeAgentPct] returns, and it is the [clapPct] that [getAgentById]
    returns, that [getCurrentStats] attaches to every agent and that every
    item of [listAgents] carries. *)
Theorem C1_agent_percentage (now : Z) (db : DB) :
  (forall agent, computeAgentPct agent now = spec_pct agent now)
  /\ (forall agentId,
        option_map AgentView.clapPct (getAgentById now agentId db)
        = option_map (fun a => spec_pct a now) (lookupAgent agentId (agents db)))
  /\ map clapPct (withPct now (agents db))
     = map (fun a => spec_pct a now) (agents db)
  /\ (forall sort page pageSize verifiedOnly,
        Forall (fun item =>
                  exists agent,
                    In agent (agents db)
                    /\ AgentItem._id item = Agent._id agent
                    /\ AgentItem.clapPct item = spec_pct agent now)
          (ap_items (listAgents now sort page pageSize verifiedOnly db))).
Proof.
  split; [intro; apply computeAgentPct_unfold|].
  split.
  - intro agentId. unfold getAgentById.
    destruct (lookupAgent agentId (agents db)); cbn; [|reflexivity].
    now rewrite computeAgentPct_unfold.
  - split; [apply withPct_clapPct|].
    intros. apply listAgents_items.
Qed.

(** C7.  Under any clock reading, also one earlier than [createdAt] or
    [lastStateChangedAt], the denominator of the percentage is at least 1,
    the live interval is not negative, and the percentage lies in [0,100];
    the same holds for the divisor and the value of a group percentage. *)
Theorem C7_percentage_safe (agent : Agent.t) (now : Z) :
  1 <= elapsedMs agent now
  /\ 0 <= liveClapMs agent now
  /\ computeAgentPct agent now
     = clampPct (inject_Z (Agent.cumulativeClapMs agent + liveClapMs agent now)
                 / inject_Z (elapsedMs agent now) * 100)
  /\ (0 <= computeAgentPct agent now)%Q
  /\ (computeAgentPct agent now <= 100)%Q
  /\ (forall members,
        1 <= Z.max 1 (t_elapsed (groupTotals now members))
        /\ (0 <= groupPct now members)%Q
        /\ (groupPct now members <= 100)%Q).
Proof.
  split; [unfold elapsedMs; lia|].
  split; [unfold liveClapMs; destruct (Agent.isClapping agent); lia|].
  split; [reflexivity|].
  split; [unfold computeAgentPct; apply clampPct_bounds|].
  split; [unfold computeAgentPct; apply clampPct_bounds|].
  intro members. split; [lia|].
  destruct members as [|a rest]; [cbn; lra|].
  unfold groupPct. apply clampPct_bounds.
Qed.

Example pct_of_idle_agent : (computeAgentPct idleSince0 1000 == 0)%Q.
Proof. reflexivity. Qed.

Example pct_of_clapping_agent : (computeAgentPct clappingSince900 1000 == 100)%Q.
Proof. reflexivity. Qed.

Example pct_under_clock_skew : (computeAgentPct clappingSince900 0 == 0)%Q.
Proof. reflexivity. Qed.

Example pooled_pct_of_both :
  (groupPct 1000 [idleSince0; clappingSince900] == 100 # 11)%Q.
Proof. reflexivity. Qed.

Example normalizeXHandle_jeb : normalizeXHandle " @Jeb " = "jeb"%string.
Proof. reflexivity. Qed.

(** ** Pooled percentages *)

Lemma fold_groupPct_step (now : Z) (l : list Agent.t) (acc : Totals) :
  fold_left (groupPct_step now) l acc
  = {| t_elapsed :=
         t_elapsed acc
         + sumZ (map (fun a => spec_elapsed now (Agent.createdAt a)) l);
       t_clap :=
         t_clap acc
         + sumZ (map (fun a => Agent.cumulativeClapMs a
                               + spec_liveMs (Agent.isClapping a) now
                                   (Agent.lastStateChangedAt a)) l) |}.
Proof.
  revert acc. induction l as [|a l IH]; intro acc; simpl.
  - destruct acc; simpl. f_equal; lia.
  - rewrite IH. unfold groupPct_step, spec_elapsed, spec_liveMs; simpl.
    f_equal; lia.
Qed.

Lemma sum_elapsed_ge (now : Z) (l : list Agent.t) :
  Z.of_nat (List.length l)
  <= sumZ (map (fun a => spec_elapsed now (Agent.createdAt a)) l).
Proof.
  induction l as [|a l IH]; simpl List.length; simpl sumZ; [lia|].
  unfold spec_elapsed at 1. lia.
Qed.

Lemma groupPct_pooled (now : Z) (a : Agent.t) (rest : list Agent.t) :
  groupPct now (a :: rest) = spec_groupPct now (a :: rest).
Proof.
  unfold groupPct, spec_groupPct, groupTotals.
  rewrite fold_groupPct_step. cbn [t_elapsed t_clap]. rewrite !Z.add_0_l.
  rewrite Z.max_r.
  - apply clampPct_spec_clamp.
  - pose proof (sum_elapsed_ge now (a :: rest)) as H.
    simpl List.length in H. lia.
Qed.

Lemma groupPct_cohort (now : Z) (members : list Agent.t) :
  groupPct now members
  = match members with [] => 0%Q | _ => spec_groupPct now members end.
Proof. destruct members; [reflexivity | apply groupPct_pooled]. Qed.

Lemma withPct_agents (now : Z) (l : list Agent.t) :
  map wp_agent (withPct now l) = l.
Proof. unfold withPct. rewrite map_map. cbn. apply map_id. Qed.

Lemma withPct_filter (now : Z) (p : Agent.t -> bool) (l : list Agent.t) :
  map wp_agent (filter (fun a => p (wp_agent a)) (withPct now l)) = filter p l.
Proof.
  induction l as [|a l IH]; simpl; [reflexivity|].
  destruct (p a); simpl; now rewrite IH.
Qed.

(** C2.  Each lifetime group percentage of [getCurrentStats] (overall,
    verified, unverified) is, for a cohort with a member, the clamp to
    [0,100] of the sum of the members' [cumulativeClapMs + liveMs] over the
    sum of their [max(1, now - createdAt)], times 100 (and [0] for the empty
    cohort); the divisor is at least the number of members.  For the cohort
    of an agent registered at 0 that never clapped and one registered at 900
    that claps since then, seen at 1000, this differs from the mean of the
    two members' percentages. *)
Theorem C2_group_percentage_pooled :
  (forall now db,
      let stats := getCurrentStats now db in
      let cohort members :=
        match members with [] => 0%Q | _ => spec_groupPct now members end in
      lifetimeClappingPctOverall stats = cohort (agents db)
      /\ lifetimeClappingPctVerified stats
         = cohort (filter Agent.xVerified (agents db))
      /\ lifetimeClappingPctUnverified stats
         = cohort (filter (fun a => negb (Agent.xVerified a)) (agents db)))
  /\ (forall now members,
        Z.of_nat (List.length members)
        <= sumZ (map (fun a => spec_elapsed now (Agent.createdAt a)) members))
  /\ (exists now a b,
        Agent.createdAt a <> Agent.createdAt b
        /\ Agent.isClapping a <> Agent.isClapping b
        /\ ~ (groupPct now [a; b] == meanPct now [a; b])%Q
        /\ ~ (spec_groupPct now [a; b] == meanPct now [a; b])%Q).
Proof.
  split.
  - intros now db stats cohort. subst stats cohort.
    unfold getCurrentStats. cbn [lifetimeClappingPctOverall
      lifetimeClappingPctVerified lifetimeClappingPctUnverified].
    rewrite withPct_agents.
    rewrite (withPct_filter now Agent.xVerified).
    rewrite (withPct_filter now (fun a => negb (Agent.xVerified a))).
    repeat split; apply groupPct_cohort.
  - split; [intros; apply sum_elapsed_ge|].
    exists 1000, idleSince0, clappingSince900.
    split; [cbn; lia|].
    split; [cbn; discriminate|].
    split; vm_compute; discriminate.
Qed.

(** ** Reading and patching a table *)

Lemma lookupAgent_patch_same (id : Id) (f : Agent.t -> Agent.t)
  (l : list Agent.t) :
  (forall x, Agent._id (f x) = Agent._id x) ->
  lookupAgent id (patchList Agent._id id f l)
  = option_map f (lookupAgent id l).
Proof.
  intro Hid. unfold lookupAgent, patchList.
  induction l as [|x l IH]; simpl; [reflexivity|].
  destruct (Nat.eqb (Agent._id x) id) eqn:E.
  - now rewrite Hid, E.
  - now rewrite E.
Qed.

Lemma lookupAgent_patch_other (id id' : Id) (f : Agent.t -> Agent.t)
  (l : list Agent.t) :
  id' <> id ->
  (forall x, Agent._id (f x) = Agent._id x) ->
  lookupAgent id' (patchList Agent._id id f l) = lookupAgent id' l.
Proof.
  intros Hne Hid. unfold lookupAgent, patchList.
  induction l as [|x l IH]; simpl; [reflexivity|].
  destruct (Nat.eqb (Agent._id x) id) eqn:E.
  - rewrite Hid. apply Nat.eqb_eq in E.
    assert (Nat.eqb (Agent._id x) id' = false) as ->
        by (apply Nat.eqb_neq; congruence).
    exact IH.
  - destruct (Nat.eqb (Agent._id x) id'); [reflexivity | exact IH].
Qed.

Lemma lookupAgent_app (id : Id) (l l' : list Agent.t) (a : Agent.t) :
  lookupAgent id l = Some a -> lookupAgent id (l ++ l') = Some a.
Proof.
  unfold lookupAgent. induction l as [|x l IH]; simpl; [discriminate|].
  destruct (Nat.eqb (Agent._id x) id); [easy | exact IH].
Qed.

(** ** Clap-state writes *)

Lemma setClappingState_run (now : Z) (agentId : Id) (agent : Agent.t)
  (clapping : bool) (db : DB) :
  lookupAgent agentId (agents db) = Some agent ->
  setClappingState now agentId clapping db
  = (Ok {| ok := true;
           changed := negb (Bool.eqb (Agent.isClapping agent) clapping) |},
     afterClapWrite now agentId agent clapping db).
Proof.
  intro H.
  unfold setClappingState, bind, getAgent, patchAgent, afterClapWrite,
    clapPatch.
  rewrite H. cbn beta iota. rewrite H.
  destruct (Agent.isClapping agent), clapping; reflexivity.
Qed.

(** [heartbeat] with a boolean does what [setClappingState] does. *)
Lemma heartbeat_as_setClappingState (now : Z) (agentId : Id)
  (clapping : bool) (db : DB) :
  heartbeat now agentId (Some clapping) db
  = setClappingState now agentId clapping db.
Proof. reflexivity. Qed.

Lemma heartbeat_run (now : Z) (agentId : Id) (agent : Agent.t)
  (clapping : bool) (db : DB) :
  lookupAgent agentId (agents db) = Some agent ->
  heartbeat now agentId (Some clapping) db
  = (Ok {| ok := true;
           changed := negb (Bool.eqb (Agent.isClapping agent) clapping) |},
     afterClapWrite now agentId agent clapping db).
Proof.
  intro H. rewrite heartbeat_as_setClappingState.
  now apply setClappingState_run.
Qed.

Lemma clapPatch_id now agent clapping doc :
  Agent._id (clapPatch now agent clapping doc) = Agent._id doc.
Proof. reflexivity. Qed.

Lemma lookup_after_write (now : Z) (agentId : Id) (agent : Agent.t)
  (clapping : bool) (l : list Agent.t) :
  lookupAgent agentId l = Some agent ->
  lookupAgent agentId (patchList Agent._id agentId (clapPatch now agent clapping) l)
  = Some (clapPatch now agent clapping agent).
Proof.
  intro H. rewrite lookupAgent_patch_same by (intro; apply clapPatch_id).
  now rewrite H.
Qed.

(** C3.  A clap-state write for an existing agent, by [setClappingState] or
    by [heartbeat] with a boolean (the two do the same), returns
    [changed] true exactly when the boolean differs from the stored flag;
    it sets the flag; it adds [max(0, now - lastStateChangedAt)] to
    [cumulativeClapMs] exactly when the agent was clapping and the new value
    is not-clapping; it stamps [lastStateChangedAt] with [now] only if the
    flag changed, and [lastHeartbeatAt] and [updatedAt] always; it appends
    one event ([started] when turning on, [stopped] when turning off) if the
    flag changed and none otherwise.  Nothing else is written. *)
Theorem C3_clap_state_write (now : Z) (agentId : Id) (clapping : bool)
  (db : DB) (agent : Agent.t) :
  lookupAgent agentId (agents db) = Some agent ->
  let flagChanged := negb (Bool.eqb (Agent.isClapping agent) clapping) in
  exists db' agent',
    setClappingState now agentId clapping db
    = (Ok {| ok := true; changed := flagChanged |}, db')
    /\ heartbeat now agentId (Some clapping) db
       = (Ok {| ok := true; changed := flagChanged |}, db')
    /\ lookupAgent agentId (agents db') = Some agent'
    /\ Agent.isClapping agent' = clapping
    /\ Agent.cumulativeClapMs agent'
       = (if Agent.isClapping agent && negb clapping
          then Agent.cumulativeClapMs agent
               + Z.max 0 (now - Agent.lastStateChangedAt agent)
          else Agent.cumulativeClapMs agent)
    /\ Agent.lastStateChangedAt agent'
       = (if flagChanged then now else Agent.lastStateChangedAt agent)
    /\ Agent.lastHeartbeatAt agent' = now
    /\ Agent.updatedAt agent' = now
    /\ (Agent._id agent', Agent.name agent', Agent.xHandle agent',
        Agent.xVerified agent', Agent.createdAt agent')
       = (Agent._id agent, Agent.name agent, Agent.xHandle agent,
          Agent.xVerified agent, Agent.createdAt agent)
    /\ clapEvents db'
       = clapEvents db
         ++ (if flagChanged
             then [ClapEvent.mk (nextId db) agentId (Agent.name agent)
                     (if clapping then started else stopped) now]
             else [])
    /\ (forall other, other <> agentId ->
          lookupAgent other (agents db') = lookupAgent other (agents db))
    /\ xVerificationChallenges db' = xVerificationChallenges db.
Proof.
  intros H flagChanged.
  exists (afterClapWrite now agentId agent clapping db).
  exists (clapPatch now agent clapping agent).
  split; [exact (setClappingState_run _ _ _ _ _ H)|].
  split; [exact (heartbeat_run _ _ _ _ _ H)|].
  assert (E : agents (afterClapWrite now agentId agent clapping db)
              = patchList Agent._id agentId (clapPatch now agent clapping)
                  (agents db))
    by (unfold afterClapWrite; now destruct (negb _)).
  split; [rewrite E; now apply lookup_after_write|].
  repeat (split; [reflexivity|]).
  split.
  { unfold afterClapWrite. fold flagChanged.
    destruct flagChanged; cbn; [reflexivity | now rewrite app_nil_r]. }
  split.
  { intros other Hne. rewrite E.
    apply lookupAgent_patch_other; auto using clapPatch_id. }
  unfold afterClapWrite. now destruct (negb _).
Qed.

Lemma C3_clap_state_write_witness :
  let db := mkDB [clappingSince900] [] [] 3%nat in
  exists db' agent',
    setClappingState 1000 2%nat false db
    = (Ok {| ok := true; changed := true |}, db')
    /\ lookupAgent 2%nat (agents db') = Some agent'
    /\ Agent.cumulativeClapMs agent' = 100
    /\ clapEvents db' = [ClapEvent.mk 3%nat 2%nat "young" stopped 1000].
Proof.
  intro db.
  destruct (C3_clap_state_write 1000 2%nat false db clappingSince900 eq_refl)
    as (db' & agent' & S1 & _ & L & _ & C & _ & _ & _ & _ & Ev & _).
  exists db', agent'. repeat split; assumption.
Defined.

(** C4.  Writing the value the flag already has, through [setClappingState]
    or [heartbeat], reports [changed = false], appends no event, and leaves
    the agent as it was except for [lastHeartbeatAt] and [updatedAt], which
    become [now]; the other agents and the challenges are not touched. *)
Theorem C4_same_value_write (now : Z) (agentId : Id) (db : DB)
  (agent : Agent.t) :
  lookupAgent agentId (agents db) = Some agent ->
  exists db',
    setClappingState now agentId (Agent.isClapping agent) db
    = (Ok {| ok := true; changed := false |}, db')
    /\ heartbeat now agentId (Some (Agent.isClapping agent)) db
       = (Ok {| ok := true; changed := false |}, db')
    /\ clapEvents db' = clapEvents db
    /\ lookupAgent agentId (agents db')
       = Some (Agent.mk (Agent._id agent) (Agent.name agent)
                 (Agent.xHandle agent) (Agent.xVerified agent)
                 (Agent.isClapping agent) (Agent.cumulativeClapMs agent)
                 (Agent.lastStateChangedAt agent) now
                 (Agent.createdAt agent) now)
    /\ (forall other, other <> agentId ->
          lookupAgent other (agents db') = lookupAgent other (agents db))
    /\ xVerificationChallenges db' = xVerificationChallenges db
    /\ nextId db' = nextId db.
Proof.
  intro H.
  pose proof (setClappingState_run now agentId agent (Agent.isClapping agent)
                db H) as W.
  unfold afterClapWrite in W. rewrite Bool.eqb_reflx in W. cbn [negb] in W.
  eexists.
  split; [exact W|].
  split; [rewrite heartbeat_as_setClappingState; exact W|].
  cbn [agents clapEvents xVerificationChallenges nextId].
  split; [reflexivity|].
  split.
  - rewrite (lookup_after_write _ _ _ _ _ H). f_equal.
    unfold clapPatch. rewrite Bool.eqb_reflx.
    destruct agent as [i n h v c m s hb cr up]; cbn.
    now destruct c.
  - split; [|split; reflexivity].
    intros other Hne. apply lookupAgent_patch_other; auto using clapPatch_id.
Qed.

Lemma C4_same_value_write_witness :
  let db := mkDB [clappingSince900] [] [] 3%nat in
  exists db',
    setClappingState 1000 2%nat true db
    = (Ok {| ok := true; changed := false |}, db')
    /\ clapEvents db' = []
    /\ lookupAgent 2%nat (agents db')
       = Some (Agent.mk 2%nat "young" None true true 0 900 1000 900 1000).
Proof.
  intro db.
  destruct (C4_same_value_write 1000 2%nat db clappingSince900 eq_refl)
    as (db' & S1 & _ & Ev & L & _).
  exists db'. repeat split; assumption.
Defined.

(** ** The accumulator across mutations *)

Lemma step_agents (now : Z) (m : Mutation) (db : DB) :
  AgentsChange now (agents db) (agents (step now m db)).
Proof.
  unfold step, runMutation, handlerOf.
  destruct m as [name xh | agentId clapping | agentId [clapping|]
                | agentId xh text expiresAt | challengeId url].
  - cbn. apply change_insert.
  - unfold bind at 1.
    destruct (lookupAgent agentId (agents db)) as [agent|] eqn:H.
    + rewrite (setClappingState_run _ _ _ _ _ H). unfold afterClapWrite.
      cbn. destruct (negb _); cbn; now apply change_clap.
    + unfold setClappingState, bind, getAgent. rewrite H. cbn.
      apply change_none.
  - unfold bind at 1.
    destruct (lookupAgent agentId (agents db)) as [agent|] eqn:H.
    + rewrite (heartbeat_run _ _ _ _ _ H). unfold afterClapWrite.
      cbn. destruct (negb _); cbn; now apply change_clap.
    + unfold heartbeat, bind, getAgent. rewrite H. cbn. apply change_none.
  - unfold heartbeat, bind, getAgent, patchAgent.
    destruct (lookupAgent agentId (agents db)) as [agent|] eqn:H; cbn.
    + rewrite H. cbn. apply change_frame. intro doc. now repeat split.
    + apply change_none.
  - unfold createXVerificationChallenge, bind, getAgent, findExistingOwner,
      patchAgent, insertChallenge.
    destruct (lookupAgent agentId (agents db)) as [agent|] eqn:H; cbn;
      [|apply change_none].
    destruct (ownedByOther _ _); cbn; [apply change_none|].
    rewrite H. cbn. apply change_frame. intro doc. now repeat split.
  - unfold completeXVerificationChallenge, bind, getChallenge,
      findExistingOwner, patchAgent, patchChallenge.
    destruct (lookupChallenge challengeId (xVerificationChallenges db))
      as [c|] eqn:H; cbn; [|apply change_none].
    destruct (truthyNumber _); cbn; [apply change_none|].
    destruct (Challenge.expiresAt c <? now); cbn; [apply change_none|].
    destruct (ownedByOther _ _); cbn; [apply change_none|].
    destruct (lookupChallenge (Challenge._id c) (xVerificationChallenges db));
      cbn; [|apply change_none].
    destruct (lookupAgent (Challenge.agentId c) (agents db)); cbn;
      [|apply change_none].
    apply change_frame. intro doc. now repeat split.
Qed.

Lemma step_setClappingState (now : Z) (agentId : Id) (agent : Agent.t)
  (clapping : bool) (db : DB) :
  lookupAgent agentId (agents db) = Some agent ->
  step now (MSetClappingState agentId clapping) db
  = afterClapWrite now agentId agent clapping db.
Proof.
  intro H. unfold step, runMutation, handlerOf. unfold bind at 1.
  now rewrite (setClappingState_run _ _ _ _ _ H).
Qed.

Lemma accumulator_after_change (now : Z) (before after : list Agent.t)
  (agentId : Id) (agent : Agent.t) :
  AgentsChange now before after ->
  lookupAgent agentId before = Some agent ->
  exists agent',
    lookupAgent agentId after = Some agent'
    /\ (Agent.cumulativeClapMs agent' = Agent.cumulativeClapMs agent
        \/ (Agent.isClapping agent = true
            /\ Agent.isClapping agent' = false
            /\ Agent.cumulativeClapMs agent'
               = Agent.cumulativeClapMs agent
                 + Z.max 0 (now - Agent.lastStateChangedAt agent))).
Proof.
  intros C H. destruct C as [| a | id f K | id target clapping T].
  - exists agent. auto.
  - exists agent. split; [now apply lookupAgent_app | auto].
  - destruct (Nat.eq_dec agentId id) as [-> | Hne].
    + exists (f agent). split.
      * rewrite lookupAgent_patch_same by (intro; apply K). now rewrite H.
      * left. apply K.
    + exists agent. split; [|auto].
      rewrite lookupAgent_patch_other; auto. intro; apply K.
  - destruct (Nat.eq_dec agentId id) as [-> | Hne].
    + assert (target = agent) as -> by congruence.
      exists (clapPatch now agent clapping agent). split.
      * now apply lookup_after_write.
      * unfold clapPatch. cbn.
        destruct (Agent.isClapping agent), clapping; cbn; auto.
    + exists agent. split; [|auto].
      rewrite lookupAgent_patch_other; auto using clapPatch_id.
Qed.

(** C5 (as amended).  Across [registerAgent], [setClappingState],
    [heartbeat] and the two verification mutations, an agent stays in the
    table and its [cumulativeClapMs] does not decrease; when it differs
    afterwards, the agent was clapping before and is not clapping after, and
    the difference is [max(0, now - lastStateChangedAt)], the time clapped
    since the last state change.  Turning the flag of a clapping agent off
    and on again at one instant appends exactly two events, a [stopped] and
    then a [started] one, and adds to [cumulativeClapMs] the time clapped
    since the last state change: nothing when the agent claps since the
    instant the clock still shows.  This is the case after a call at the
    same instant has turned the flag on: when an idle agent is set to true,
    false and true at one instant, [cumulativeClapMs] stays as it was, the
    first call appends a [started] event and the two calls after it append
    exactly two events. *)
Theorem C5_accumulator_monotone :
  (forall now m db agentId agent,
      lookupAgent agentId (agents db) = Some agent ->
      exists agent',
        lookupAgent agentId (agents (step now m db)) = Some agent'
        /\ Agent.cumulativeClapMs agent <= Agent.cumulativeClapMs agent'
        /\ (Agent.cumulativeClapMs agent' <> Agent.cumulativeClapMs agent ->
            Agent.isClapping agent = true
            /\ Agent.isClapping agent' = false
            /\ Agent.cumulativeClapMs agent'
               = Agent.cumulativeClapMs agent
                 + Z.max 0 (now - Agent.lastStateChangedAt agent)))
  /\ (forall now db agentId agent,
        lookupAgent agentId (agents db) = Some agent ->
        Agent.isClapping agent = true ->
        let db1 := step now (MSetClappingState agentId false) db in
        let db2 := step now (MSetClappingState agentId true) db1 in
        exists agent2,
          lookupAgent agentId (agents db2) = Some agent2
          /\ Agent.isClapping agent2 = true
          /\ Agent.cumulativeClapMs agent2
             = Agent.cumulativeClapMs agent
               + Z.max 0 (now - Agent.lastStateChangedAt agent)
          /\ (now <= Agent.lastStateChangedAt agent ->
              Agent.cumulativeClapMs agent2 = Agent.cumulativeClapMs agent)
          /\ clapEvents db2
             = clapEvents db
               ++ [ClapEvent.mk (nextId db) agentId (Agent.name agent)
                     stopped now;
                   ClapEvent.mk (S (nextId db)) agentId (Agent.name agent)
                     started now])
  /\ (forall now db agentId agent,
        lookupAgent agentId (agents db) = Some agent ->
        Agent.isClapping agent = false ->
        let db0 := step now (MSetClappingState agentId true) db in
        let db1 := step now (MSetClappingState agentId false) db0 in
        let db2 := step now (MSetClappingState agentId true) db1 in
        exists agent0 agent2,
          lookupAgent agentId (agents db0) = Some agent0
          /\ lookupAgent agentId (agents db2) = Some agent2
          /\ Agent.cumulativeClapMs agent0 = Agent.cumulativeClapMs agent
          /\ Agent.cumulativeClapMs agent2 = Agent.cumulativeClapMs agent
          /\ clapEvents db0
             = clapEvents db
               ++ [ClapEvent.mk (nextId db) agentId (Agent.name agent)
                     started now]
          /\ clapEvents db2
             = clapEvents db0
               ++ [ClapEvent.mk (nextId db0) agentId (Agent.name agent)
                     stopped now;
                   ClapEvent.mk (S (nextId db0)) agentId (Agent.name agent)
                     started now]).
Proof.
  assert (Toggle : forall now db agentId agent,
    lookupAgent agentId (agents db) = Some agent ->
    Agent.isClapping agent = true ->
    let db1 := step now (MSetClappingState agentId false) db in
    let db2 := step now (MSetClappingState agentId true) db1 in
    exists agent2,
      lookupAgent agentId (agents db2) = Some agent2
      /\ Agent.isClapping agent2 = true
      /\ Agent.cumulativeClapMs agent2
         = Agent.cumulativeClapMs agent
           + Z.max 0 (now - Agent.lastStateChangedAt agent)
      /\ clapEvents db2
         = clapEvents db
           ++ [ClapEvent.mk (nextId db) agentId (Agent.name agent)
                 stopped now;
               ClapEvent.mk (S (nextId db)) agentId (Agent.name agent)
                 started now]).
  { intros now db agentId agent H C db1 db2.
    assert (E1 : db1
                 = mkDB (patchList Agent._id agentId
                           (clapPatch now agent false) (agents db))
                     (clapEvents db
                      ++ [ClapEvent.mk (nextId db) agentId (Agent.name agent)
                            stopped now])
                     (xVerificationChallenges db) (S (nextId db))).
    { subst db1. rewrite (step_setClappingState _ _ _ _ _ H).
      unfold afterClapWrite. now rewrite C. }
    assert (H1 : lookupAgent agentId (agents db1)
                 = Some (clapPatch now agent false agent)).
    { rewrite E1. cbn [agents]. now apply lookup_after_write. }
    exists (clapPatch now (clapPatch now agent false agent) true
              (clapPatch now agent false agent)).
    subst db2. rewrite (step_setClappingState _ _ _ _ _ H1).
    unfold afterClapWrite.
    replace (Agent.isClapping (clapPatch now agent false agent)) with false
      by reflexivity.
    cbn [Bool.eqb negb snd agents clapEvents].
    split; [now apply lookup_after_write|].
    split; [reflexivity|].
    split.
    - cbn. rewrite C. cbn. lia.
    - rewrite E1. cbn. now rewrite <- app_assoc. }
  split.
  { intros now m db agentId agent H.
    destruct (accumulator_after_change now _ _ agentId agent
                (step_agents now m db) H) as (agent' & L & D).
    exists agent'. split; [exact L|].
    destruct D as [E | (C & C' & E)].
    - split; [lia | intro Hne; congruence].
    - split; [lia | auto]. }
  split.
  { intros now db agentId agent H C db1 db2.
    destruct (Toggle now db agentId agent H C) as (agent2 & L & F & M & Ev).
    exists agent2. split; [exact L|]. split; [exact F|].
    split; [exact M|]. split; [intro T; rewrite M; lia | exact Ev]. }
  intros now db agentId agent H Idle db0 db1 db2.
  assert (E0 : db0
               = mkDB (patchList Agent._id agentId
                         (clapPatch now agent true) (agents db))
                   (clapEvents db
                    ++ [ClapEvent.mk (nextId db) agentId (Agent.name agent)
                          started now])
                   (xVerificationChallenges db) (S (nextId db))).
  { subst db0. rewrite (step_setClappingState _ _ _ _ _ H).
    unfold afterClapWrite. now rewrite Idle. }
  assert (H0 : lookupAgent agentId (agents db0)
               = Some (clapPatch now agent true agent)).
  { rewrite E0. cbn [agents]. now apply lookup_after_write. }
  destruct (Toggle now db0 agentId (clapPatch now agent true agent) H0)
    as (agent2 & L2 & _ & C2 & Ev).
  - reflexivity.
  - exists (clapPatch now agent true agent), agent2.
    split; [exact H0|]. split; [exact L2|].
    split; [cbn; now rewrite Idle|].
    split; [rewrite C2; cbn; rewrite Idle; cbn; lia|].
    split; [rewrite E0; reflexivity | exact Ev].
Qed.

Lemma C5_accumulator_monotone_witness :
  let db := mkDB [clappingSince900; idleSince0] [] [] 3%nat in
  (exists agent',
      lookupAgent 2%nat (agents (step 1000 (MSetClappingState 2%nat false) db))
      = Some agent'
      /\ 0 <= Agent.cumulativeClapMs agent')
  /\ (exists agent2,
        lookupAgent 2%nat
          (agents (step 900 (MSetClappingState 2%nat true)
                     (step 900 (MSetClappingState 2%nat false) db)))
        = Some agent2
        /\ Agent.cumulativeClapMs agent2 = 0
        /\ clapEvents (step 900 (MSetClappingState 2%nat true)
                         (step 900 (MSetClappingState 2%nat false) db))
           = [ClapEvent.mk 3%nat 2%nat "young" stopped 900;
              ClapEvent.mk 4%nat 2%nat "young" started 900])
  /\ (exists agent2,
        lookupAgent 1%nat
          (agents (step 50 (MSetClappingState 1%nat true)
                     (step 50 (MSetClappingState 1%nat false)
                        (step 50 (MSetClappingState 1%nat true) db))))
        = Some agent2
        /\ Agent.cumulativeClapMs agent2 = 0).
Proof.
  intro db.
  destruct C5_accumulator_monotone as (Mono & Toggle & Frozen).
  split.
  { destruct (Mono 1000 (MSetClappingState 2%nat false) db 2%nat
                clappingSince900 eq_refl) as (agent' & L & M & _).
    exists agent'. split; assumption. }
  split.
  { destruct (Toggle 900 db 2%nat clappingSince900 eq_refl eq_refl)
      as (agent2 & L & _ & _ & M & Ev).
    exists agent2. split; [exact L|]. split; [|exact Ev].
    apply M. cbn. lia. }
  destruct (Frozen 50 db 1%nat idleSince0 eq_refl eq_refl)
    as (agent0 & agent2 & _ & L & _ & M & _).
  exists agent2. split; assumption.
Defined.

(** C5 as stated fails: an agent that claps since 900 and is set to false
    and then to true at 1000, with no time passing between the two calls,
    ends with 100 more in [cumulativeClapMs]; and an idle agent that is set
    to true, false and true at one instant gets three events. *)
Lemma C5_counterexample :
  let db := mkDB [clappingSince900; idleSince0] [] [] 3%nat in
  let toggled :=
    step 1000 (MSetClappingState 2%nat true)
      (step 1000 (MSetClappingState 2%nat false) db) in
  let thrice :=
    step 50 (MSetClappingState 1%nat true)
      (step 50 (MSetClappingState 1%nat false)
         (step 50 (MSetClappingState 1%nat true) db)) in
  option_map Agent.cumulativeClapMs (lookupAgent 2%nat (agents db)) = Some 0
  /\ option_map Agent.cumulativeClapMs (lookupAgent 2%nat (agents toggled))
     = Some 100
  /\ option_map Agent.cumulativeClapMs (lookupAgent 2%nat (agents toggled))
     <> option_map Agent.cumulativeClapMs (lookupAgent 2%nat (agents db))
  /\ List.length (clapEvents toggled) = 2%nat
  /\ List.length (clapEvents thrice) = 3%nat.
Proof.
  intros db toggled thrice.
  split; [reflexivity|]. split; [reflexivity|].
  split; [discriminate|]. split; reflexivity.
Qed.

(** ** Verification challenges *)

Lemma lookupChallenge_patch_same (id : Id) (f : Challenge.t -> Challenge.t)
  (l : list Challenge.t) :
  (forall x, Challenge._id (f x) = Challenge._id x) ->
  lookupChallenge id (patchList Challenge._id id f l)
  = option_map f (lookupChallenge id l).
Proof.
  intro Hid. unfold lookupChallenge, patchList.
  induction l as [|x l IH]; simpl; [reflexivity|].
  destruct (Nat.eqb (Challenge._id x) id) eqn:E.
  - now rewrite Hid, E.
  - now rewrite E.
Qed.

Lemma lookupChallenge_id (id : Id) (l : list Challenge.t) (c : Challenge.t) :
  lookupChallenge id l = Some c -> Challenge._id c = id.
Proof.
  unfold lookupChallenge. intro H. apply find_some in H.
  now apply Nat.eqb_eq.
Qed.

Lemma complete_missing nowCheck now challengeId url db :
  lookupChallenge challengeId (xVerificationChallenges db) = None ->
  completeXVerificationChallenge nowCheck now challengeId url db
  = (Throw "Challenge not found", db).
Proof.
  intro H. unfold completeXVerificationChallenge, bind, getChallenge.
  now rewrite H.
Qed.

Lemma complete_completed nowCheck now challengeId url db c :
  lookupChallenge challengeId (xVerificationChallenges db) = Some c ->
  truthyNumber (Challenge.completedAt c) = true ->
  completeXVerificationChallenge nowCheck now challengeId url db
  = (Throw "Challenge already completed", db).
Proof.
  intros H T. unfold completeXVerificationChallenge, bind, getChallenge.
  now rewrite H, T.
Qed.

Lemma complete_expired nowCheck now challengeId url db c :
  lookupChallenge challengeId (xVerificationChallenges db) = Some c ->
  truthyNumber (Challenge.completedAt c) = false ->
  Challenge.expiresAt c < nowCheck ->
  completeXVerificationChallenge nowCheck now challengeId url db
  = (Throw "Challenge expired", db).
Proof.
  intros H T E. unfold completeXVerificationChallenge, bind, getChallenge.
  rewrite H, T. apply Z.ltb_lt in E. now rewrite E.
Qed.

Lemma complete_conflict nowCheck now challengeId url db c :
  lookupChallenge challengeId (xVerificationChallenges db) = Some c ->
  openAt nowCheck c ->
  ownedByOther (existingOwner (Challenge.xHandle c) db) (Challenge.agentId c)
  = true ->
  completeXVerificationChallenge nowCheck now challengeId url db
  = (Throw err_conflict, db).
Proof.
  intros H [T E] O.
  unfold completeXVerificationChallenge, bind, getChallenge, findExistingOwner.
  rewrite H, T.
  assert ((Challenge.expiresAt c <? nowCheck) = false) as ->
      by (apply Z.ltb_ge; lia).
  now rewrite O.
Qed.

Lemma complete_success nowCheck now challengeId url db c agent :
  lookupChallenge challengeId (xVerificationChallenges db) = Some c ->
  openAt nowCheck c ->
  ownedByOther (existingOwner (Challenge.xHandle c) db) (Challenge.agentId c)
  = false ->
  lookupAgent (Challenge.agentId c) (agents db) = Some agent ->
  completeXVerificationChallenge nowCheck now challengeId url db
  = (Ok {| cc_ok := true;
           cc_agentId := Challenge.agentId c;
           cc_xHandle := Challenge.xHandle c |},
     mkDB (patchList Agent._id (Challenge.agentId c)
             (verifiedPatch now (Challenge.xHandle c)) (agents db))
       (clapEvents db)
       (patchList Challenge._id challengeId (set_completion (Some now) url)
          (xVerificationChallenges db))
       (nextId db)).
Proof.
  intros H [T E] O A.
  unfold completeXVerificationChallenge, bind, getChallenge, findExistingOwner,
    patchChallenge, patchAgent.
  rewrite H, T.
  assert ((Challenge.expiresAt c <? nowCheck) = false) as ->
      by (apply Z.ltb_ge; lia).
  rewrite O, (lookupChallenge_id _ _ _ H), H. cbn [agents]. now rewrite A.
Qed.

(** C8.  [completeXVerificationChallenge] throws and writes nothing when the
    challenge does not exist ("Challenge not found"), when it carries a
    completion stamp ("Challenge already completed"; a stamp is a reading of
    [Date.now()] and so is not zero), and when [expiresAt] is earlier than
    the clock (with "Challenge expired" unless it is already completed); the
    three messages differ from each other.  For an open challenge of an
    existing agent whose handle has no verified owner other than this agent,
    it stamps [completedAt] and [matchedPostUrl] on the challenge and makes
    the agent verified with the challenge's handle; a second completion of
    the same challenge, at any time, then throws "Challenge already
    completed". *)
Theorem C8_completion_guards (nowCheck now : Z) (challengeId : Id)
  (url : option string) (db : DB) :
  (lookupChallenge challengeId (xVerificationChallenges db) = None ->
   completeXVerificationChallenge nowCheck now challengeId url db
   = (Throw "Challenge not found", db))
  /\ (forall c t,
        lookupChallenge challengeId (xVerificationChallenges db) = Some c ->
        Challenge.completedAt c = Some t -> t <> 0 ->
        completeXVerificationChallenge nowCheck now challengeId url db
        = (Throw "Challenge already completed", db))
  /\ (forall c,
        lookupChallenge challengeId (xVerificationChallenges db) = Some c ->
        Challenge.expiresAt c < nowCheck ->
        completeXVerificationChallenge nowCheck now challengeId url db
        = (Throw (if truthyNumber (Challenge.completedAt c)
                  then "Challenge already completed"
                  else "Challenge expired"), db))
  /\ ("Challenge not found" <> "Challenge already completed"
      /\ "Challenge not found" <> "Challenge expired"
      /\ "Challenge already completed" <> "Challenge expired")%string
  /\ (forall c agent,
        lookupChallenge challengeId (xVerificationChallenges db) = Some c ->
        openAt nowCheck c ->
        ownedByOther (existingOwner (Challenge.xHandle c) db)
          (Challenge.agentId c) = false ->
        lookupAgent (Challenge.agentId c) (agents db) = Some agent ->
        exists db',
          completeXVerificationChallenge nowCheck now challengeId url db
          = (Ok {| cc_ok := true;
                   cc_agentId := Challenge.agentId c;
                   cc_xHandle := Challenge.xHandle c |}, db')
          /\ lookupChallenge challengeId (xVerificationChallenges db')
             = Some (Challenge.mk (Challenge._id c) (Challenge.agentId c)
                       (Challenge.xHandle c) (Challenge.challengeText c)
                       (Challenge.createdAt c) (Challenge.expiresAt c)
                       (Some now) url)
          /\ lookupAgent (Challenge.agentId c) (agents db')
             = Some (Agent.mk (Agent._id agent) (Agent.name agent)
                       (Some (Challenge.xHandle c)) true
                       (Agent.isClapping agent) (Agent.cumulativeClapMs agent)
                       (Agent.lastStateChangedAt agent)
                       (Agent.lastHeartbeatAt agent) (Agent.createdAt agent)
                       now)
          /\ clapEvents db' = clapEvents db
          /\ (now <> 0 ->
              forall nowCheck' now' url',
                completeXVerificationChallenge nowCheck' now' challengeId url'
                  db'
                = (Throw "Challenge already completed", db'))).
Proof.
  split; [apply complete_missing|].
  split.
  { intros c t H C T. apply (complete_completed _ _ _ _ _ c H).
    rewrite C. cbn. apply negb_true_iff. now apply Z.eqb_neq. }
  split.
  { intros c H E. destruct (truthyNumber (Challenge.completedAt c)) eqn:T.
    - now apply (complete_completed _ _ _ _ _ c).
    - now apply (complete_expired _ _ _ _ _ c). }
  split; [repeat split; discriminate|].
  intros c agent H Op O A. eexists.
  split; [now apply (complete_success _ _ _ _ _ c agent)|].
  cbn [agents clapEvents xVerificationChallenges].
  assert (L : lookupChallenge challengeId
                (patchList Challenge._id challengeId
                   (set_completion (Some now) url) (xVerificationChallenges db))
              = Some (set_completion (Some now) url c)).
  { rewrite lookupChallenge_patch_same by reflexivity. now rewrite H. }
  split; [exact L|].
  split.
  { rewrite lookupAgent_patch_same by reflexivity. now rewrite A. }
  split; [reflexivity|].
  intros Hnow nowCheck' now' url'.
  apply (complete_completed _ _ _ _ _ (set_completion (Some now) url c)).
  - exact L.
  - cbn. apply negb_true_iff. now apply Z.eqb_neq.
Qed.

Lemma C8_completion_guards_witness :
  completeXVerificationChallenge 500 500 9%nat None betaAlone
  = (Throw "Challenge not found", betaAlone)
  /\ completeXVerificationChallenge 2000 2000 2%nat None betaAlone
     = (Throw "Challenge expired", betaAlone)
  /\ completeXVerificationChallenge 2000 2000 3%nat None alphaAndBeta
     = (Throw "Challenge already completed", alphaAndBeta)
  /\ exists db',
       completeXVerificationChallenge 500 501 2%nat (Some "url"%string)
         betaAlone
       = (Ok {| cc_ok := true; cc_agentId := 1%nat; cc_xHandle := "jeb" |}, db')
       /\ lookupAgent 1%nat (agents db')
          = Some (Agent.mk 1%nat "beta" (Some "jeb"%string) true false 0 20 20
                    20 501)
       /\ completeXVerificationChallenge 600 601 2%nat None db'
          = (Throw "Challenge already completed", db').
Proof.
  split.
  { exact (proj1 (C8_completion_guards 500 500 9%nat None betaAlone) eq_refl). }
  split.
  { exact (proj1 (proj2 (proj2
             (C8_completion_guards 2000 2000 2%nat None betaAlone)))
             betaChallenge eq_refl eq_refl). }
  split.
  { apply (proj1 (proj2
             (C8_completion_guards 2000 2000 3%nat None alphaAndBeta))
             alphaChallenge 300); [reflexivity | reflexivity | lia]. }
  assert (Op : openAt 500 betaChallenge)
    by (split; [reflexivity | cbn; lia]).
  destruct (proj2 (proj2 (proj2 (proj2
             (C8_completion_guards 500 501 2%nat (Some "url"%string)
                betaAlone))))
             betaChallenge beta eq_refl Op eq_refl eq_refl)
    as (db' & R & _ & A & _ & Twice).
  exists db'. split; [exact R|]. split; [exact A|].
  apply Twice. discriminate.
Defined.

(** ** Handle ownership *)

Lemma find_app {A} (p : A -> bool) (l1 l2 : list A) :
  find p (l1 ++ l2)
  = match find p l1 with Some x => Some x | None => find p l2 end.
Proof.
  induction l1 as [|x l1 IH]; simpl; [reflexivity|].
  destruct (p x); [reflexivity | exact IH].
Qed.

Lemma find_filter_none {A} (p q : A -> bool) (l : list A) :
  (forall x, p x = true -> q x = false) -> find p (filter q l) = None.
Proof.
  intro H. induction l as [|x l IH]; simpl; [reflexivity|].
  destruct (q x) eqn:Q; [|exact IH].
  simpl. destruct (p x) eqn:P; [|exact IH].
  rewrite (H x P) in Q. discriminate.
Qed.

Lemma find_filter_all {A} (p q : A -> bool) (l : list A) :
  (forall x, p x = true -> q x = true) -> find p (filter q l) = find p l.
Proof.
  intro H. induction l as [|x l IH]; simpl; [reflexivity|].
  destruct (q x) eqn:Q; simpl.
  - destruct (p x); [reflexivity | exact IH].
  - destruct (p x) eqn:P; [|exact IH].
    rewrite (H x P) in Q. discriminate.
Qed.

Lemma ownsHandle_iff (h : string) (a : Agent.t) :
  ownsHandle h a = true
  <-> Agent.xVerified a = true /\ Agent.xHandle a = Some h.
Proof.
  unfold ownsHandle, optString_eqb.
  rewrite andb_true_iff, Bool.eqb_true_iff.
  destruct (Agent.xHandle a) as [s|].
  - rewrite String.eqb_eq. split; intros [V E]; split; congruence.
  - split; intros [V E]; discriminate.
Qed.

(** Reading the index gives the first verified owner in creation order. *)
Lemma existingOwner_find (h : string) (db : DB) :
  existingOwner h db = find (ownsHandle h) (agents db).
Proof.
  unfold existingOwner, by_x_verified. fold (ownsHandle h).
  rewrite find_app, find_filter_none, find_filter_all; [reflexivity| |].
  - intros x H. apply ownsHandle_iff in H. tauto.
  - intros x H. apply ownsHandle_iff in H. destruct H as [-> _]. reflexivity.
Qed.

Lemma existingOwner_owner (h : string) (db : DB) (o : Agent.t) :
  existingOwner h db = Some o -> verifiedOwner db h o.
Proof.
  rewrite existingOwner_find. intro H. apply find_some in H.
  destruct H as [I O]. apply ownsHandle_iff in O. now split.
Qed.

Lemma existingOwner_none (h : string) (db : DB) (a : Agent.t) :
  existingOwner h db = None -> ~ verifiedOwner db h a.
Proof.
  rewrite existingOwner_find. intros H (I & V & E).
  pose proof (find_none _ _ H a I) as N.
  assert (ownsHandle h a = true) by (apply ownsHandle_iff; now split).
  congruence.
Qed.

(** With one verified owner per handle, any other agent meets the
    conflict. *)
Lemma owned_by_other (db : DB) (h : string) (a : Agent.t) (b : Id) :
  uniqueOwners db -> verifiedOwner db h a -> Agent._id a <> b ->
  ownedByOther (existingOwner h db) b = true.
Proof.
  intros U O Hne. destruct (existingOwner h db) as [o|] eqn:E.
  - cbn. apply negb_true_iff, Nat.eqb_neq.
    rewrite (U h o a (existingOwner_owner _ _ _ E) O). exact Hne.
  - now apply (existingOwner_none _ _ a) in E.
Qed.

Lemma create_run now agentId xHandle text expiresAt db agent :
  lookupAgent agentId (agents db) = Some agent ->
  createXVerificationChallenge now agentId xHandle text expiresAt db
  = if ownedByOther (existingOwner (normalizeXHandle xHandle) db) agentId
    then (Throw err_conflict, db)
    else
      (Ok {| ci_challengeId := nextId db;
             ci_challengeText := text;
             ci_xHandle := normalizeXHandle xHandle;
             ci_expiresAt := expiresAt |},
       mkDB (patchList Agent._id agentId
               (fun doc =>
                  set_updatedAt now
                    (set_xHandle (Some (normalizeXHandle xHandle)) doc))
               (agents db))
         (clapEvents db)
         (xVerificationChallenges db
          ++ [Challenge.mk (nextId db) agentId (normalizeXHandle xHandle) text
                now expiresAt None None])
         (S (nextId db))).
Proof.
  intro H.
  unfold createXVerificationChallenge, bind, getAgent, findExistingOwner,
    insertChallenge, patchAgent.
  rewrite H. destruct (ownedByOther _ _); [reflexivity|].
  cbn [agents]. now rewrite H.
Qed.

Lemma create_missing now agentId xHandle text expiresAt db :
  lookupAgent agentId (agents db) = None ->
  createXVerificationChallenge now agentId xHandle text expiresAt db
  = (Throw "Agent not found", db).
Proof.
  intro H. unfold createXVerificationChallenge, bind, getAgent. now rewrite H.
Qed.

Lemma in_patchList {A} (idOf : A -> Id) (id : Id) (f : A -> A) (l : list A)
  (x : A) :
  In x (patchList idOf id f l) ->
  exists x0, In x0 l /\ ((idOf x0 <> id /\ x = x0) \/ (idOf x0 = id /\ x = f x0)).
Proof.
  unfold patchList. intro H. apply in_map_iff in H.
  destruct H as (x0 & E & I). exists x0. split; [exact I|].
  destruct (Nat.eqb (idOf x0) id) eqn:Q.
  - right. apply Nat.eqb_eq in Q. now split.
  - left. apply Nat.eqb_neq in Q. now split.
Qed.

Lemma uniqueOwners_change (db db' : DB) :
  uniqueOwners db -> OwnersChange db (agents db') -> uniqueOwners db'.
Proof.
  intros U C. unfold uniqueOwners, verifiedOwner.
  destruct C as [| a V | id f K | id h f O K].
  - exact U.
  - intros h' x y (Ix & Vx & Hx) (Iy & Vy & Hy).
    apply in_app_or in Ix, Iy.
    destruct Ix as [Ix | [<- | []]]; [|congruence].
    destruct Iy as [Iy | [<- | []]]; [|congruence].
    apply (U h'); now split.
  - assert (back : forall h' x,
               In x (patchList Agent._id id f (agents db)) ->
               Agent.xVerified x = true -> Agent.xHandle x = Some h' ->
               exists x0, verifiedOwner db h' x0 /\ Agent._id x0 = Agent._id x).
    { intros h' x I V H. apply in_patchList in I.
      destruct I as (x0 & I0 & [[_ ->] | [_ ->]]).
      - exists x0. now repeat split.
      - destruct (K x0) as (Ki & Kv & Kh). exists x0.
        repeat split; congruence. }
    intros h' x y (Ix & Vx & Hx) (Iy & Vy & Hy).
    destruct (back h' x Ix Vx Hx) as (x0 & Ox & <-).
    destruct (back h' y Iy Vy Hy) as (y0 & Oy & <-).
    now apply (U h').
  - assert (kept : forall h' x0,
               In x0 (agents db) -> Agent._id x0 <> id ->
               Agent.xVerified x0 = true -> Agent.xHandle x0 = Some h' ->
               h' <> h).
    { intros h' x0 I N V H ->.
      assert (Ox : verifiedOwner db h x0) by now repeat split.
      rewrite (owned_by_other db h x0 id U Ox N) in O. discriminate. }
    intros h' x y (Ix & Vx & Hx) (Iy & Vy & Hy).
    apply in_patchList in Ix, Iy.
    destruct Ix as (x0 & Ix & [[Nx ->] | [Ex ->]]),
             Iy as (y0 & Iy & [[Ny ->] | [Ey ->]]).
    + apply (U h'); now repeat split.
    + destruct (K y0) as [Ki Kh].
      assert (h' = h) by congruence.
      now destruct (kept h' x0 Ix Nx Vx Hx).
    + destruct (K x0) as [Ki Kh].
      assert (h' = h) by congruence.
      now destruct (kept h' y0 Iy Ny Vy Hy).
    + destruct (K x0) as [-> _], (K y0) as [-> _]. congruence.
Qed.

Lemma step_owners (now : Z) (m : Mutation) (db : DB) :
  OwnersChange db (agents (step now m db)).
Proof.
  unfold step, runMutation, handlerOf.
  destruct m as [name xh | agentId clapping | agentId [clapping|]
                | agentId xh text expiresAt | challengeId url].
  - cbn. now apply owners_insert.
  - unfold bind at 1.
    destruct (lookupAgent agentId (agents db)) as [agent|] eqn:H.
    + rewrite (setClappingState_run _ _ _ _ _ H). unfold afterClapWrite.
      cbn. destruct (negb _); cbn; apply owners_keep; intro; now repeat split.
    + unfold setClappingState, bind, getAgent. rewrite H. cbn.
      apply owners_same.
  - unfold bind at 1.
    destruct (lookupAgent agentId (agents db)) as [agent|] eqn:H.
    + rewrite (heartbeat_run _ _ _ _ _ H). unfold afterClapWrite.
      cbn. destruct (negb _); cbn; apply owners_keep; intro; now repeat split.
    + unfold heartbeat, bind, getAgent. rewrite H. cbn. apply owners_same.
  - unfold heartbeat, bind, getAgent, patchAgent.
    destruct (lookupAgent agentId (agents db)) as [agent|] eqn:H; cbn.
    + rewrite H. cbn. apply owners_keep. intro doc. now repeat split.
    + apply owners_same.
  - unfold bind at 1.
    destruct (lookupAgent agentId (agents db)) as [agent|] eqn:H.
    + rewrite (create_run _ _ _ _ _ _ _ H).
      destruct (ownedByOther _ _) eqn:O; cbn; [apply owners_same|].
      apply (owners_bind db agentId (normalizeXHandle xh)); [exact O|].
      intro doc. now split.
    + rewrite (create_missing _ _ _ _ _ _ H). cbn. apply owners_same.
  - unfold completeXVerificationChallenge, bind, getChallenge,
      findExistingOwner, patchAgent, patchChallenge.
    destruct (lookupChallenge challengeId (xVerificationChallenges db))
      as [c|] eqn:H; cbn; [|apply owners_same].
    destruct (truthyNumber _); cbn; [apply owners_same|].
    destruct (Challenge.expiresAt c <? now); cbn; [apply owners_same|].
    destruct (ownedByOther _ _) eqn:O; cbn; [apply owners_same|].
    destruct (lookupChallenge (Challenge._id c) (xVerificationChallenges db));
      cbn; [|apply owners_same].
    destruct (lookupAgent (Challenge.agentId c) (agents db)); cbn;
      [|apply owners_same].
    apply (owners_bind db (Challenge.agentId c) (Challenge.xHandle c));
      [exact O|].
    intro doc. now split.
Qed.

(** *** Bulk deletions only remove agents *)

Lemma shrinks_ret {A} (a : A) : shrinks (ret a).
Proof. intro db. apply incl_refl. Qed.

Lemma shrinks_throw {A} (message : string) : shrinks (@throw A message).
Proof. intro db. apply incl_refl. Qed.

Lemma shrinks_bind {A B} (m : Mut A) (k : A -> Mut B) :
  shrinks m -> (forall a, shrinks (k a)) -> shrinks (bind m k).
Proof.
  intros Hm Hk db. unfold bind. specialize (Hm db).
  destruct (m db) as [[a | message] db1]; cbn in *; [|exact Hm].
  eapply incl_tran; [apply Hk | exact Hm].
Qed.

Lemma shrinks_forEach {A} (l : list A) (body : A -> Mut unit) :
  (forall x, shrinks (body x)) -> shrinks (forEach l body).
Proof.
  intro H. induction l as [|x l IH]; cbn [forEach].
  - apply shrinks_ret.
  - apply shrinks_bind; [apply H | intro; exact IH].
Qed.

Lemma shrinks_deleteAgent (id : Id) : shrinks (deleteAgent id).
Proof. intro db. cbn. apply incl_filter. Qed.

Lemma shrinks_deleteClapEvent (id : Id) : shrinks (deleteClapEvent id).
Proof. intro db. apply incl_refl. Qed.

Lemma shrinks_deleteChallenge (id : Id) : shrinks (deleteChallenge id).
Proof. intro db. apply incl_refl. Qed.

Lemma shrinks_if {A} (b : bool) (m1 m2 : Mut A) :
  shrinks m1 -> shrinks m2 -> shrinks (if b then m1 else m2).
Proof. now destruct b. Qed.

Lemma deleteAllButNAgents_shrinks (keep : Num) :
  shrinks (deleteAllButNAgents keep).
Proof.
  unfold deleteAllButNAgents.
  repeat (first
    [ apply shrinks_bind; [|intro]
    | apply shrinks_forEach; intro
    | apply shrinks_if
    | apply shrinks_ret
    | apply shrinks_deleteAgent
    | apply shrinks_deleteClapEvent
    | apply shrinks_deleteChallenge
    | (intro db; apply incl_refl) ]).
Qed.

Lemma deleteAllAgentsAndData_shrinks (confirmWipe : string) :
  shrinks (deleteAllAgentsAndData confirmWipe).
Proof.
  unfold deleteAllAgentsAndData.
  repeat (first
    [ apply shrinks_if
    | apply shrinks_throw
    | apply shrinks_bind; [|intro]
    | apply shrinks_forEach; intro
    | apply shrinks_ret
    | apply shrinks_deleteAgent
    | apply shrinks_deleteClapEvent
    | apply shrinks_deleteChallenge
    | (intro db; apply incl_refl) ]).
Qed.

Lemma deletionStep_incl (d : Deletion) (db : DB) :
  incl (agents (deletionStep d db)) (agents db).
Proof.
  destruct d as [keep | confirmWipe]; unfold deletionStep, runMutation.
  - pose proof (deleteAllButNAgents_shrinks keep db) as H.
    destruct (deleteAllButNAgents keep db) as [[r | message] db1];
      [exact H | apply incl_refl].
  - pose proof (deleteAllAgentsAndData_shrinks confirmWipe db) as H.
    destruct (deleteAllAgentsAndData confirmWipe db) as [[r | message] db1];
      [exact H | apply incl_refl].
Qed.

Lemma uniqueOwners_incl (db db' : DB) :
  uniqueOwners db -> incl (agents db') (agents db) -> uniqueOwners db'.
Proof.
  intros U I h a b (Ia & Va & Ha) (Ib & Vb & Hb).
  apply (U h); repeat split; auto.
Qed.

(** Every database built from the empty one has at most one verified owner
    per handle. *)
Lemma reachable_uniqueOwners (db : DB) : reachable db -> uniqueOwners db.
Proof.
  induction 1 as [| now m db R IH | d db R IH].
  - intros h a b (Ia & _). destruct Ia.
  - apply (uniqueOwners_change db); [exact IH | apply step_owners].
  - apply (uniqueOwners_incl db); [exact IH | apply deletionStep_incl].
Qed.

(** C9 (as amended).  In a database where every handle has at most one
    verified owner, let the handle [h] be bound to the verified agent [a]
    and let [b] be another agent.  [createXVerificationChallenge] for an
    existing [b] and an input that normalizes to [h] throws the conflict
    error.  [completeXVerificationChallenge] of a challenge of [b] for [h]
    throws as well: "Challenge already completed" or "Challenge expired"
    when the challenge is completed or expired, and the conflict error when
    it is open.  Neither call writes anything.  Every mutation and every
    bulk deletion keeps the property that a handle has at most one verified
    owner, so it holds in every database built from the empty one. *)
Theorem C9_handle_conflict :
  (forall db h a b,
      uniqueOwners db -> verifiedOwner db h a -> Agent._id a <> b ->
      (forall now raw text expiresAt agentB,
          lookupAgent b (agents db) = Some agentB ->
          normalizeXHandle raw = h ->
          createXVerificationChallenge now b raw text expiresAt db
          = (Throw err_conflict, db))
      /\ (forall nowCheck now challengeId url c,
            lookupChallenge challengeId (xVerificationChallenges db) = Some c ->
            Challenge.agentId c = b -> Challenge.xHandle c = h ->
            completeXVerificationChallenge nowCheck now challengeId url db
            = (Throw (if truthyNumber (Challenge.completedAt c)
                      then "Challenge already completed"
                      else if Challenge.expiresAt c <? nowCheck
                           then "Challenge expired"
                           else err_conflict), db)))
  /\ (forall db now m, uniqueOwners db -> uniqueOwners (step now m db))
  /\ (forall db d, uniqueOwners db -> uniqueOwners (deletionStep d db))
  /\ (forall db, reachable db -> uniqueOwners db).
Proof.
  split.
  { intros db h a b U O Hne.
    pose proof (owned_by_other db h a b U O Hne) as Other.
    split.
    - intros now raw text expiresAt agentB B N.
      rewrite (create_run _ _ _ _ _ _ _ B), N. now rewrite Other.
    - intros nowCheck now challengeId url c H Hb Hh.
      destruct (truthyNumber (Challenge.completedAt c)) eqn:T.
      + now apply (complete_completed _ _ _ _ _ c).
      + destruct (Challenge.expiresAt c <? nowCheck) eqn:E.
        * apply (complete_expired _ _ _ _ _ c); auto. now apply Z.ltb_lt.
        * apply (complete_conflict _ _ _ _ _ c); auto.
          -- split; [exact T|]. apply Z.ltb_ge in E. lia.
          -- now rewrite Hb, Hh. }
  split.
  { intros db now m U.
    apply (uniqueOwners_change db); [exact U | apply step_owners]. }
  split.
  { intros db d U.
    apply (uniqueOwners_incl db); [exact U | apply deletionStep_incl]. }
  exact reachable_uniqueOwners.
Qed.

Lemma alphaAndBeta_unique : uniqueOwners alphaAndBeta.
Proof.
  intros h x y (Ix & Vx & _) (Iy & Vy & _). cbn in Ix, Iy.
  destruct Ix as [<- | [<- | []]]; destruct Iy as [<- | [<- | []]];
    try reflexivity; discriminate.
Defined.

Lemma C9_handle_conflict_witness :
  createXVerificationChallenge 500 1%nat " @Jeb " "text" 1500 alphaAndBeta
  = (Throw err_conflict, alphaAndBeta)
  /\ completeXVerificationChallenge 500 500 2%nat None alphaAndBeta
     = (Throw err_conflict, alphaAndBeta)
  /\ uniqueOwners (step 500 (MCompleteXVerificationChallenge 2%nat None)
                     alphaAndBeta).
Proof.
  assert (O : verifiedOwner alphaAndBeta "jeb" alpha)
    by (split; [left; reflexivity | split; reflexivity]).
  assert (N : Agent._id alpha <> 1%nat) by discriminate.
  destruct C9_handle_conflict as (Conflict & Inv & _).
  destruct (Conflict alphaAndBeta "jeb"%string alpha 1%nat
              alphaAndBeta_unique O N) as (Cr & Co).
  split; [exact (Cr 500 " @Jeb "%string "text"%string 1500 beta eq_refl eq_refl)|].
  split; [exact (Co 500 500 2%nat None betaChallenge eq_refl eq_refl eq_refl)|].
  apply Inv. exact alphaAndBeta_unique.
Defined.

Lemma conflictScenario_reachable : reachable conflictScenario.
Proof. unfold conflictScenario. repeat constructor. Qed.

Lemma conflictScenario_state : conflictScenario = alphaAndBeta.
Proof. reflexivity. Qed.

(** C9 as stated fails.  In the database that the run [conflictScenario]
    builds, [alpha] is verified for [jeb]; completing the challenge of
    [beta] for [jeb] at time 2000, after its expiry at 1000, throws
    "Challenge expired", which is not the conflict error. *)
Lemma C9_counterexample :
  reachable alphaAndBeta
  /\ verifiedOwner alphaAndBeta "jeb" alpha
  /\ Agent._id alpha <> Agent._id beta
  /\ lookupChallenge 2%nat (xVerificationChallenges alphaAndBeta)
     = Some betaChallenge
  /\ Challenge.agentId betaChallenge = Agent._id beta
  /\ Challenge.xHandle betaChallenge = "jeb"%string
  /\ completeXVerificationChallenge 2000 2000 2%nat None alphaAndBeta
     = (Throw "Challenge expired", alphaAndBeta)
  /\ "Challenge expired"%string <> err_conflict.
Proof.
  split; [rewrite <- conflictScenario_state; apply conflictScenario_reachable|].
  split; [split; [left; reflexivity | split; reflexivity]|].
  repeat split; discriminate.
Qed.

(** ** History reconstruction *)

Lemma clamp_as_spec (total moved : Z) :
  0 <= total ->
  Z.max 0 (Z.min total moved)
  = if moved <? 0 then 0 else if total <? moved then total else moved.
Proof.
  intro H. destruct (Z.ltb_spec moved 0); [lia|].
  destruct (Z.ltb_spec total moved); lia.
Qed.

Lemma replay_spec_walk (total : Z) (events : list ClapEvent.t) :
  0 <= total ->
  forall running acc,
    snd (fold_left (replayStep total) events (running, acc))
    = acc ++ map (pointOf total) (spec_walk total running events).
Proof.
  intro H. induction events as [|e rest IH]; intros running acc; simpl.
  - now rewrite app_nil_r.
  - rewrite IH, <- app_assoc. simpl. f_equal.
    destruct (ClapEvent.type e);
      rewrite <- clamp_as_spec by exact H; reflexivity.
Qed.

Lemma reversePoints_spec (now total current : Z) (events : list ClapEvent.t) :
  0 <= total ->
  reversePoints now total current events
  = map (pointOf total) ((now, current) :: spec_walk total current events).
Proof.
  intro H. unfold reversePoints. now rewrite replay_spec_walk.
Qed.

Lemma spec_walk_clamped (total : Z) (events : list ClapEvent.t) :
  0 <= total ->
  forall running,
    Forall (fun tc => 0 <= snd tc <= total) (spec_walk total running events).
Proof.
  intro H. induction events as [|e rest IH]; intro running; simpl.
  - constructor.
  - constructor; [|apply IH]. simpl.
    destruct (ClapEvent.type e);
      repeat match goal with |- context [?a <? ?b] =>
        destruct (Z.ltb_spec a b) end; lia.
Qed.

Lemma reversePoints_length (now total current : Z) (events : list ClapEvent.t) :
  List.length (reversePoints now total current events)
  = S (List.length events).
Proof.
  unfold reversePoints.
  assert (G : forall st,
             List.length (snd (fold_left (replayStep total) events st))
             = (List.length (snd st) + List.length events)%nat).
  { induction events as [|e rest IH]; intro st; simpl; [lia|].
    rewrite IH. destruct st as [r acc]. simpl. rewrite length_app. simpl. lia. }
  rewrite G. simpl. reflexivity.
Qed.

Lemma stride_within_budget (n m : Z) :
  0 < m -> n <= m -> Z.max 1 (Qceiling (inject_Z n / inject_Z m)) = 1.
Proof.
  intros Hm Hn. apply Z.max_l.
  rewrite <- (Qceiling_Z 1). apply Qceiling_resp_le.
  apply Qle_shift_div_r.
  - change 0%Q with (inject_Z 0). now rewrite <- Zlt_Qlt.
  - rewrite Qmult_1_l. now rewrite <- Zle_Qle.
Qed.

Lemma filterIndexFrom_all {A} (keep : Z -> bool) (l : list A) :
  (forall j, keep j = true) -> forall i, filterIndexFrom keep i l = l.
Proof.
  intro H. induction l as [|x l IH]; intro i; simpl; [reflexivity|].
  now rewrite H, IH.
Qed.

Lemma maxPoints_pos (range : Range) : 0 < maxPoints range.
Proof. destruct range; reflexivity. Qed.

Lemma downsample_within_budget (range : Range) (points : list Point.t) :
  Z.of_nat (List.length points) <= maxPoints range ->
  downsample range points = points.
Proof.
  intro H. unfold downsample, strideOf.
  rewrite stride_within_budget by (auto using maxPoints_pos).
  apply filterIndexFrom_all. intro j. now rewrite Z.mod_1_r.
Qed.

Lemma agents_count_bounds (l : list Agent.t) :
  0 <= countIf Agent.isClapping l <= Z.of_nat (List.length l).
Proof.
  unfold countIf. pose proof (filter_length_le Agent.isClapping l). lia.
Qed.

Lemma historyPoints_spec (now : Z) (range : Range) (db : DB) :
  historyPoints now range db
  = map (pointOf (Z.of_nat (List.length (agents db))))
      (spec_series now (Z.of_nat (List.length (agents db)))
         (countIf Agent.isClapping (agents db))
         (filteredEvents now range db)).
Proof.
  unfold historyPoints, spec_series.
  rewrite reversePoints_spec by lia. now rewrite map_rev.
Qed.

(** C6 (as amended).  [getClapRateHistory] builds this series: the anchor
    [(now, current clapping count)], then, walking the fetched in-window
    events (those with [createdAt >= now - lookback] among the 5000 newest)
    from the newest back, one point per event whose count is the running
    count lowered by one for a [started] and raised by one for a [stopped]
    event and clamped to [0, totalAgents]; the series is put in
    chronological order and each point carries its share of [totalAgents].
    What is returned is that series after stride sampling, which is the
    whole series when it has at most [maxPoints] points.  With ten agents,
    five clapping, and one [started] event one hour ago as the only
    in-window event, the result is the points [(now - 1h, 4)] and
    [(now, 5)], so the count shown for any instant before the event is 4. *)
Theorem C6_history_reconstruction (now : Z) (range : Range) (db : DB) :
  let total := Z.of_nat (List.length (agents db)) in
  let current := countIf Agent.isClapping (agents db) in
  let events := filteredEvents now range db in
  let series := historyPoints now range db in
  let returned := h_points (getClapRateHistory now range db) in
  map tsAndCount series = spec_series now total current events
  /\ Forall (fun p => Point.pct p = shareOf (Point.clappingNow p) total) series
  /\ Forall (fun tc => 0 <= snd tc <= total)
       (spec_series now total current events)
  /\ returned = downsample range series
  /\ (Z.of_nat (S (List.length events)) <= maxPoints range ->
      returned = series)
  /\ (total = 10 -> current = 5 ->
      forall e,
        events = [e] ->
        ClapEvent.type e = started ->
        ClapEvent.createdAt e = now - 60 * 60 * 1000 ->
        map tsAndCount returned = [(now - 60 * 60 * 1000, 4); (now, 5)]
        /\ forall t, t < now - 60 * 60 * 1000 -> countAt returned t = Some 4).
Proof.
  intros total current events series returned.
  assert (Sp : series = map (pointOf total) (spec_series now total current events))
    by apply historyPoints_spec.
  assert (L : List.length series = S (List.length events)).
  { unfold series, historyPoints. now rewrite length_rev, reversePoints_length. }
  assert (Fit : Z.of_nat (S (List.length events)) <= maxPoints range ->
                returned = series).
  { intro H. unfold returned, getClapRateHistory. cbn [h_points].
    apply downsample_within_budget. fold series. now rewrite L. }
  split.
  { rewrite Sp, map_map.
    transitivity (map (fun tc => tc) (spec_series now total current events));
      [|apply map_id].
    apply map_ext. now intros []. }
  split.
  { rewrite Sp. apply Forall_forall. intros p I. apply in_map_iff in I.
    now destruct I as (tc & <- & _). }
  split.
  { unfold spec_series. apply Forall_rev. constructor.
    - cbn. apply agents_count_bounds.
    - apply spec_walk_clamped. lia. }
  split; [reflexivity|].
  split; [exact Fit|].
  intros Ht Hc e He Hty Hts.
  assert (R : returned = series).
  { apply Fit. rewrite He. destruct range; cbn; lia. }
  rewrite R, Sp, He, Ht, Hc. cbn. rewrite Hty, Hts. cbn.
  split; [reflexivity|].
  intros t Hlt. destruct (Z.leb_spec t (now - 3600000)); [reflexivity | lia].
Qed.

Lemma C6_history_reconstruction_witness :
  let returned := h_points (getClapRateHistory 10000000 hour oneStartAnHourAgo) in
  map tsAndCount returned = [(6400000, 4); (10000000, 5)]
  /\ countAt returned (6400000 - 1000) = Some 4.
Proof.
  intro returned.
  destruct (C6_history_reconstruction 10000000 hour oneStartAnHourAgo)
    as (_ & _ & _ & _ & _ & Ex).
  destruct (Ex eq_refl eq_refl
              (ClapEvent.mk 101%nat 0%nat "agent" started 6400000)
              eq_refl eq_refl eq_refl) as [P C].
  split; [exact P|]. apply C. reflexivity.
Defined.

(** C6 as stated fails: with 120 events in the last hour the series has 121
    points, and [getClapRateHistory] returns 61 of them. *)
Lemma C6_counterexample :
  let now := 120 in
  let total := Z.of_nat (List.length (agents busyHour)) in
  let current := countIf Agent.isClapping (agents busyHour) in
  let inWindowEvents :=
    filter (inWindow (now - windows hour))
      (by_created_at_desc (clapEvents busyHour)) in
  let returned := h_points (getClapRateHistory now hour busyHour) in
  List.length inWindowEvents = 120%nat
  /\ List.length (spec_series now total current inWindowEvents) = 121%nat
  /\ List.length returned = 61%nat
  /\ map tsAndCount returned <> spec_series now total current inWindowEvents.
Proof.
  intros now total current inWindowEvents returned.
  split; [vm_compute; reflexivity|].
  split; [vm_compute; reflexivity|].
  split; [vm_compute; reflexivity|].
  intro H. apply (f_equal (@List.length _)) in H.
  vm_compute in H. discriminate.
Qed.

(** ** The cap on replayed events *)

Lemma insertDesc_count (p : ClapEvent.t -> bool) (e : ClapEvent.t)
  (l : list ClapEvent.t) :
  List.length (filter p (insertDesc e l)) = List.length (filter p (e :: l)).
Proof.
  induction l as [|y l IH]; simpl; [reflexivity|].
  destruct (ClapEvent.createdAt y <=? ClapEvent.createdAt e); simpl;
    [reflexivity|].
  simpl in IH. destruct (p y), (p e); simpl in *; lia.
Qed.

Lemma by_created_at_desc_count (p : ClapEvent.t -> bool)
  (l : list ClapEvent.t) :
  List.length (filter p (by_created_at_desc l)) = List.length (filter p l).
Proof.
  unfold by_created_at_desc.
  assert (G : forall acc,
             List.length (filter p (fold_left (fun a e => insertDesc e a) l acc))
             = (List.length (filter p acc) + List.length (filter p l))%nat).
  { induction l as [|e l IH]; intro acc; simpl; [lia|].
    rewrite IH, insertDesc_count. simpl. destruct (p e); simpl; lia. }
  now rewrite G.
Qed.

Lemma insertDesc_In (e x : ClapEvent.t) (l : list ClapEvent.t) :
  In x (insertDesc e l) -> x = e \/ In x l.
Proof.
  induction l as [|y l IH]; simpl.
  - intros [<- | []]. now left.
  - destruct (ClapEvent.createdAt y <=? ClapEvent.createdAt e); simpl.
    + intros [<- | H]; [now left | now right].
    + intros [<- | H]; [right; now left|].
      destruct (IH H); [now left | right; now right].
Qed.

Lemma insertDesc_sorted (e : ClapEvent.t) (l : list ClapEvent.t) :
  newestFirst l -> newestFirst (insertDesc e l).
Proof.
  unfold newestFirst. induction 1 as [|y l Hs IH Hy]; simpl.
  - constructor; constructor.
  - destruct (Z.leb_spec (ClapEvent.createdAt y) (ClapEvent.createdAt e)).
    + constructor; [now constructor|].
      constructor; [assumption|].
      rewrite Forall_forall in Hy |- *. intros x I.
      specialize (Hy x I). lia.
    + constructor; [exact IH|].
      apply Forall_forall. intros x I. apply insertDesc_In in I.
      destruct I as [-> | I]; [lia|].
      rewrite Forall_forall in Hy. now apply Hy.
Qed.

Lemma by_created_at_desc_sorted (l : list ClapEvent.t) :
  newestFirst (by_created_at_desc l).
Proof.
  unfold by_created_at_desc.
  assert (G : forall acc,
             newestFirst acc ->
             newestFirst (fold_left (fun a e => insertDesc e a) l acc)).
  { induction l as [|e l IH]; intros acc H; simpl; [exact H|].
    apply IH. now apply insertDesc_sorted. }
  apply G. constructor.
Qed.

(** In a list read newest first, the events of a window form a prefix: the
    first [n] of the list hold them all as soon as there are at most [n]. *)
Lemma window_within_prefix (fromTs : Z) (l : list ClapEvent.t) :
  newestFirst l ->
  forall n,
    (List.length (filter (inWindow fromTs) l) <= n)%nat ->
    filter (inWindow fromTs) (firstn n l) = filter (inWindow fromTs) l.
Proof.
  unfold newestFirst. induction 1 as [|y l Hs IH Hy]; intros n Hn.
  - now rewrite firstn_nil.
  - simpl in Hn. destruct (inWindow fromTs y) eqn:W.
    + destruct n as [|n]; [simpl in Hn; lia|].
      simpl. rewrite W. f_equal. apply IH. simpl in Hn. lia.
    + assert (N : forall (k : list ClapEvent.t),
                 incl k l -> filter (inWindow fromTs) k = []).
      { intros k Hk. induction k as [|x k IHk]; [reflexivity|].
        simpl. assert (I : In x l) by (apply Hk; now left).
        rewrite Forall_forall in Hy. specialize (Hy x I).
        unfold inWindow in W |- *. apply Z.leb_gt in W.
        assert ((fromTs <=? ClapEvent.createdAt x) = false) as ->
            by (apply Z.leb_gt; lia).
        apply IHk. intros z Hz. apply Hk. now right. }
      destruct n as [|n]; simpl.
      * rewrite W. symmetry. apply N, incl_refl.
      * rewrite W. rewrite (N l (incl_refl l)).
        apply N. intros z Hz.
        rewrite <- (firstn_skipn n l). apply in_or_app. now left.
Qed.

Lemma fetched_window_length (now : Z) (range : Range) (db : DB) :
  (List.length (filteredEvents now range db) <= takeLimit)%nat.
Proof.
  unfold filteredEvents, fetchedEvents.
  etransitivity; [apply filter_length_le | apply firstn_le_length].
Qed.

(** C10.  [getClapRateHistory] replays the in-window events among the 5000
    newest events of the log, so at most 5000 of them; two databases with
    the same agents and the same 5000 newest events get the same answer,
    whatever older events they hold and whatever the window; and the series
    reconstructed is the one that replays every in-window event of the log
    exactly when the window holds at most 5000 events. *)
Theorem C10_replay_cap (now : Z) (range : Range) (db : DB) :
  let fromTs := now - windows range in
  let newest := by_created_at_desc (clapEvents db) in
  filteredEvents now range db = filter (inWindow fromTs) (firstn 5000 newest)
  /\ (List.length (filteredEvents now range db) <= 5000)%nat
  /\ (forall db',
        agents db' = agents db ->
        firstn 5000 (by_created_at_desc (clapEvents db')) = firstn 5000 newest ->
        getClapRateHistory now range db' = getClapRateHistory now range db)
  /\ (historyPoints now range db = exactPoints now range db
      <-> (List.length (filter (inWindow fromTs) (clapEvents db)) <= 5000)%nat).
Proof.
  intros fromTs newest.
  split; [reflexivity|].
  split; [apply fetched_window_length|].
  split.
  { intros db' Ha Hf.
    unfold getClapRateHistory, historyPoints, filteredEvents, fetchedEvents,
      takeLimit.
    now rewrite Ha, Hf. }
  rewrite <- (by_created_at_desc_count (inWindow fromTs) (clapEvents db)).
  fold newest. unfold historyPoints, exactPoints. split.
  - intro H. apply (f_equal (@List.length _)) in H.
    rewrite !length_rev, !reversePoints_length in H.
    injection H as H. fold fromTs newest in H. rewrite <- H.
    apply fetched_window_length.
  - intro H. do 2 f_equal.
    unfold filteredEvents, fetchedEvents, takeLimit.
    apply window_within_prefix; [apply by_created_at_desc_sorted | exact H].
Qed.

(** A log written with a clock that never goes back is read newest first
    by reversing it. *)
Lemma chronological_desc (l : list ClapEvent.t) :
  chronological l -> by_created_at_desc l = rev l.
Proof.
  unfold by_created_at_desc, chronological.
  assert (G : forall acc,
             StronglySorted
               (fun x y => ClapEvent.createdAt x <= ClapEvent.createdAt y) l ->
             (forall e a, In e l -> In a acc ->
                          ClapEvent.createdAt a <= ClapEvent.createdAt e) ->
             fold_left (fun a e => insertDesc e a) l acc = rev l ++ acc).
  { induction l as [|e l IH]; intros acc Hs Ha; [reflexivity|].
    apply StronglySorted_inv in Hs. destruct Hs as [Hs He].
    assert (I : insertDesc e acc = e :: acc).
    { destruct acc as [|y acc]; [reflexivity|]. simpl.
      assert ((ClapEvent.createdAt y <=? ClapEvent.createdAt e) = true) as ->;
        [|reflexivity].
      apply Z.leb_le, Ha; now left. }
    simpl. rewrite I, IH, <- app_assoc; [reflexivity | exact Hs |].
    intros e' a Ie' [<- | Ia].
    - rewrite Forall_forall in He. now apply He.
    - apply Ha; [now right | exact Ia]. }
  intro H. rewrite G; [apply app_nil_r | exact H | intros e a _ []].
Qed.

Lemma chronological_suffix (older recent : list ClapEvent.t) :
  chronological (older ++ recent) -> chronological recent.
Proof.
  unfold chronological. induction older as [|e older IH]; simpl; [easy|].
  intro H. apply StronglySorted_inv in H. now apply IH.
Qed.

(** In a log kept in the order of its timestamps, everything written before
    the last 5000 events is ignored, whatever the window. *)
Lemma older_events_ignored (now : Z) (range : Range) (db db' : DB)
  (older recent : list ClapEvent.t) :
  agents db' = agents db ->
  clapEvents db = older ++ recent ->
  clapEvents db' = recent ->
  chronological (older ++ recent) ->
  List.length recent = takeLimit ->
  getClapRateHistory now range db = getClapRateHistory now range db'.
Proof.
  intros Ha Hd Hd' Hc Hl.
  unfold getClapRateHistory, historyPoints, filteredEvents, fetchedEvents.
  rewrite Ha, Hd, Hd'.
  rewrite (chronological_desc _ Hc).
  rewrite (chronological_desc _ (chronological_suffix _ _ Hc)).
  rewrite rev_app_distr, firstn_app, length_rev, Hl, Nat.sub_diag.
  cbn [firstn]. now rewrite app_nil_r.
Qed.

Lemma C10_replay_cap_witness :
  getClapRateHistory 10000000 hour oneStartAnHourAgo'
  = getClapRateHistory 10000000 hour oneStartAnHourAgo
  /\ historyPoints 10000000 hour oneStartAnHourAgo
     = exactPoints 10000000 hour oneStartAnHourAgo.
Proof.
  destruct (C10_replay_cap 10000000 hour oneStartAnHourAgo)
    as (_ & _ & Same & Exact).
  split.
  - apply Same; reflexivity.
  - apply Exact. cbn. lia.
Defined.

(** * Further properties of the handlers *)

(** ** The shape of a step *)

Lemma heartbeat_plain_run (now : Z) (agentId : Id) (agent : Agent.t) (db : DB) :
  lookupAgent agentId (agents db) = Some agent ->
  heartbeat now agentId None db
  = (Ok {| ok := true; changed := false |},
     mkDB (patchList Agent._id agentId (heartbeatPatch now) (agents db))
       (clapEvents db) (xVerificationChallenges db) (nextId db)).
Proof.
  intro H. unfold heartbeat, bind, getAgent, patchAgent. rewrite H.
  cbn beta iota. now rewrite H.
Qed.

Lemma setClappingState_missing (now : Z) (agentId : Id) (clapping : bool)
  (db : DB) :
  lookupAgent agentId (agents db) = None ->
  setClappingState now agentId clapping db = (Throw "Agent not found", db).
Proof.
  intro H. unfold setClappingState, bind, getAgent. now rewrite H.
Qed.

Lemma heartbeat_missing (now : Z) (agentId : Id) (clapping : option bool)
  (db : DB) :
  lookupAgent agentId (agents db) = None ->
  heartbeat now agentId clapping db = (Throw "Agent not found", db).
Proof.
  intro H. unfold heartbeat, bind, getAgent. now rewrite H.
Qed.

Lemma step_shape (now : Z) (m : Mutation) (db : DB) :
  StepShape now db m (step now m db).
Proof.
  unfold step, runMutation, handlerOf.
  destruct m as [name xh | agentId clapping | agentId [clapping|]
                | agentId xh text expiresAt | challengeId url];
    unfold bind at 1.
  - cbn. apply shape_register.
  - destruct (lookupAgent agentId (agents db)) as [agent|] eqn:H.
    + rewrite (setClappingState_run _ _ _ _ _ H). cbn.
      apply shape_clap; [now left | exact H].
    + rewrite (setClappingState_missing _ _ _ _ H). apply shape_same.
  - destruct (lookupAgent agentId (agents db)) as [agent|] eqn:H.
    + rewrite (heartbeat_run _ _ _ _ _ H). cbn.
      apply shape_clap; [now right | exact H].
    + rewrite (heartbeat_missing _ _ _ _ H). apply shape_same.
  - destruct (lookupAgent agentId (agents db)) as [agent|] eqn:H.
    + rewrite (heartbeat_plain_run _ _ _ _ H). cbn.
      now apply (shape_heartbeat now db agentId agent).
    + rewrite (heartbeat_missing _ _ _ _ H). apply shape_same.
  - destruct (lookupAgent agentId (agents db)) as [agent|] eqn:H.
    + rewrite (create_run _ _ _ _ _ _ _ H).
      destruct (ownedByOther _ _) eqn:O; cbn; [apply shape_same|].
      now apply (shape_issue now db agentId agent).
    + rewrite (create_missing _ _ _ _ _ _ H). apply shape_same.
  - destruct (lookupChallenge challengeId (xVerificationChallenges db))
      as [c|] eqn:H; [|rewrite (complete_missing _ _ _ _ _ H); apply shape_same].
    destruct (truthyNumber (Challenge.completedAt c)) eqn:T;
      [rewrite (complete_completed _ _ _ _ _ c H T); apply shape_same|].
    destruct (Z.ltb_spec (Challenge.expiresAt c) now) as [E | E];
      [rewrite (complete_expired _ _ _ _ _ c H T E); apply shape_same|].
    assert (Op : openAt now c) by (split; [exact T | lia]).
    destruct (ownedByOther (existingOwner (Challenge.xHandle c) db)
                (Challenge.agentId c)) eqn:O;
      [rewrite (complete_conflict _ _ _ _ _ c H Op O); apply shape_same|].
    destruct (lookupAgent (Challenge.agentId c) (agents db)) as [agent|] eqn:A.
    + rewrite (complete_success _ _ _ _ _ c agent H Op O A). cbn.
      now apply (shape_complete now db challengeId c agent).
    + unfold completeXVerificationChallenge, bind, getChallenge,
        findExistingOwner, patchChallenge, patchAgent.
      rewrite H, T.
      assert ((Challenge.expiresAt c <? now) = false) as ->
          by (apply Z.ltb_ge; lia).
      rewrite O, (lookupChallenge_id _ _ _ H), H. cbn [agents].
      rewrite A. cbn. apply shape_same.
Qed.

(** ** Bulk deletions, computed *)

Arguments withoutIds : simpl never.

Lemma filter_filter {A} (f g : A -> bool) (l : list A) :
  filter f (filter g l) = filter (fun x => g x && f x) l.
Proof.
  induction l as [|x l IH]; simpl; [reflexivity|].
  destruct (g x); simpl; [destruct (f x); now rewrite IH | exact IH].
Qed.

Lemma filter_everything {A} (p : A -> bool) (l : list A) :
  (forall x, In x l -> p x = true) -> filter p l = l.
Proof.
  induction l as [|x l IH]; intro H; simpl; [reflexivity|].
  rewrite (H x) by now left. f_equal. apply IH. intros y I. apply H. now right.
Qed.

Lemma withoutIds_nil {A} (idOf : A -> Id) (l : list A) :
  withoutIds idOf [] l = l.
Proof. apply filter_everything. reflexivity. Qed.

Lemma withoutIds_cons {A} (idOf : A -> Id) (id : Id) (doomed : list Id)
  (l : list A) :
  withoutIds idOf doomed (filter (fun y => negb (Nat.eqb (idOf y) id)) l)
  = withoutIds idOf (id :: doomed) l.
Proof.
  unfold withoutIds. rewrite filter_filter. apply filter_ext.
  intro y. cbn. now rewrite negb_orb.
Qed.

Lemma forEach_deleteAgent (p : Agent.t -> bool) (l : list Agent.t) (db : DB) :
  forEach l (fun a => if p a then deleteAgent (Agent._id a) else ret tt) db
  = (Ok tt,
     mkDB (withoutIds Agent._id (map Agent._id (filter p l)) (agents db))
       (clapEvents db) (xVerificationChallenges db) (nextId db)).
Proof.
  revert db. induction l as [|a l IH]; intro db.
  - cbn. rewrite withoutIds_nil. now destruct db.
  - cbn [forEach filter]. unfold bind. destruct (p a); cbn.
    + rewrite IH. cbn. now rewrite withoutIds_cons.
    + rewrite IH. now destruct db.
Qed.

Lemma forEach_deleteClapEvent (p : ClapEvent.t -> bool) (l : list ClapEvent.t)
  (db : DB) :
  forEach l (fun e => if p e then deleteClapEvent (ClapEvent._id e) else ret tt)
    db
  = (Ok tt,
     mkDB (agents db)
       (withoutIds ClapEvent._id (map ClapEvent._id (filter p l))
          (clapEvents db))
       (xVerificationChallenges db) (nextId db)).
Proof.
  revert db. induction l as [|a l IH]; intro db.
  - cbn. rewrite withoutIds_nil. now destruct db.
  - cbn [forEach filter]. unfold bind. destruct (p a); cbn.
    + rewrite IH. cbn. now rewrite withoutIds_cons.
    + rewrite IH. now destruct db.
Qed.

Lemma forEach_deleteChallenge (p : Challenge.t -> bool) (l : list Challenge.t)
  (db : DB) :
  forEach l (fun c => if p c then deleteChallenge (Challenge._id c) else ret tt)
    db
  = (Ok tt,
     mkDB (agents db) (clapEvents db)
       (withoutIds Challenge._id (map Challenge._id (filter p l))
          (xVerificationChallenges db))
       (nextId db)).
Proof.
  revert db. induction l as [|a l IH]; intro db.
  - cbn. rewrite withoutIds_nil. now destruct db.
  - cbn [forEach filter]. unfold bind. destruct (p a); cbn.
    + rewrite IH. cbn. now rewrite withoutIds_cons.
    + rewrite IH. now destruct db.
Qed.

(** [deleteAllButNAgents], with its three loops run. *)
Lemma deleteAllButNAgents_run (keep : Num) (db : DB) :
  let sorted := newestAgentsFirst (agents db) in
  let keepIds := keepIdsOf keep db in
  deleteAllButNAgents keep db
  = (Ok {| k_ok := true;
           kept :=
             Math.min (Math.max (ofInteger 0) (Math.floor keep))
               (ofInteger (Z.of_nat (List.length sorted)));
           deleted :=
             countIf (fun a => negb (hasId keepIds (Agent._id a))) sorted |},
     mkDB
       (withoutIds Agent._id
          (map Agent._id
             (filter (fun a => negb (hasId keepIds (Agent._id a))) sorted))
          (agents db))
       (withoutIds ClapEvent._id
          (map ClapEvent._id
             (filter (fun e => negb (hasId keepIds (ClapEvent.agentId e)))
                (clapEvents db)))
          (clapEvents db))
       (withoutIds Challenge._id
          (map Challenge._id
             (filter (fun c => negb (hasId keepIds (Challenge.agentId c)))
                (xVerificationChallenges db)))
          (xVerificationChallenges db))
       (nextId db)).
Proof.
  intros sorted keepIds.
  unfold deleteAllButNAgents, bind, collectAgents, collectClapEvents,
    collectChallenges.
  fold (newestAgentsFirst (agents db)). fold sorted.
  change (map Agent._id
            (slice (ofInteger 0) (Math.max (ofInteger 0) (Math.floor keep))
               sorted)) with keepIds.
  rewrite forEach_deleteClapEvent. cbn [xVerificationChallenges].
  rewrite forEach_deleteChallenge. rewrite forEach_deleteAgent.
  reflexivity.
Qed.

Lemma hasId_true (ids : list Id) (id : Id) : hasId ids id = true <-> In id ids.
Proof.
  unfold hasId. rewrite existsb_exists. split.
  - intros (x & I & E). apply Nat.eqb_eq in E. now subst.
  - intro I. exists id. split; [exact I | apply Nat.eqb_refl].
Qed.

Lemma withoutIds_all {A} (idOf : A -> Id) (l : list A) :
  withoutIds idOf (map idOf l) l = [].
Proof.
  unfold withoutIds.
  assert (G : forall k, incl k l ->
                filter (fun y => negb (hasId (map idOf l) (idOf y))) k = []).
  { induction k as [|y k IH]; intro H; simpl; [reflexivity|].
    assert (hasId (map idOf l) (idOf y) = true) as ->.
    { apply hasId_true, in_map, H. now left. }
    apply IH. intros z Hz. apply H. now right. }
  apply G, incl_refl.
Qed.

(** Deleting by a test on the id, read from any list that holds the table. *)
Lemma withoutIds_by_id {A} (idOf : A -> Id) (q : Id -> bool) (l' l : list A) :
  incl l l' ->
  withoutIds idOf (map idOf (filter (fun x => negb (q (idOf x))) l')) l
  = filter (fun y => q (idOf y)) l.
Proof.
  intro H. unfold withoutIds. apply filter_ext_in. intros y I.
  destruct (q (idOf y)) eqn:Q.
  - apply negb_true_iff. destruct (hasId _ _) eqn:E; [|reflexivity].
    apply hasId_true, in_map_iff in E. destruct E as (x & Ex & Ix).
    apply filter_In in Ix. destruct Ix as [_ Nx]. rewrite Ex, Q in Nx.
    discriminate.
  - apply negb_false_iff, hasId_true, in_map, filter_In.
    split; [now apply H | now rewrite Q].
Qed.

Lemma same_id_same_doc {A} (idOf : A -> Id) (l : list A) (x y : A) :
  NoDup (map idOf l) -> In x l -> In y l -> idOf x = idOf y -> x = y.
Proof.
  induction l as [|z l IH]; intros N Ix Iy E; [destruct Ix|].
  cbn in N. apply NoDup_cons_iff in N. destruct N as [Nz N].
  destruct Ix as [-> | Ix], Iy as [-> | Iy]; auto.
  - exfalso. apply Nz. rewrite E. now apply in_map.
  - exfalso. apply Nz. rewrite <- E. now apply in_map.
Qed.

(** Deleting by any test, in a table with distinct ids. *)
Lemma withoutIds_by_test {A} (idOf : A -> Id) (p : A -> bool) (l : list A) :
  NoDup (map idOf l) ->
  withoutIds idOf (map idOf (filter p l)) l = filter (fun y => negb (p y)) l.
Proof.
  intro N. unfold withoutIds. apply filter_ext_in. intros y I. f_equal.
  destruct (p y) eqn:P.
  - apply hasId_true, in_map, filter_In. now split.
  - destruct (hasId _ _) eqn:E; [|reflexivity].
    apply hasId_true, in_map_iff in E. destruct E as (x & Ex & Ix).
    apply filter_In in Ix. destruct Ix as [Ix Px].
    rewrite (same_id_same_doc idOf l x y N Ix I Ex) in Px. congruence.
Qed.

Lemma insertBy_perm {A} (cmp : A -> A -> Q) (x : A) (l : list A) :
  Permutation (insertBy cmp x l) (x :: l).
Proof.
  induction l as [|y l IH]; simpl; [reflexivity|].
  destruct (Qle_bool (cmp x y) 0); [reflexivity|].
  rewrite IH. apply perm_swap.
Qed.

Lemma sortBy_perm {A} (cmp : A -> A -> Q) (l : list A) :
  Permutation (sortBy cmp l) l.
Proof.
  induction l as [|x l IH]; simpl; [reflexivity|].
  rewrite insertBy_perm. now constructor.
Qed.

(** [deleteAllAgentsAndData], with its three loops run. *)
Lemma deleteAllAgentsAndData_run (confirmWipe : string) (db : DB) :
  deleteAllAgentsAndData confirmWipe db
  = if String.eqb confirmWipe "YES_DELETE_EVERYTHING"
    then (Ok {| w_ok := true;
                w_agents := Z.of_nat (List.length (agents db));
                w_events := Z.of_nat (List.length (clapEvents db));
                w_challenges :=
                  Z.of_nat (List.length (xVerificationChallenges db)) |},
          mkDB [] [] [] (nextId db))
    else (Throw "Must pass confirmWipe: 'YES_DELETE_EVERYTHING' to proceed",
          db).
Proof.
  unfold deleteAllAgentsAndData.
  destruct (String.eqb confirmWipe "YES_DELETE_EVERYTHING"); [|reflexivity].
  cbn [negb]. unfold bind, collectAgents, collectClapEvents, collectChallenges.
  change (fun event : ClapEvent.t => deleteClapEvent (ClapEvent._id event))
    with (fun e : ClapEvent.t =>
            if true then deleteClapEvent (ClapEvent._id e) else ret tt).
  rewrite forEach_deleteClapEvent. cbn [xVerificationChallenges].
  change (fun challenge : Challenge.t =>
            deleteChallenge (Challenge._id challenge))
    with (fun c : Challenge.t =>
            if true then deleteChallenge (Challenge._id c) else ret tt).
  rewrite forEach_deleteChallenge. cbn [agents].
  change (fun agent : Agent.t => deleteAgent (Agent._id agent))
    with (fun a : Agent.t =>
            if true then deleteAgent (Agent._id a) else ret tt).
  rewrite forEach_deleteAgent.
  cbn [agents clapEvents xVerificationChallenges nextId ret].
  rewrite !(filter_everything (fun _ => true)) by reflexivity.
  now rewrite !withoutIds_all.
Qed.

(** ** Well-formed databases *)

Lemma map_patchList_id {A} (idOf : A -> Id) (id : Id) (f : A -> A)
  (l : list A) :
  (forall x, idOf (f x) = idOf x) ->
  map idOf (patchList idOf id f l) = map idOf l.
Proof.
  intro H. unfold patchList. rewrite map_map. apply map_ext.
  intro x. now destruct (Nat.eqb (idOf x) id).
Qed.

Lemma freshTable_ids {A} (idOf : A -> Id) (l l' : list A) (n : Id) :
  map idOf l' = map idOf l -> freshTable idOf l n -> freshTable idOf l' n.
Proof.
  unfold freshTable. intros E [N F]. rewrite E. split; [exact N|].
  rewrite Forall_forall in F |- *. intros x I.
  assert (Ix : In (idOf x) (map idOf l)) by (rewrite <- E; now apply in_map).
  apply in_map_iff in Ix. destruct Ix as (y & <- & Iy). now apply F.
Qed.

Lemma freshTable_next {A} (idOf : A -> Id) (l : list A) (n : Id) :
  freshTable idOf l n -> freshTable idOf l (S n).
Proof.
  intros [N F]. split; [exact N|].
  eapply Forall_impl; [|exact F]. cbn. lia.
Qed.

Lemma freshTable_insert {A} (idOf : A -> Id) (l : list A) (x : A) :
  freshTable idOf l (idOf x) -> freshTable idOf (l ++ [x]) (S (idOf x)).
Proof.
  intros [N F]. split.
  - rewrite map_app. cbn. apply NoDup_app; [exact N | repeat constructor; easy|].
    intros i I [<- | []]. apply in_map_iff in I. destruct I as (y & E & I).
    rewrite Forall_forall in F. specialize (F y I). lia.
  - apply Forall_app. split.
    + eapply Forall_impl; [|exact F]. cbn. lia.
    + repeat constructor.
Qed.

Lemma freshTable_filter {A} (idOf : A -> Id) (p : A -> bool) (l : list A)
  (n : Id) :
  freshTable idOf l n -> freshTable idOf (filter p l) n.
Proof.
  intros [N F]. split.
  - clear F. induction l as [|x l IH]; cbn in *; [constructor|].
    apply NoDup_cons_iff in N. destruct N as [Nx N].
    destruct (p x); cbn; [|now apply IH].
    constructor; [|now apply IH].
    intro I. apply Nx. apply in_map_iff in I. destruct I as (y & E & I).
    apply filter_In in I. rewrite <- E. apply in_map, I.
  - apply Forall_forall. intros x I. apply filter_In in I.
    rewrite Forall_forall in F. now apply F.
Qed.

Lemma wfDB_step (now : Z) (m : Mutation) (db : DB) :
  wfDB db -> wfDB (step now m db).
Proof.
  intros (Wa & We & Wc).
  destruct (step_shape now m db)
    as [m | name xh | m agentId agent clapping Hm L | agentId agent L
        | agentId agent raw text e L O | challengeId c agent url L Op O A].
  - exact (conj Wa (conj We Wc)).
  - split; [|split]; cbn [agents clapEvents xVerificationChallenges nextId].
    + apply (freshTable_insert Agent._id (agents db)
               (newAgent now name xh (nextId db))), Wa.
    + now apply freshTable_next.
    + now apply freshTable_next.
  - unfold afterClapWrite.
    destruct (negb _); split; [| split | | split];
      cbn [agents clapEvents xVerificationChallenges nextId].
    + apply freshTable_next.
      apply (freshTable_ids Agent._id (agents db)); [|exact Wa].
      apply map_patchList_id. reflexivity.
    + apply (freshTable_insert ClapEvent._id (clapEvents db)
               (ClapEvent.mk (nextId db) agentId (Agent.name agent)
                  (if clapping then started else stopped) now)), We.
    + now apply freshTable_next.
    + apply (freshTable_ids Agent._id (agents db)); [|exact Wa].
      apply map_patchList_id. reflexivity.
    + exact We.
    + exact Wc.
  - split; [|split]; cbn [agents clapEvents xVerificationChallenges nextId];
      [|assumption|assumption].
    apply (freshTable_ids Agent._id (agents db)); [|exact Wa].
    apply map_patchList_id. reflexivity.
  - split; [|split]; cbn [agents clapEvents xVerificationChallenges nextId].
    + apply freshTable_next.
      apply (freshTable_ids Agent._id (agents db)); [|exact Wa].
      apply map_patchList_id. reflexivity.
    + now apply freshTable_next.
    + apply (freshTable_insert Challenge._id (xVerificationChallenges db)
               (newChallenge now agentId (normalizeXHandle raw) text e
                  (nextId db))), Wc.
  - split; [|split]; cbn [agents clapEvents xVerificationChallenges nextId].
    + apply (freshTable_ids Agent._id (agents db)); [|exact Wa].
      apply map_patchList_id. reflexivity.
    + exact We.
    + apply (freshTable_ids Challenge._id (xVerificationChallenges db));
        [|exact Wc].
      apply map_patchList_id. reflexivity.
Qed.

Lemma wfDB_deletion (d : Deletion) (db : DB) :
  wfDB db -> wfDB (deletionStep d db).
Proof.
  intros (Wa & We & Wc). destruct d as [keep | confirmWipe];
    unfold deletionStep, runMutation.
  - rewrite deleteAllButNAgents_run. cbn [snd]. unfold withoutIds.
    split; [|split]; cbn [agents clapEvents xVerificationChallenges nextId];
      now apply freshTable_filter.
  - rewrite deleteAllAgentsAndData_run.
    destruct (String.eqb confirmWipe "YES_DELETE_EVERYTHING"); cbn [snd];
      [|exact (conj Wa (conj We Wc))].
    repeat split; constructor.
Qed.

Lemma reachable_wfDB (db : DB) : reachable db -> wfDB db.
Proof.
  induction 1 as [| now m db R IH | d db R IH].
  - repeat split; constructor.
  - now apply wfDB_step.
  - now apply wfDB_deletion.
Qed.

Lemma lookupAgent_fresh (db : DB) (x : Agent.t) :
  wfDB db -> Agent._id x = nextId db ->
  lookupAgent (nextId db) (agents db ++ [x]) = Some x.
Proof.
  intros ((_ & F) & _) E. unfold lookupAgent. rewrite find_app.
  destruct (find _ (agents db)) as [y|] eqn:Y.
  - apply find_some in Y. destruct Y as [I Q]. apply Nat.eqb_eq in Q.
    rewrite Forall_forall in F. specialize (F y I). lia.
  - cbn. now rewrite E, Nat.eqb_refl.
Qed.

(** ** Registration, lookups and heartbeats *)

Ltac concrete_wfDB :=
  unfold wfDB, freshTable; cbn;
  repeat split;
  repeat (constructor; cbn);
  try (intro; intuition (try discriminate; try lia));
  try lia.

Lemma betaAlone_wf : wfDB betaAlone.
Proof. concrete_wfDB. Defined.

Lemma alphaAndBeta_wf : wfDB alphaAndBeta.
Proof. concrete_wfDB. Defined.

Lemma pct_of_zero (agent : Agent.t) (t : Z) :
  Agent.cumulativeClapMs agent = 0 -> Agent.isClapping agent = false ->
  computeAgentPct agent t = 0%Q.
Proof.
  intros C F. rewrite computeAgentPct_unfold. unfold spec_pct, spec_liveMs.
  rewrite C, F. cbn [Z.add]. unfold spec_clamp.
  assert (Qle_bool (inject_Z 0 / inject_Z (spec_elapsed t (Agent.createdAt agent))
                    * 100) 0 = true) as ->; [|reflexivity].
  apply Qle_bool_iff. unfold Qdiv. rewrite Qmult_0_l, Qmult_0_l. apply Qle_refl.
Qed.

Lemma lookupAgent_app_other (id : Id) (l : list Agent.t) (x : Agent.t) :
  Agent._id x <> id -> lookupAgent id (l ++ [x]) = lookupAgent id l.
Proof.
  intro H. unfold lookupAgent. rewrite find_app.
  destruct (find _ l); [reflexivity|]. cbn.
  now apply Nat.eqb_neq in H as ->.
Qed.

(** A newly registered agent is unverified, idle and without clap time; it
    is found under the id that [registerAgent] returns, with a percentage of
    0 at every observation time; an empty handle is stored as no handle;
    every other agent, event and challenge is as before. *)
Theorem register_then_lookup (now : Z) (name : string)
  (xHandle : option string) (db : DB) :
  wfDB db ->
  exists db',
    registerAgent now name xHandle db = (Ok (nextId db), db')
    /\ (forall t,
          getAgentById t (nextId db) db'
          = Some (AgentView.mk (nextId db) (trim name)
                    (match xHandle with
                     | Some EmptyString | None => None
                     | Some h => Some (normalizeXHandle h)
                     end)
                    false false 0 now now))
    /\ (forall t id, id <> nextId db ->
          getAgentById t id db' = getAgentById t id db)
    /\ clapEvents db' = clapEvents db
    /\ xVerificationChallenges db' = xVerificationChallenges db
    /\ wfDB db'.
Proof.
  intro W.
  exists (mkDB (agents db ++ [newAgent now name xHandle (nextId db)])
            (clapEvents db) (xVerificationChallenges db) (S (nextId db))).
  split; [reflexivity|].
  cbn [agents clapEvents xVerificationChallenges].
  split.
  { intro t. unfold getAgentById. cbn [agents].
    rewrite (lookupAgent_fresh db _ W) by reflexivity.
    rewrite pct_of_zero by reflexivity.
    destruct xHandle as [[|c h]|]; reflexivity. }
  split.
  { intros t id Hne. unfold getAgentById. cbn [agents].
    rewrite lookupAgent_app_other; [reflexivity | cbn; congruence]. }
  split; [reflexivity|]. split; [reflexivity|].
  apply (wfDB_step now (MRegisterAgent name xHandle) db W).
Qed.

Lemma register_then_lookup_witness :
  exists db',
    registerAgent 500 "  gamma " (Some " @Gamma_1 "%string) betaAlone
    = (Ok 4%nat, db')
    /\ getAgentById 900 4%nat db'
       = Some (AgentView.mk 4%nat "gamma" (Some "gamma_1"%string) false false 0
                 500 500).
Proof.
  destruct (register_then_lookup 500 "  gamma " (Some " @Gamma_1 "%string)
              betaAlone betaAlone_wf) as (db' & R & L & _).
  exists db'. split; [exact R | exact (L 900)].
Defined.

(** A clap-state call, a heartbeat and the start of a verification for an id
    that has no agent throw "Agent not found" and write nothing; the lookup
    of that id returns nothing. *)
Theorem missing_agent_rejected (now : Z) (agentId : Id) (db : DB) :
  lookupAgent agentId (agents db) = None ->
  (forall clapping,
      setClappingState now agentId clapping db = (Throw "Agent not found", db))
  /\ (forall clapping,
        heartbeat now agentId clapping db = (Throw "Agent not found", db))
  /\ (forall xHandle challengeText expiresAt,
        createXVerificationChallenge now agentId xHandle challengeText
          expiresAt db
        = (Throw "Agent not found", db))
  /\ (forall t, getAgentById t agentId db = None)
  /\ (forall m,
        m = MSetClappingState agentId true \/ m = MHeartbeat agentId None ->
        step now m db = db).
Proof.
  intro H.
  split; [intro; now apply setClappingState_missing|].
  split; [intro; now apply heartbeat_missing|].
  split; [intros; now apply create_missing|].
  split; [intro t; unfold getAgentById; now rewrite H|].
  intros m [-> | ->]; unfold step, runMutation, handlerOf, bind.
  - now rewrite setClappingState_missing.
  - now rewrite heartbeat_missing.
Qed.

Lemma missing_agent_rejected_witness :
  setClappingState 500 7%nat true betaAlone = (Throw "Agent not found", betaAlone)
  /\ heartbeat 500 7%nat None betaAlone = (Throw "Agent not found", betaAlone).
Proof.
  destruct (missing_agent_rejected 500 7%nat betaAlone eq_refl)
    as (S1 & H1 & _).
  split; [apply S1 | apply H1].
Defined.

(** A heartbeat without a boolean stamps [lastHeartbeatAt] and [updatedAt]
    of the agent and nothing else: no event is appended, and the percentage
    of every agent, seen at any time, is what it was. *)
Theorem plain_heartbeat_keeps_percentages (now : Z) (agentId : Id)
  (agent : Agent.t) (db : DB) :
  lookupAgent agentId (agents db) = Some agent ->
  exists db',
    heartbeat now agentId None db = (Ok {| ok := true; changed := false |}, db')
    /\ lookupAgent agentId (agents db')
       = Some (Agent.mk (Agent._id agent) (Agent.name agent)
                 (Agent.xHandle agent) (Agent.xVerified agent)
                 (Agent.isClapping agent) (Agent.cumulativeClapMs agent)
                 (Agent.lastStateChangedAt agent) now
                 (Agent.createdAt agent) now)
    /\ clapEvents db' = clapEvents db
    /\ xVerificationChallenges db' = xVerificationChallenges db
    /\ (forall t id,
          option_map AgentView.clapPct (getAgentById t id db')
          = option_map AgentView.clapPct (getAgentById t id db)).
Proof.
  intro H. eexists. split; [exact (heartbeat_plain_run now agentId agent db H)|].
  cbn [agents clapEvents xVerificationChallenges].
  split.
  { rewrite lookupAgent_patch_same by reflexivity. rewrite H.
    now destruct agent. }
  split; [reflexivity|]. split; [reflexivity|].
  intros t id. unfold getAgentById. cbn [agents].
  destruct (Nat.eq_dec id agentId) as [-> | Hne].
  - rewrite lookupAgent_patch_same by reflexivity. rewrite H. reflexivity.
  - rewrite lookupAgent_patch_other by (auto; reflexivity). reflexivity.
Qed.

Lemma plain_heartbeat_keeps_percentages_witness :
  exists db',
    heartbeat 700 1%nat None betaAlone
    = (Ok {| ok := true; changed := false |}, db')
    /\ lookupAgent 1%nat (agents db')
       = Some (Agent.mk 1%nat "beta" (Some "jeb"%string) false false 0 20 700
                 20 700).
Proof.
  destruct (plain_heartbeat_keeps_percentages 700 1%nat beta betaAlone eq_refl)
    as (db' & R & L & _).
  exists db'. split; assumption.
Defined.

(** A clap-state write at [now] moves clap time between the live interval
    and the accumulator without changing their sum: the clap time and the
    percentage of the agent seen at [now] are the same before and after. *)
Theorem clap_write_keeps_clap_time (now : Z) (agentId : Id) (clapping : bool)
  (agent : Agent.t) (db : DB) :
  lookupAgent agentId (agents db) = Some agent ->
  exists agent',
    lookupAgent agentId (agents (snd (setClappingState now agentId clapping db)))
    = Some agent'
    /\ lookupAgent agentId
         (agents (snd (heartbeat now agentId (Some clapping) db)))
       = Some agent'
    /\ Agent.cumulativeClapMs agent' + liveClapMs agent' now
       = Agent.cumulativeClapMs agent + liveClapMs agent now
    /\ Agent.createdAt agent' = Agent.createdAt agent
    /\ computeAgentPct agent' now = computeAgentPct agent now.
Proof.
  intro H. exists (clapPatch now agent clapping agent).
  assert (L : lookupAgent agentId
                (agents (snd (setClappingState now agentId clapping db)))
              = Some (clapPatch now agent clapping agent)).
  { rewrite (setClappingState_run _ _ _ _ _ H). cbn [snd].
    unfold afterClapWrite. destruct (negb _); cbn [agents];
      now apply lookup_after_write. }
  split; [exact L|].
  split; [rewrite heartbeat_as_setClappingState; exact L|].
  assert (E : Agent.cumulativeClapMs (clapPatch now agent clapping agent)
              + liveClapMs (clapPatch now agent clapping agent) now
              = Agent.cumulativeClapMs agent + liveClapMs agent now).
  { unfold liveClapMs, clapPatch. cbn.
    destruct (Agent.isClapping agent), clapping; cbn; lia. }
  split; [exact E|]. split; [reflexivity|].
  unfold computeAgentPct, elapsedMs. cbn zeta. now rewrite E.
Qed.

Lemma clap_write_keeps_clap_time_witness :
  exists agent',
    lookupAgent 2%nat
      (agents (snd (setClappingState 1000 2%nat false
                      (mkDB [clappingSince900] [] [] 3%nat))))
    = Some agent'
    /\ Agent.cumulativeClapMs agent' + liveClapMs agent' 1000 = 100.
Proof.
  destruct (clap_write_keeps_clap_time 1000 2%nat false clappingSince900
              (mkDB [clappingSince900] [] [] 3%nat) eq_refl)
    as (agent' & L & _ & E & _).
  exists agent'. split; [exact L | exact E].
Defined.

(** ** The percentage under a clock that never goes back *)

Lemma ratio_bounds (k n : Z) :
  0 <= k <= n -> 0 < n ->
  (0 <= inject_Z k / inject_Z n * 100 /\ inject_Z k / inject_Z n * 100 <= 100)%Q.
Proof.
  intros [Hk Hn] Hp.
  assert (P : (0 < inject_Z n)%Q)
    by (change 0%Q with (inject_Z 0); now rewrite <- Zlt_Qlt).
  assert (L : (0 <= inject_Z k / inject_Z n)%Q).
  { apply Qle_shift_div_l; [exact P|]. rewrite Qmult_0_l.
    change 0%Q with (inject_Z 0). now rewrite <- Zle_Qle. }
  assert (U : (inject_Z k / inject_Z n <= 1)%Q).
  { apply Qle_shift_div_r; [exact P|]. rewrite Qmult_1_l.
    now rewrite <- Zle_Qle. }
  set (x := (inject_Z k / inject_Z n)%Q) in *. split; lra.
Qed.

Lemma clampPct_inside (x : Q) : (0 <= x)%Q -> (x <= 100)%Q -> (clampPct x == x)%Q.
Proof.
  intros L U. rewrite clampPct_spec_clamp. unfold spec_clamp.
  destruct (Qle_bool x 0) eqn:E0.
  - apply Qle_bool_iff in E0. lra.
  - destruct (Qle_bool 100 x) eqn:E1; [|reflexivity].
    apply Qle_bool_iff in E1. lra.
Qed.

Lemma lookupAgent_found (id : Id) (l : list Agent.t) (a : Agent.t) :
  lookupAgent id l = Some a -> In a l /\ Agent._id a = id.
Proof.
  unfold lookupAgent. intro H. apply find_some in H.
  destruct H as [I E]. now apply Nat.eqb_eq in E.
Qed.

Lemma soundTimes_later (t now : Z) (a : Agent.t) :
  t <= now -> soundTimes t a -> soundTimes now a.
Proof. unfold soundTimes. intros H (A & B & C & D). repeat split; lia. Qed.

Lemma soundTimes_patch (now : Z) (id : Id) (f : Agent.t -> Agent.t)
  (l : list Agent.t) :
  (forall doc,
      Agent.createdAt (f doc) = Agent.createdAt doc
      /\ Agent.lastStateChangedAt (f doc) = Agent.lastStateChangedAt doc
      /\ Agent.cumulativeClapMs (f doc) = Agent.cumulativeClapMs doc) ->
  Forall (soundTimes now) l ->
  Forall (soundTimes now) (patchList Agent._id id f l).
Proof.
  intros K F. apply Forall_forall. intros x I. apply in_patchList in I.
  rewrite Forall_forall in F.
  destruct I as (x0 & I0 & [[_ ->] | [_ ->]]); [now apply F|].
  specialize (F x0 I0). destruct (K x0) as (Kc & Kl & Km).
  unfold soundTimes in *. now rewrite Kc, Kl, Km.
Qed.

Lemma soundTimes_clapPatch (t now : Z) (agent : Agent.t) (clapping : bool) :
  t <= now -> soundTimes t agent ->
  soundTimes now (clapPatch now agent clapping agent).
Proof.
  unfold soundTimes, clapPatch. intros H (A & B & C & D). cbn.
  destruct (Agent.isClapping agent), clapping; cbn; repeat split; lia.
Qed.

Lemma builtBy_sound (t : Z) (db : DB) :
  builtBy t db -> wfDB db /\ Forall (soundTimes t) (agents db).
Proof.
  induction 1 as [t | t now m db B [W F] Hle | t d db B [W F]].
  - split; [repeat split; constructor | constructor].
  - split; [now apply wfDB_step|].
    assert (F' : Forall (soundTimes now) (agents db)).
    { eapply Forall_impl; [|exact F]. intro a. now apply soundTimes_later. }
    destruct (step_shape now m db)
      as [m | name xh | m agentId agent clapping Hm L | agentId agent L
          | agentId agent raw text e L O | challengeId c agent url L Op O A].
    + exact F'.
    + cbn [agents]. apply Forall_app. split; [exact F'|].
      repeat constructor; cbn; lia.
    + assert (E : agents (afterClapWrite now agentId agent clapping db)
                  = patchList Agent._id agentId (clapPatch now agent clapping)
                      (agents db))
        by (unfold afterClapWrite; now destruct (negb _)).
      rewrite E. apply Forall_forall. intros x I. apply in_patchList in I.
      rewrite Forall_forall in F, F'.
      destruct I as (x0 & I0 & [[_ ->] | [Ex ->]]); [now apply F'|].
      destruct (lookupAgent_found _ _ _ L) as [Ia Ea].
      assert (x0 = agent) as ->.
      { apply (same_id_same_doc Agent._id (agents db)); try assumption.
        - apply W.
        - congruence. }
      apply (soundTimes_clapPatch t); [exact Hle | now apply F].
    + cbn [agents]. apply soundTimes_patch; [|exact F']. intro. now repeat split.
    + cbn [agents]. apply soundTimes_patch; [|exact F']. intro. now repeat split.
    + cbn [agents]. apply soundTimes_patch; [|exact F']. intro. now repeat split.
  - split; [now apply wfDB_deletion|].
    apply Forall_forall. intros x I. rewrite Forall_forall in F.
    apply F. now apply (deletionStep_incl d db).
Qed.

(** When every call reads a clock value not below the one before, the
    accumulated clap time of an agent never exceeds its age, and seen at any
    time from the last reading on, its clap time lies between 0 and the
    elapsed time: the percentage is the plain quotient, the clamp changes
    nothing. *)
Theorem percentage_is_exact_quotient (t obs : Z) (db : DB) (agentId : Id)
  (agent : Agent.t) :
  builtBy t db -> lookupAgent agentId (agents db) = Some agent -> t <= obs ->
  soundTimes t agent
  /\ 0 <= Agent.cumulativeClapMs agent + liveClapMs agent obs
  /\ Agent.cumulativeClapMs agent + liveClapMs agent obs
     <= elapsedMs agent obs
  /\ (computeAgentPct agent obs
      == inject_Z (Agent.cumulativeClapMs agent + liveClapMs agent obs)
         / inject_Z (elapsedMs agent obs) * 100)%Q.
Proof.
  intros B L Hle. destruct (builtBy_sound t db B) as [_ F].
  rewrite Forall_forall in F.
  pose proof (F agent (proj1 (lookupAgent_found _ _ _ L))) as S.
  split; [exact S|].
  destruct S as (A & Bt & C & D).
  assert (N : 0 <= Agent.cumulativeClapMs agent + liveClapMs agent obs
              <= elapsedMs agent obs).
  { unfold liveClapMs, elapsedMs. destruct (Agent.isClapping agent); lia. }
  split; [apply N|]. split; [apply N|].
  unfold computeAgentPct. cbn zeta.
  assert (P : 0 < elapsedMs agent obs) by (unfold elapsedMs; lia).
  destruct (ratio_bounds _ _ N P). now apply clampPct_inside.
Qed.

Lemma percentage_is_exact_quotient_witness :
  lookupAgent 0%nat (agents clapRun)
  = Some (Agent.mk 0%nat "alpha" None false false 200 300 300 10 300)
  /\ (computeAgentPct (Agent.mk 0%nat "alpha" None false false 200 300 300 10 300)
        410
      == 50)%Q.
Proof.
  assert (B : builtBy 300 clapRun).
  { unfold clapRun.
    apply (built_step 100); [|lia]. apply (built_step 10); [|lia].
    apply (built_step 0); [|lia]. apply built_empty. }
  split; [reflexivity|].
  destruct (percentage_is_exact_quotient 300 410 clapRun 0%nat
              (Agent.mk 0%nat "alpha" None false false 200 300 300 10 300) B
              eq_refl) as (_ & _ & _ & E); [lia|].
  rewrite E. reflexivity.
Defined.

(** ** The five single-document mutations: verification and events *)

(** A call of [registerAgent], [setClappingState], [heartbeat],
    [createXVerificationChallenge] or [completeXVerificationChallenge] (the
    five handlers of [Mutation]; the two bulk deletions are not among them)
    removes no agent and takes no verified flag away, and an agent that
    becomes verified by such a call does so through the completion, at that
    moment, of an open challenge of its own, whose handle it then carries. *)
Theorem verification_is_permanent (now : Z) (m : Mutation) (db : DB)
  (agentId : Id) (agent : Agent.t) :
  lookupAgent agentId (agents db) = Some agent ->
  exists agent',
    lookupAgent agentId (agents (step now m db)) = Some agent'
    /\ (Agent.xVerified agent = true -> Agent.xVerified agent' = true)
    /\ (Agent.xVerified agent = false -> Agent.xVerified agent' = true ->
        exists challengeId url c,
          m = MCompleteXVerificationChallenge challengeId url
          /\ lookupChallenge challengeId (xVerificationChallenges db) = Some c
          /\ Challenge.agentId c = agentId
          /\ openAt now c
          /\ Agent.xHandle agent' = Some (Challenge.xHandle c)).
Proof.
  intro H.
  assert (Keep : forall id f,
             (forall doc, Agent._id (f doc) = Agent._id doc
                          /\ Agent.xVerified (f doc) = Agent.xVerified doc) ->
             exists agent',
               lookupAgent agentId (patchList Agent._id id f (agents db))
               = Some agent'
               /\ Agent.xVerified agent' = Agent.xVerified agent).
  { intros id f K. destruct (Nat.eq_dec agentId id) as [-> | Hne].
    - exists (f agent). rewrite lookupAgent_patch_same by (intro; apply K).
      rewrite H. split; [reflexivity | apply K].
    - exists agent. rewrite lookupAgent_patch_other; auto. intro; apply K. }
  destruct (step_shape now m db)
    as [m | name xh | m id target clapping Hm L | id target L
        | id target raw text e L O | challengeId c target url L Op O A].
  - exists agent. split; [exact H|]. split; [auto | congruence].
  - exists agent. cbn [agents].
    split; [now apply lookupAgent_app|]. split; [auto | congruence].
  - destruct (Keep id (clapPatch now target clapping)) as (agent' & L' & V);
      [intro; now split|].
    exists agent'. split.
    + unfold afterClapWrite. now destruct (negb _).
    + split; congruence.
  - destruct (Keep id (heartbeatPatch now)) as (agent' & L' & V);
      [intro; now split|].
    exists agent'. cbn [agents]. split; [exact L'|]. split; congruence.
  - destruct (Keep id (handlePatch now (normalizeXHandle raw)))
      as (agent' & L' & V); [intro; now split|].
    exists agent'. cbn [agents]. split; [exact L'|]. split; congruence.
  - cbn [agents]. destruct (Nat.eq_dec agentId (Challenge.agentId c))
      as [E | Hne].
    + exists (verifiedPatch now (Challenge.xHandle c) agent).
      rewrite E, lookupAgent_patch_same by reflexivity.
      rewrite <- E, H. split; [reflexivity|]. split; [reflexivity|].
      intros _ _. exists challengeId, url, c.
      split; [reflexivity|]. split; [exact L|]. split; [now symmetry|].
      split; [exact Op | reflexivity].
    + exists agent. rewrite lookupAgent_patch_other by (auto; reflexivity).
      split; [exact H|]. split; [auto | congruence].
Qed.

Lemma verification_is_permanent_witness :
  exists agent',
    lookupAgent 0%nat
      (agents (step 900 (MCreateXVerificationChallenge 0%nat "bob" "text" 2000)
                 alphaAndBeta))
    = Some agent'
    /\ Agent.xVerified agent' = true.
Proof.
  destruct (verification_is_permanent 900
              (MCreateXVerificationChallenge 0%nat "bob" "text" 2000)
              alphaAndBeta 0%nat alpha eq_refl) as (agent' & L & V & _).
  exists agent'. split; [exact L | now apply V].
Defined.

(** A call of [registerAgent], [setClappingState], [heartbeat],
    [createXVerificationChallenge] or [completeXVerificationChallenge] (the
    five handlers of [Mutation]; the two bulk deletions, which delete
    events, are not among them) never changes or removes an event: it
    leaves the log as it was or appends one event, and only a
    [setClappingState] or a [heartbeat] with a boolean that flips the flag
    appends one; that event carries the clock value, the id and name of the
    agent, and [started] exactly when the agent was not clapping before. *)
Theorem events_are_only_appended (now : Z) (m : Mutation) (db : DB) :
  clapEvents (step now m db) = clapEvents db
  \/ exists agentId agent clapping,
       (m = MSetClappingState agentId clapping
        \/ m = MHeartbeat agentId (Some clapping))
       /\ lookupAgent agentId (agents db) = Some agent
       /\ Agent.isClapping agent <> clapping
       /\ clapEvents (step now m db)
          = clapEvents db
            ++ [ClapEvent.mk (nextId db) agentId (Agent.name agent)
                  (if Agent.isClapping agent then stopped else started) now].
Proof.
  destruct (step_shape now m db)
    as [m | name xh | m id target clapping Hm L | id target L
        | id target raw text e L O | challengeId c target url L Op O A];
    try (left; reflexivity).
  unfold afterClapWrite.
  destruct (Agent.isClapping target) eqn:C, clapping; cbn;
    try (left; reflexivity); right; exists id, target.
  - exists false. rewrite C. repeat split; auto; try discriminate.
  - exists true. rewrite C. repeat split; auto; try discriminate.
Qed.

(** ** Referential integrity *)

Lemma deleteAllButNAgents_tables (keep : Num) (db : DB) :
  wfDB db ->
  snd (deleteAllButNAgents keep db)
  = mkDB
      (filter (fun a => hasId (keepIdsOf keep db) (Agent._id a)) (agents db))
      (filter (fun e => hasId (keepIdsOf keep db) (ClapEvent.agentId e))
         (clapEvents db))
      (filter (fun c => hasId (keepIdsOf keep db) (Challenge.agentId c))
         (xVerificationChallenges db))
      (nextId db).
Proof.
  intros (Wa & We & Wc). rewrite deleteAllButNAgents_run. cbn [snd]. f_equal.
  - apply (withoutIds_by_id Agent._id (hasId (keepIdsOf keep db))).
    intros x I. unfold newestAgentsFirst.
    apply (Permutation_in x (Permutation_sym (sortBy_perm _ (agents db)))), I.
  - rewrite withoutIds_by_test by apply We.
    apply filter_ext. intro e. apply negb_involutive.
  - rewrite withoutIds_by_test by apply Wc.
    apply filter_ext. intro c. apply negb_involutive.
Qed.

Lemma lookupAgent_filter (id : Id) (p : Agent.t -> bool) (l : list Agent.t)
  (a : Agent.t) :
  lookupAgent id l = Some a -> p a = true ->
  lookupAgent id (filter p l) = Some a.
Proof.
  unfold lookupAgent. induction l as [|x l IH]; cbn; [discriminate|].
  destruct (Nat.eqb (Agent._id x) id) eqn:E.
  - intros [= ->] P. rewrite P. cbn. now rewrite E.
  - intros H P. destruct (p x); cbn; [rewrite E|]; now apply IH.
Qed.

Lemma lookupAgent_patch_none (id id' : Id) (f : Agent.t -> Agent.t)
  (l : list Agent.t) :
  (forall x, Agent._id (f x) = Agent._id x) ->
  lookupAgent id' l <> None ->
  lookupAgent id' (patchList Agent._id id f l) <> None.
Proof.
  intros K H. destruct (Nat.eq_dec id' id) as [-> | Hne].
  - rewrite lookupAgent_patch_same by exact K.
    destruct (lookupAgent id l); [discriminate | contradiction].
  - now rewrite lookupAgent_patch_other.
Qed.

Lemma noOrphans_patch (db : DB) (id : Id) (f : Agent.t -> Agent.t)
  (evs : list ClapEvent.t) (chs : list Challenge.t) (n : Id) :
  (forall x, Agent._id (f x) = Agent._id x) ->
  Forall (fun e => lookupAgent (ClapEvent.agentId e) (agents db) <> None) evs ->
  Forall (fun c => lookupAgent (Challenge.agentId c) (agents db) <> None) chs ->
  noOrphans (mkDB (patchList Agent._id id f (agents db)) evs chs n).
Proof.
  intros K Fe Fc. split; cbn [agents clapEvents xVerificationChallenges].
  - eapply Forall_impl; [|exact Fe]. intros e H.
    now apply lookupAgent_patch_none.
  - eapply Forall_impl; [|exact Fc]. intros c H.
    now apply lookupAgent_patch_none.
Qed.

Lemma noOrphans_step (now : Z) (m : Mutation) (db : DB) :
  noOrphans db -> noOrphans (step now m db).
Proof.
  intros [Fe Fc].
  destruct (step_shape now m db)
    as [m | name xh | m id target clapping Hm L | id target L
        | id target raw text e L O | challengeId c target url L Op O A].
  - now split.
  - split; cbn [agents clapEvents xVerificationChallenges].
    + eapply Forall_impl; [|exact Fe]. intros e H. cbn beta in *.
      destruct (lookupAgent (ClapEvent.agentId e) (agents db)) as [a|] eqn:E;
        [|contradiction].
      now rewrite (lookupAgent_app _ _ _ _ E).
    + eapply Forall_impl; [|exact Fc]. intros c H. cbn beta in *.
      destruct (lookupAgent (Challenge.agentId c) (agents db)) as [a|] eqn:E;
        [|contradiction].
      now rewrite (lookupAgent_app _ _ _ _ E).
  - unfold afterClapWrite. destruct (negb _);
      apply noOrphans_patch; try assumption; try (intro; reflexivity).
    apply Forall_app. split; [exact Fe|].
    repeat constructor. cbn. now rewrite L.
  - apply noOrphans_patch; try assumption. intro; reflexivity.
  - apply noOrphans_patch; try assumption; [intro; reflexivity|].
    apply Forall_app. split; [exact Fc|].
    repeat constructor. cbn. now rewrite L.
  - apply noOrphans_patch; try assumption; [intro; reflexivity|].
    apply Forall_forall. intros x I. apply in_patchList in I.
    rewrite Forall_forall in Fc.
    destruct I as (x0 & I0 & [[_ ->] | [_ ->]]); [now apply Fc|].
    specialize (Fc x0 I0). now destruct x0.
Qed.

Lemma noOrphans_deletion (d : Deletion) (db : DB) :
  wfDB db -> noOrphans db -> noOrphans (deletionStep d db).
Proof.
  intros W [Fe Fc]. destruct d as [keep | confirmWipe];
    unfold deletionStep, runMutation.
  - pose proof (deleteAllButNAgents_tables keep db W) as T.
    destruct (deleteAllButNAgents keep db) as [[r | message] db1];
      [|now split].
    cbn [snd] in *. subst db1.
    split; cbn [agents clapEvents xVerificationChallenges];
      apply Forall_forall; intros x I; apply filter_In in I;
      destruct I as [I K].
    + rewrite Forall_forall in Fe. specialize (Fe x I).
      destruct (lookupAgent (ClapEvent.agentId x) (agents db)) as [a|] eqn:E;
        [|contradiction].
      rewrite (lookupAgent_filter _ _ _ a E); [discriminate|].
      now rewrite (proj2 (lookupAgent_found _ _ _ E)).
    + rewrite Forall_forall in Fc. specialize (Fc x I).
      destruct (lookupAgent (Challenge.agentId x) (agents db)) as [a|] eqn:E;
        [|contradiction].
      rewrite (lookupAgent_filter _ _ _ a E); [discriminate|].
      now rewrite (proj2 (lookupAgent_found _ _ _ E)).
  - rewrite deleteAllAgentsAndData_run.
    destruct (String.eqb confirmWipe "YES_DELETE_EVERYTHING"); cbn [snd];
      [|now split].
    split; constructor.
Qed.

Lemma reachable_noOrphans (db : DB) : reachable db -> noOrphans db.
Proof.
  induction 1 as [| now m db R IH | d db R IH].
  - split; constructor.
  - now apply noOrphans_step.
  - apply noOrphans_deletion; [now apply reachable_wfDB | exact IH].
Qed.

(** In every database built from the empty one, each event and each
    challenge belongs to an agent that is still in the table (the bulk
    deletions take the events and challenges of a deleted agent with it);
    so the completion of an open challenge whose handle no other verified
    agent owns always goes through. *)
Theorem challenges_keep_their_agent (db : DB) :
  reachable db ->
  noOrphans db
  /\ (forall nowCheck now challengeId url c,
        lookupChallenge challengeId (xVerificationChallenges db) = Some c ->
        openAt nowCheck c ->
        ownedByOther (existingOwner (Challenge.xHandle c) db)
          (Challenge.agentId c) = false ->
        exists db',
          completeXVerificationChallenge nowCheck now challengeId url db
          = (Ok {| cc_ok := true;
                   cc_agentId := Challenge.agentId c;
                   cc_xHandle := Challenge.xHandle c |}, db')).
Proof.
  intro R. pose proof (reachable_noOrphans db R) as N.
  split; [exact N|].
  intros nowCheck now challengeId url c L Op O.
  destruct N as [_ Fc]. rewrite Forall_forall in Fc.
  assert (I : In c (xVerificationChallenges db))
    by (unfold lookupChallenge in L; now apply find_some in L).
  specialize (Fc c I).
  destruct (lookupAgent (Challenge.agentId c) (agents db)) as [a|] eqn:A;
    [|contradiction].
  eexists. exact (complete_success _ _ _ _ _ c a L Op O A).
Qed.

Lemma challenges_keep_their_agent_witness :
  noOrphans alphaAndBeta.
Proof.
  apply challenges_keep_their_agent.
  rewrite <- conflictScenario_state. apply conflictScenario_reachable.
Defined.

(** ** The numbers of [getCurrentStats] *)

Lemma length_split {A} (p : A -> bool) (l : list A) :
  (List.length (filter p l) + List.length (filter (fun x => negb (p x)) l)
   = List.length l)%nat.
Proof.
  induction l as [|x l IH]; simpl; [reflexivity|].
  destruct (p x); simpl; lia.
Qed.

Lemma countIf_bounds {A} (p : A -> bool) (l : list A) :
  0 <= countIf p l <= Z.of_nat (List.length l).
Proof.
  unfold countIf. pose proof (filter_length_le p l). lia.
Qed.

Lemma countIf_split {A} (p q : A -> bool) (l : list A) :
  countIf p l
  = countIf p (filter q l) + countIf p (filter (fun x => negb (q x)) l).
Proof.
  unfold countIf. induction l as [|x l IH]; [reflexivity|].
  cbn [filter]. destruct (q x); cbn [filter negb]; destruct (p x);
    cbn [List.length]; lia.
Qed.

Lemma countIf_map {A B} (f : A -> B) (p : B -> bool) (l : list A) :
  countIf p (map f l) = countIf (fun x => p (f x)) l.
Proof.
  unfold countIf. induction l as [|x l IH]; [reflexivity|].
  cbn [map filter]. destruct (p (f x)); cbn [List.length]; lia.
Qed.

Lemma shareOf_bounds (k n : Z) :
  0 <= k <= n -> (0 <= shareOf k n /\ shareOf k n <= 100)%Q.
Proof.
  intro H. unfold shareOf. destruct (n =? 0) eqn:E.
  - split; [apply Qle_refl | discriminate].
  - apply Z.eqb_neq in E. apply ratio_bounds; lia.
Qed.

(** The counts of [getCurrentStats] split into the verified and the
    unverified cohort, a cohort never has more clapping agents than members,
    and each of the three current percentages lies in [0, 100]; the current
    percentage is 0 when no agent claps (so for an empty table) and 100 when
    every agent of a table that has one claps. *)
Theorem current_stats_consistent (now : Z) (db : DB) :
  let s := getCurrentStats now db in
  totalAgents s = totalAgentsVerified s + totalAgentsUnverified s
  /\ clappingNow s = clappingNowVerified s + clappingNowUnverified s
  /\ 0 <= clappingNowVerified s <= totalAgentsVerified s
  /\ 0 <= clappingNowUnverified s <= totalAgentsUnverified s
  /\ (0 <= currentClappingPct s /\ currentClappingPct s <= 100)%Q
  /\ (0 <= currentClappingPctVerified s
      /\ currentClappingPctVerified s <= 100)%Q
  /\ (0 <= currentClappingPctUnverified s
      /\ currentClappingPctUnverified s <= 100)%Q
  /\ (clappingNow s = 0 -> (currentClappingPct s == 0)%Q)
  /\ (0 < totalAgents s -> clappingNow s = totalAgents s ->
      (currentClappingPct s == 100)%Q).
Proof.
  cbn zeta. unfold getCurrentStats. cbn [totalAgents totalAgentsVerified
    totalAgentsUnverified clappingNow clappingNowVerified
    clappingNowUnverified currentClappingPct currentClappingPctVerified
    currentClappingPctUnverified].
  set (l := withPct now (agents db)).
  assert (Ll : List.length l = List.length (agents db))
    by (unfold l, withPct; apply length_map).
  assert (Cl : countIf Agent.isClapping (agents db)
               = countIf (fun a => Agent.isClapping (wp_agent a)) l).
  { unfold l, withPct. now rewrite (countIf_map _ (fun a => Agent.isClapping (wp_agent a))). }
  pose proof (length_split (fun a => Agent.xVerified (wp_agent a)) l) as Sp.
  pose proof (countIf_bounds (fun a => Agent.isClapping (wp_agent a))
                (filter (fun a => Agent.xVerified (wp_agent a)) l)) as Bv.
  pose proof (countIf_bounds (fun a => Agent.isClapping (wp_agent a))
                (filter (fun a => negb (Agent.xVerified (wp_agent a))) l))
    as Bu.
  pose proof (countIf_bounds Agent.isClapping (agents db)) as Ba.
  repeat split; try lia; try (apply shareOf_bounds; assumption).
  - rewrite Cl.
    apply (countIf_split _ (fun a => Agent.xVerified (wp_agent a))).
  - intro Z0. rewrite Z0. unfold shareOf.
    destruct (Z.of_nat (List.length (agents db)) =? 0); [reflexivity|].
    unfold Qdiv. now rewrite !Qmult_0_l.
  - intros Pos All. rewrite All. unfold shareOf.
    destruct (Z.eqb_spec (Z.of_nat (List.length (agents db))) 0) as [E | E];
      [lia|].
    assert (N : ~ (inject_Z (Z.of_nat (List.length (agents db))) == 0)%Q).
    { change 0%Q with (inject_Z 0). rewrite inject_Z_injective. exact E. }
    field. exact N.
Qed.

(** ** Listings *)

Lemma insertBy_sorted {A} (cmp : A -> A -> Q) (R : A -> A -> Prop) :
  (forall x y, Qle_bool (cmp x y) 0 = true -> R x y) ->
  (forall x y, Qle_bool (cmp x y) 0 = false -> R y x) ->
  (forall x y z, R x y -> R y z -> R x z) ->
  forall x l, StronglySorted R l -> StronglySorted R (insertBy cmp x l).
Proof.
  intros Le Gt Tr x l Hs. induction Hs as [|y l Hs IH Hy]; simpl.
  - constructor; constructor.
  - destruct (Qle_bool (cmp x y) 0) eqn:E.
    + constructor; [now constructor|]. constructor; [now apply Le|].
      eapply Forall_impl; [|exact Hy]. intros z Hz.
      apply (Tr x y z); [now apply Le | exact Hz].
    + constructor; [exact IH|].
      apply Forall_forall. intros z I.
      apply (Permutation_in z (insertBy_perm cmp x l)) in I.
      destruct I as [<- | I]; [now apply Gt|].
      rewrite Forall_forall in Hy. now apply Hy.
Qed.

Lemma sortBy_sorted {A} (cmp : A -> A -> Q) (R : A -> A -> Prop) :
  (forall x y, Qle_bool (cmp x y) 0 = true -> R x y) ->
  (forall x y, Qle_bool (cmp x y) 0 = false -> R y x) ->
  (forall x y z, R x y -> R y z -> R x z) ->
  forall l, StronglySorted R (sortBy cmp l).
Proof.
  intros Le Gt Tr l. induction l as [|x l IH]; simpl; [constructor|].
  now apply insertBy_sorted.
Qed.

Lemma StronglySorted_skipn {A} (R : A -> A -> Prop) (n : nat) (l : list A) :
  StronglySorted R l -> StronglySorted R (skipn n l).
Proof.
  revert l. induction n as [|n IH]; intros l Hs; [exact Hs|].
  destruct Hs as [|x l Hs Hx]; simpl; [constructor | now apply IH].
Qed.

Lemma StronglySorted_firstn {A} (R : A -> A -> Prop) (n : nat) (l : list A) :
  StronglySorted R l -> StronglySorted R (firstn n l).
Proof.
  revert l. induction n as [|n IH]; intros l Hs; [constructor|].
  destruct Hs as [|x l Hs Hx]; simpl; [constructor|].
  constructor; [now apply IH|].
  apply Forall_forall. intros y I. rewrite Forall_forall in Hx.
  apply Hx. rewrite <- (firstn_skipn n l). apply in_or_app. now left.
Qed.

Lemma compareItems_le (sort : Sort) (a b : AgentItem.t) :
  Qle_bool (compareItems sort a b) 0 = true -> inOrder sort a b.
Proof.
  rewrite Qle_bool_iff. destruct sort; cbn; intro H.
  - change 0%Q with (inject_Z 0) in H. rewrite <- Zle_Qle in H. lia.
  - change 0%Q with (inject_Z 0) in H. rewrite <- Zle_Qle in H. lia.
  - lra.
  - lra.
Qed.

Lemma compareItems_gt (sort : Sort) (a b : AgentItem.t) :
  Qle_bool (compareItems sort a b) 0 = false -> inOrder sort b a.
Proof.
  intro H.
  assert (N : ~ (compareItems sort a b <= 0)%Q)
    by (rewrite <- Qle_bool_iff, H; discriminate).
  apply Qnot_le_lt in N. destruct sort; cbn in *.
  - change 0%Q with (inject_Z 0) in N. rewrite <- Zlt_Qlt in N. lia.
  - change 0%Q with (inject_Z 0) in N. rewrite <- Zlt_Qlt in N. lia.
  - lra.
  - lra.
Qed.

Lemma inOrder_trans (sort : Sort) (a b c : AgentItem.t) :
  inOrder sort a b -> inOrder sort b c -> inOrder sort a c.
Proof. destruct sort; cbn; intros; try lia; lra. Qed.

Lemma listAgents_page (now : Z) (sort : option Sort)
  (page pageSize : option Num) (verifiedOnly : option bool) (db : DB) :
  let size :=
    Math.min (ofInteger 100)
      (Math.max (ofInteger 1) (orDefault pageSize (ofInteger 24))) in
  let start :=
    numMul (numSub (Math.max (ofInteger 1) (orDefault page (ofInteger 1)))
              (ofInteger 1)) size in
  ap_items (listAgents now sort page pageSize verifiedOnly db)
  = slice start (numAdd start size)
      (sortBy (compareItems (orDefault sort newest))
         (map (itemOf now)
            (filter (fun a => if orDefault verifiedOnly false
                              then Agent.xVerified a else true)
               (agents db)))).
Proof. reflexivity. Qed.

(** The items of a page are in the order asked for: newest or oldest first
    by creation time, or highest or lowest percentage first; without a sort
    key they are newest first.  This holds whatever numbers [page] and
    [pageSize] are. *)
Theorem listAgents_sorted (now : Z) (sort : option Sort)
  (page pageSize : option Num) (verifiedOnly : option bool) (db : DB) :
  StronglySorted (inOrder (orDefault sort newest))
    (ap_items (listAgents now sort page pageSize verifiedOnly db)).
Proof.
  rewrite listAgents_page. cbn zeta. unfold slice.
  apply StronglySorted_firstn, StronglySorted_skipn.
  apply sortBy_sorted.
  - apply compareItems_le.
  - intros x y. apply compareItems_gt.
  - apply inOrder_trans.
Qed.

Lemma ceiling_bounds (a b : Z) :
  0 < b ->
  a <= Qceiling (inject_Z a / inject_Z b) * b
  /\ (Qceiling (inject_Z a / inject_Z b) - 1) * b < a.
Proof.
  intro Hb.
  assert (P : (0 < inject_Z b)%Q)
    by (change 0%Q with (inject_Z 0); now rewrite <- Zlt_Qlt).
  assert (N : ~ (inject_Z b == 0)%Q) by lra.
  set (x := (inject_Z a / inject_Z b)%Q).
  assert (X : (x * inject_Z b == inject_Z a)%Q) by (unfold x; field; exact N).
  pose proof (Qle_ceiling x) as U. pose proof (Qceiling_lt x) as L.
  split.
  - rewrite Zle_Qle, inject_Z_mult, <- X.
    apply Qmult_le_compat_r; [exact U | lra].
  - rewrite Zlt_Qlt, inject_Z_mult, <- X.
    apply Qmult_lt_compat_r; [exact P|].
    exact L.
Qed.

Lemma firstn_add {A} (a b : nat) (l : list A) :
  firstn (a + b) l = firstn a l ++ firstn b (skipn a l).
Proof.
  revert l. induction a as [|a IH]; intro l; [reflexivity|].
  destruct l as [|x l]; simpl; [now rewrite firstn_nil|].
  now rewrite IH.
Qed.

Lemma chunks_concat {A} (size : nat) (l : list A) (n : nat) :
  flat_map (fun p => firstn size (skipn ((p - 1) * size) l)) (seq 1 n)
  = firstn (n * size) l.
Proof.
  induction n as [|n IH]; [reflexivity|].
  rewrite seq_S, flat_map_app, IH. cbn [flat_map]. rewrite app_nil_r.
  replace (1 + n - 1)%nat with n by lia.
  replace (S n * size)%nat with (n * size + size)%nat by lia.
  symmetry. apply firstn_add.
Qed.

(** *** Numbers that are integers *)

Lemma Qle_bool_integers (a b : Z) :
  Qle_bool (inject_Z a) (inject_Z b) = (a <=? b).
Proof.
  destruct (Z.leb_spec a b) as [H | H].
  - apply Qle_bool_iff. now rewrite <- Zle_Qle.
  - destruct (Qle_bool (inject_Z a) (inject_Z b)) eqn:E; [|reflexivity].
    apply Qle_bool_iff in E. rewrite <- Zle_Qle in E. lia.
Qed.

Lemma max_integers (a b : Z) :
  Math.max (ofInteger a) (ofInteger b) = ofInteger (Z.max a b).
Proof.
  unfold Math.max, ofInteger. rewrite Qle_bool_integers.
  destruct (Z.leb_spec a b); f_equal; f_equal; lia.
Qed.

Lemma min_integers (a b : Z) :
  Math.min (ofInteger a) (ofInteger b) = ofInteger (Z.min a b).
Proof.
  unfold Math.min, ofInteger. rewrite Qle_bool_integers.
  destruct (Z.leb_spec a b); f_equal; f_equal; lia.
Qed.

Lemma orDefault_integer (o : option Z) (d : Z) :
  orDefault (option_map ofInteger o) (ofInteger d) = ofInteger (orDefault o d).
Proof. now destruct o. Qed.

Lemma Qtrunc_integer (q : Q) (z : Z) : (q == inject_Z z)%Q -> Qtrunc q = z.
Proof.
  intro E. unfold Qtrunc.
  destruct (Qle_bool 0 q).
  - rewrite (Qfloor_comp _ _ E). apply Qfloor_Z.
  - rewrite (Qceiling_comp _ _ E). apply Qceiling_Z.
Qed.

(** A slice between two integers [0 <= a <= b]. *)
Lemma slice_integers {A} (qa qb : Q) (a b : Z) (l : list A) :
  (qa == inject_Z a)%Q -> (qb == inject_Z b)%Q -> 0 <= a -> a <= b ->
  slice (Finite qa) (Finite qb) l
  = firstn (Z.to_nat (b - a)) (skipn (Z.to_nat a) l).
Proof.
  intros Ea Eb Ha Hab. unfold slice. cbn [toIntegerOrInfinity relativeIndex].
  rewrite (Qtrunc_integer qa a Ea), (Qtrunc_integer qb b Eb).
  set (len := Z.of_nat (List.length l)).
  assert ((a <? 0) = false) as -> by (apply Z.ltb_ge; lia).
  assert ((b <? 0) = false) as -> by (apply Z.ltb_ge; lia).
  destruct (Z.le_gt_cases len a) as [Far | Near].
  - rewrite !skipn_all2 by (unfold len in *; lia). now rewrite !firstn_nil.
  - rewrite (Z.min_l a len) by lia.
    destruct (Z.le_gt_cases b len) as [In | Out].
    + rewrite (Z.min_l b len) by lia. f_equal. lia.
    + rewrite (Z.min_r b len) by lia.
      rewrite !firstn_all2; [reflexivity | |];
        rewrite length_skipn; unfold len in *; lia.
Qed.

Lemma slice_same {A} (x : Num) (l : list A) : slice x x l = [].
Proof. unfold slice. now rewrite Z.sub_diag. Qed.

Lemma window_length {A} (start size : Z) (l : list A) :
  0 <= start -> 0 <= size ->
  Z.of_nat (List.length (firstn (Z.to_nat size) (skipn (Z.to_nat start) l)))
  = Z.min size (Z.max 0 (Z.of_nat (List.length l) - start)).
Proof.
  intros Hs Hz. rewrite length_firstn, length_skipn. lia.
Qed.

(** [listAgents] called with integers (or without) for [page] and
    [pageSize]. *)
Lemma listAgents_integers (now : Z) (sort : option Sort)
  (page pageSize : option Z) (verifiedOnly : option bool) (db : DB) :
  let p := Z.max 1 (orDefault page 1) in
  let s := Z.min 100 (Z.max 1 (orDefault pageSize 24)) in
  let sorted :=
    sortBy (compareItems (orDefault sort newest))
      (map (itemOf now)
         (filter (fun a => if orDefault verifiedOnly false
                           then Agent.xVerified a else true)
            (agents db))) in
  listAgents now sort (option_map ofInteger page)
    (option_map ofInteger pageSize) verifiedOnly db
  = {| ap_page := ofInteger p;
       ap_pageSize := ofInteger s;
       ap_total := Z.of_nat (List.length sorted);
       ap_totalPages :=
         ofInteger
           (Z.max 1 (Qceiling (inject_Z (Z.of_nat (List.length sorted))
                               / inject_Z s)));
       ap_items :=
         firstn (Z.to_nat s) (skipn (Z.to_nat ((p - 1) * s)) sorted) |}.
Proof.
  intros p s sorted. unfold listAgents.
  rewrite !orDefault_integer, !max_integers, min_integers.
  fold p s. fold (itemOf now). fold sorted.
  assert (Hs : 1 <= s <= 100) by (unfold s; lia).
  assert (Hp : 1 <= p) by (unfold p; lia).
  f_equal.
  - unfold numDiv, ofInteger.
    assert (Qeq_bool (inject_Z s) 0 = false) as ->.
    { destruct (Qeq_bool (inject_Z s) 0) eqn:E; [|reflexivity].
      apply Qeq_bool_eq in E. unfold Qeq in E. cbn in E. lia. }
    cbn [Math.ceil]. apply (max_integers 1).
  - unfold ofInteger. cbn [numSub numOpp numAdd numMul].
    rewrite (slice_integers _ _ ((p - 1) * s) ((p - 1) * s + s)).
    + f_equal. f_equal. lia.
    + rewrite inject_Z_mult. unfold Z.sub. rewrite inject_Z_plus.
      now rewrite inject_Z_opp.
    + rewrite inject_Z_plus, inject_Z_mult. unfold Z.sub.
      rewrite inject_Z_plus. now rewrite inject_Z_opp.
    + nia.
    + lia.
Qed.

(** What [listAgents] answers.  For integers (or nothing) as [page] and
    [pageSize]: the page is [max(1, page)] and the page size
    [min(100, max(1, pageSize))]; [total] counts the agents that pass the
    filter; [totalPages] is at least 1 and is the least number of pages that
    hold [total] items; the page holds the items from position
    [(page - 1) * pageSize] on, at most [pageSize] of them, and none when it
    lies beyond [totalPages].  For any numbers: [total] is the same, every
    item is made of an agent of the table, and of a verified one when
    [verifiedOnly] is set.  When [page] is not a number, so is the page
    answered, and there are no items; when [pageSize] is not a number, so
    are the page size and [totalPages] answered, and there are no items. *)
Theorem listAgents_page_bounds (now : Z) (sort : option Sort)
  (page pageSize : option Z) (verifiedOnly : option bool) (db : DB) :
  let r :=
    listAgents now sort (option_map ofInteger page)
      (option_map ofInteger pageSize) verifiedOnly db in
  let p := Z.max 1 (orDefault page 1) in
  let s := Z.min 100 (Z.max 1 (orDefault pageSize 24)) in
  let n := Z.max 1 (Qceiling (inject_Z (ap_total r) / inject_Z s)) in
  let passes := fun a : Agent.t =>
                  if orDefault verifiedOnly false then Agent.xVerified a
                  else true in
  (ap_page r = ofInteger p /\ ap_pageSize r = ofInteger s
   /\ ap_totalPages r = ofInteger n)
  /\ ap_total r = countIf passes (agents db)
  /\ ap_total r <= n * s
  /\ (0 < ap_total r -> (n - 1) * s < ap_total r)
  /\ Z.of_nat (List.length (ap_items r))
     = Z.min s (Z.max 0 (ap_total r - (p - 1) * s))
  /\ (n < p -> ap_items r = [])
  /\ (forall anyPage anySize,
        let r' := listAgents now sort anyPage anySize verifiedOnly db in
        ap_total r' = ap_total r
        /\ Forall (fun item =>
                     exists a, In a (agents db) /\ item = itemOf now a
                               /\ passes a = true)
             (ap_items r'))
  /\ (forall anySize,
        let r' := listAgents now sort (Some NaN) anySize verifiedOnly db in
        ap_page r' = NaN /\ ap_items r' = [])
  /\ (forall anyPage,
        let r' := listAgents now sort anyPage (Some NaN) verifiedOnly db in
        ap_pageSize r' = NaN /\ ap_totalPages r' = NaN /\ ap_items r' = []).
Proof.
  intros r p s n passes.
  set (sorted := sortBy (compareItems (orDefault sort newest))
                   (map (itemOf now) (filter passes (agents db)))).
  assert (R : r = {| ap_page := ofInteger p;
                     ap_pageSize := ofInteger s;
                     ap_total := Z.of_nat (List.length sorted);
                     ap_totalPages :=
                       ofInteger
                         (Z.max 1
                            (Qceiling
                               (inject_Z (Z.of_nat (List.length sorted))
                                / inject_Z s)));
                     ap_items :=
                       firstn (Z.to_nat s)
                         (skipn (Z.to_nat ((p - 1) * s)) sorted) |})
    by apply listAgents_integers.
  assert (Hs : 1 <= s <= 100) by (unfold s; lia).
  assert (Hp : 1 <= p) by (unfold p; lia).
  assert (Len : List.length sorted = List.length (filter passes (agents db))).
  { unfold sorted.
    rewrite (Permutation_length (sortBy_perm _ _)). apply length_map. }
  assert (Rt : ap_total r = Z.of_nat (List.length sorted))
    by (rewrite R; reflexivity).
  assert (Ri : ap_items r
               = firstn (Z.to_nat s) (skipn (Z.to_nat ((p - 1) * s)) sorted))
    by (rewrite R; reflexivity).
  destruct (ceiling_bounds (ap_total r) s) as [Cu Cl]; [lia|].
  assert (L : Z.of_nat (List.length (ap_items r))
              = Z.min s (Z.max 0 (ap_total r - (p - 1) * s))).
  { rewrite Ri, Rt. apply window_length; nia. }
  split.
  { rewrite R. cbn [ap_page ap_pageSize ap_totalPages]. unfold n.
    now rewrite Rt. }
  split; [rewrite Rt, Len; reflexivity|].
  split; [unfold n; nia|].
  split; [intro Pos; unfold n; nia|].
  split; [exact L|].
  split.
  { intro Beyond.
    assert (Z0 : Z.of_nat (List.length (ap_items r)) = 0).
    { rewrite L. unfold n in Beyond. nia. }
    destruct (ap_items r); [reflexivity | discriminate]. }
  split.
  { intros anyPage anySize r'. split; [now rewrite Rt|].
    apply Forall_forall. intros item I. unfold r' in I.
    rewrite listAgents_page in I. cbn zeta in I.
    apply in_slice, in_sortBy, in_map_iff in I.
    destruct I as (a & <- & I). apply filter_In in I. destruct I as [I K].
    exists a. split; [exact I|]. split; [reflexivity | exact K]. }
  split.
  - intros anySize r'. split; [unfold r', listAgents; now destruct anySize|].
    unfold r'. rewrite listAgents_page. cbn zeta.
    cbn [orDefault Math.max numSub numOpp numAdd numMul].
    apply slice_same.
  - intros anyPage r'.
    assert (Sz : Math.min (ofInteger 100)
                   (Math.max (ofInteger 1) (orDefault (Some NaN) (ofInteger 24)))
                 = NaN) by reflexivity.
    split; [exact Sz|]. split.
    + unfold r', listAgents. cbn [ap_totalPages]. rewrite Sz. reflexivity.
    + unfold r'. rewrite listAgents_page. cbn zeta. rewrite Sz.
      assert (St : forall x, numMul x NaN = NaN) by (now intros []).
      rewrite St. apply slice_same.
Qed.

(** For an integer (or no) [pageSize], the pages [1 .. totalPages], one
    after the other, are the whole sorted listing: every agent that passes
    the filter is on exactly one of them, and the order goes on from each
    page to the next. *)
Theorem listAgents_pages_cover (now : Z) (sort : option Sort)
  (page : option Num) (pageSize : option Z) (verifiedOnly : option bool)
  (db : DB) :
  let r :=
    listAgents now sort page (option_map ofInteger pageSize) verifiedOnly db in
  exists n,
    ap_totalPages r = ofInteger n
    /\ let every :=
         pagesUpTo now sort (option_map ofInteger pageSize) verifiedOnly db
           (Z.to_nat n) in
       Permutation every
         (map (itemOf now)
            (filter (fun a => if orDefault verifiedOnly false
                              then Agent.xVerified a else true) (agents db)))
       /\ StronglySorted (inOrder (orDefault sort newest)) every.
Proof.
  intro r.
  set (s := Z.min 100 (Z.max 1 (orDefault pageSize 24))).
  set (keep := fun a : Agent.t =>
                 if orDefault verifiedOnly false then Agent.xVerified a
                 else true).
  set (sorted := sortBy (compareItems (orDefault sort newest))
                   (map (itemOf now) (filter keep (agents db)))).
  set (total := Z.of_nat (List.length sorted)).
  set (n := Z.max 1 (Qceiling (inject_Z total / inject_Z s))).
  assert (Hs : 1 <= s <= 100) by (unfold s; lia).
  assert (Rn : ap_totalPages r = ofInteger n).
  { pose proof (listAgents_integers now sort None pageSize verifiedOnly db)
      as E. cbn zeta in E.
    apply (f_equal ap_totalPages) in E. cbn [ap_totalPages] in E.
    fold keep sorted total s n in E. rewrite <- E. reflexivity. }
  exists n. split; [exact Rn|]. cbn zeta.
  destruct (ceiling_bounds total s) as [Cu _]; [lia|].
  assert (E : pagesUpTo now sort (option_map ofInteger pageSize) verifiedOnly
                db (Z.to_nat n) = sorted).
  { unfold pagesUpTo.
    transitivity
      (flat_map (fun p => firstn (Z.to_nat s)
                            (skipn ((p - 1) * Z.to_nat s) sorted))
         (seq 1 (Z.to_nat n))).
    - apply flat_map_ext. intro p.
      pose proof (listAgents_integers now sort (Some (Z.of_nat p)) pageSize
                    verifiedOnly db) as E. cbn zeta in E.
      apply (f_equal ap_items) in E. cbn [ap_items option_map] in E.
      fold keep sorted s in E. rewrite E. cbn [orDefault].
      replace (Z.max 1 (Z.of_nat p) - 1) with (Z.of_nat (p - 1)) by lia.
      f_equal. f_equal. rewrite Z2Nat.inj_mul by lia. now rewrite Nat2Z.id.
    - rewrite chunks_concat. apply firstn_all2.
      apply Nat2Z.inj_le. fold total.
      rewrite Nat2Z.inj_mul, !Z2Nat.id by lia. unfold n. nia. }
  rewrite E. split.
  - apply sortBy_perm.
  - apply sortBy_sorted.
    + apply compareItems_le.
    + intros x y. apply compareItems_gt.
    + apply inOrder_trans.
Qed.

(** ** Sampling of the history *)

Lemma StronglySorted_filter {A} (R : A -> A -> Prop) (p : A -> bool)
  (l : list A) :
  StronglySorted R l -> StronglySorted R (filter p l).
Proof.
  induction 1 as [|x l Hs IH Hx]; simpl; [constructor|].
  destruct (p x); [|exact IH].
  constructor; [exact IH|].
  apply Forall_forall. intros y I. apply filter_In in I.
  rewrite Forall_forall in Hx. now apply Hx.
Qed.

Lemma StronglySorted_snoc {A} (R : A -> A -> Prop) (l : list A) (x : A) :
  StronglySorted R l -> Forall (fun y => R y x) l ->
  StronglySorted R (l ++ [x]).
Proof.
  induction 1 as [|y l Hs IH Hy]; intro F; simpl.
  - constructor; constructor.
  - apply Forall_cons_iff in F. destruct F as [Ryx F].
    constructor; [now apply IH|].
    apply Forall_app. split; [exact Hy | now constructor].
Qed.

Lemma StronglySorted_rev {A} (R : A -> A -> Prop) (l : list A) :
  StronglySorted (fun x y => R y x) l -> StronglySorted R (rev l).
Proof.
  induction 1 as [|x l Hs IH Hx]; simpl; [constructor|].
  apply StronglySorted_snoc; [exact IH|].
  apply Forall_forall. intros y I. apply in_rev in I.
  rewrite Forall_forall in Hx. now apply Hx.
Qed.

Lemma StronglySorted_map {A B} (f : A -> B) (R : B -> B -> Prop) (l : list A) :
  StronglySorted (fun x y => R (f x) (f y)) l -> StronglySorted R (map f l).
Proof.
  induction 1 as [|x l Hs IH Hx]; simpl; constructor; [exact IH|].
  apply Forall_forall. intros y I. apply in_map_iff in I.
  destruct I as (y0 & <- & I0). rewrite Forall_forall in Hx. now apply Hx.
Qed.

Lemma filterIndexFrom_incl {A} (keep : Z -> bool) (l : list A) (i : Z) :
  incl (filterIndexFrom keep i l) l.
Proof.
  revert i. induction l as [|x l IH]; intro i; simpl; [easy|].
  destruct (keep i).
  - intros y [<- | I]; [now left | right; now apply (IH (i + 1))].
  - intros y I. right. now apply (IH (i + 1)).
Qed.

Lemma filterIndexFrom_sorted {A} (R : A -> A -> Prop) (keep : Z -> bool)
  (l : list A) :
  StronglySorted R l -> forall i, StronglySorted R (filterIndexFrom keep i l).
Proof.
  induction 1 as [|x l Hs IH Hx]; intro i; simpl; [constructor|].
  destruct (keep i); [|apply IH].
  constructor; [apply IH|].
  apply Forall_forall. intros y I. apply filterIndexFrom_incl in I.
  rewrite Forall_forall in Hx. now apply Hx.
Qed.

Lemma filterIndexFrom_length_le {A} (keep : Z -> bool) (l : list A) (i : Z) :
  (List.length (filterIndexFrom keep i l) <= List.length l)%nat.
Proof.
  revert i. induction l as [|x l IH]; intro i; simpl; [lia|].
  specialize (IH (i + 1)). destruct (keep i); simpl; lia.
Qed.

Lemma multiple_step (s i : Z) :
  0 < s -> i / s - (i - 1) / s = if i mod s =? 0 then 1 else 0.
Proof.
  intro Hs. destruct (Z.eqb_spec (i mod s) 0) as [E | E];
    Z.div_mod_to_equations; nia.
Qed.

(** The indices [i .. i + n - 1] hold [(i + n - 1) / s - (i - 1) / s]
    multiples of [s]. *)
Lemma multiples_count {A} (s : Z) (l : list A) :
  0 < s ->
  forall i,
    Z.of_nat (List.length (filterIndexFrom (fun j => j mod s =? 0) i l))
    = (i + Z.of_nat (List.length l) - 1) / s - (i - 1) / s.
Proof.
  intro Hs. induction l as [|x l IH]; intro i.
  - cbn [List.length filterIndexFrom]. rewrite Nat2Z.inj_0, Z.add_0_r. lia.
  - cbn [filterIndexFrom]. pose proof (multiple_step s i Hs) as M.
    specialize (IH (i + 1)).
    replace (i + 1 + Z.of_nat (List.length l) - 1)
      with (i + Z.of_nat (List.length (x :: l)) - 1) in IH
      by (cbn [List.length]; lia).
    replace (i + 1 - 1) with i in IH by lia.
    destruct (i mod s =? 0); cbn [List.length] in *; lia.
Qed.

Lemma filterIndexFrom_past {A} (m : Z -> bool) (k : Z) (l : list A) :
  forall i : Z, k < i ->
    filterIndexFrom (fun j => m j || (j =? k)%Z) i l = filterIndexFrom m i l.
Proof.
  induction l as [|x l IH]; intros i Hi; simpl; [reflexivity|].
  destruct (Z.eqb_spec i k) as [E | _]; [lia|].
  rewrite orb_false_r, IH by lia. reflexivity.
Qed.

Lemma filterIndexFrom_one_more {A} (m : Z -> bool) (k : Z) (l : list A) :
  forall i : Z,
    (List.length (filterIndexFrom (fun j => m j || (j =? k)%Z) i l)
     <= S (List.length (filterIndexFrom m i l)))%nat.
Proof.
  induction l as [|x l IH]; intro i; simpl; [lia|].
  destruct (m i); simpl.
  - specialize (IH (i + 1)). lia.
  - destruct (Z.eqb_spec i k) as [E | _].
    + rewrite filterIndexFrom_past by lia. simpl. lia.
    + apply IH.
Qed.

Lemma filterIndexFrom_keeps_last {A} (keep : Z -> bool) (d : A) (l : list A) :
  forall i,
    l <> [] ->
    keep (i + Z.of_nat (List.length l) - 1) = true ->
    exists front, filterIndexFrom keep i l = front ++ [last l d].
Proof.
  induction l as [|x l IH]; intros i Hne K; [contradiction|].
  destruct l as [|y l].
  - cbn [List.length] in K. replace (i + Z.of_nat 1 - 1) with i in K by lia.
    exists []. cbn [filterIndexFrom]. now rewrite K.
  - destruct (IH (i + 1)) as [front E]; [discriminate | |].
    { rewrite <- K. f_equal. cbn [List.length]. lia. }
    change (last (x :: y :: l) d) with (last (y :: l) d).
    cbn [filterIndexFrom] in *. destruct (keep i).
    + exists (x :: front). now rewrite E.
    + exists front. exact E.
Qed.

Lemma downsample_length (range : Range) (points : list Point.t) :
  Z.of_nat (List.length (downsample range points)) <= maxPoints range + 1.
Proof.
  unfold downsample. set (s := strideOf range points).
  set (n := Z.of_nat (List.length points)).
  pose proof (maxPoints_pos range) as Hm.
  assert (Hs : 1 <= s) by (unfold s, strideOf; lia).
  assert (Hn : n <= s * maxPoints range).
  { destruct (ceiling_bounds n (maxPoints range) Hm) as [Cu _].
    unfold s, strideOf. fold n. nia. }
  pose proof (filterIndexFrom_one_more (fun j => j mod s =? 0) (n - 1) points 0)
    as One.
  pose proof (multiples_count s points ltac:(lia) 0) as Count. fold n in Count.
  assert (B : (0 + n - 1) / s - (0 - 1) / s <= maxPoints range).
  { assert (n = 0 \/ 0 < n) as [Z0 | Pos] by (unfold n; lia).
    - rewrite Z0. cbn. lia.
    - assert ((0 - 1) / s = -1) by (Z.div_mod_to_equations; nia).
      assert ((0 + n - 1) / s < maxPoints range)
        by (apply Z.div_lt_upper_bound; lia).
      lia. }
  lia.
Qed.

Lemma historyPoints_last (now : Z) (range : Range) (db : DB) (d : Point.t) :
  last (historyPoints now range db) d = anchorPoint now db.
Proof.
  rewrite historyPoints_spec. unfold spec_series. cbn [rev].
  rewrite map_app. cbn [map]. apply last_last.
Qed.

Lemma historyPoints_nonempty (now : Z) (range : Range) (db : DB) :
  historyPoints now range db <> [].
Proof.
  rewrite historyPoints_spec. unfold spec_series. cbn [rev].
  rewrite map_app. cbn [map]. intro E. now apply app_eq_nil in E.
Qed.

(** What the sampling of [getClapRateHistory] keeps: the returned points are
    points of the reconstructed series, in the same order; there is at least
    one and there are at most [maxPoints + 1] of them (the last point is
    kept on top of the multiples of the stride); the first point of the
    series is kept, and the last returned point is always the anchor
    [(now, current clapping count)]. *)
Theorem sampled_history_shape (now : Z) (range : Range) (db : DB) :
  let series := historyPoints now range db in
  let returned := h_points (getClapRateHistory now range db) in
  1 <= Z.of_nat (List.length returned) <= maxPoints range + 1
  /\ (List.length returned <= List.length series)%nat
  /\ incl returned series
  /\ hd_error returned = hd_error series
  /\ (forall d, last returned d = anchorPoint now db)
  /\ (forall R, StronglySorted R series -> StronglySorted R returned).
Proof.
  intros series returned.
  assert (E : returned = downsample range series) by reflexivity.
  pose proof (historyPoints_nonempty now range db) as Hne. fold series in Hne.
  assert (Last : forall d, last returned d = anchorPoint now db).
  { intro d. rewrite E. unfold downsample.
    destruct (filterIndexFrom_keeps_last
                (fun i => (i mod strideOf range series =? 0)
                          || (i =? Z.of_nat (List.length series) - 1))
                d series 0 Hne) as [front F].
    - replace (0 + Z.of_nat (List.length series) - 1)
        with (Z.of_nat (List.length series) - 1) by lia.
      rewrite Z.eqb_refl. apply orb_true_r.
    - rewrite F, last_last. apply historyPoints_last. }
  assert (Hd : hd_error returned = hd_error series).
  { rewrite E. unfold downsample. destruct series as [|p rest]; [reflexivity|].
    cbn [filterIndexFrom]. now rewrite Zmod_0_l. }
  split.
  - split; [|rewrite E; apply downsample_length].
    destruct returned as [|p rest]; [|cbn [List.length]; lia].
    destruct series; [contradiction | discriminate].
  - split.
    { rewrite E. apply filterIndexFrom_length_le. }
    split; [rewrite E; apply filterIndexFrom_incl|].
    split; [exact Hd|]. split; [exact Last|].
    intros R Hs. rewrite E. now apply filterIndexFrom_sorted.
Qed.

(** ** The event log in time *)

Lemma insertDesc_perm (e : ClapEvent.t) (l : list ClapEvent.t) :
  Permutation (insertDesc e l) (e :: l).
Proof.
  induction l as [|y l IH]; simpl; [reflexivity|].
  destruct (ClapEvent.createdAt y <=? ClapEvent.createdAt e); [reflexivity|].
  rewrite IH. apply perm_swap.
Qed.

Lemma by_created_at_desc_perm (l : list ClapEvent.t) :
  Permutation (by_created_at_desc l) l.
Proof.
  unfold by_created_at_desc.
  assert (G : forall acc,
             Permutation (fold_left (fun a e => insertDesc e a) l acc)
               (l ++ acc)).
  { induction l as [|e l IH]; intro acc; simpl; [reflexivity|].
    rewrite IH, insertDesc_perm. symmetry. apply Permutation_middle. }
  rewrite G. now rewrite app_nil_r.
Qed.

(** The log of a database built with a clock that never goes back is in the
    order of its timestamps, and none of them lies after the clock. *)
Lemma builtBy_log (t : Z) (db : DB) :
  builtBy t db ->
  chronological (clapEvents db)
  /\ Forall (fun e => ClapEvent.createdAt e <= t) (clapEvents db).
Proof.
  unfold chronological.
  induction 1 as [t | t now m db B [C F] Hle | t d db B [C F]].
  - split; constructor.
  - assert (F' : Forall (fun e => ClapEvent.createdAt e <= now) (clapEvents db)).
    { eapply Forall_impl; [|exact F]. cbn beta. intros e He. lia. }
    destruct (step_shape now m db)
      as [m | name xh | m agentId agent clapping Hm L | agentId agent L
          | agentId agent raw text e L O | challengeId c agent url L Op O A];
      try (split; [exact C | exact F']).
    unfold afterClapWrite. destruct (negb _);
      cbn [clapEvents]; [|split; [exact C | exact F']].
    split.
    + apply StronglySorted_snoc; [exact C|]. exact F'.
    + apply Forall_app. split; [exact F'|]. repeat constructor. cbn. lia.
  - destruct d as [keep | confirmWipe]; unfold deletionStep, runMutation.
    + rewrite deleteAllButNAgents_run. cbn [fst snd clapEvents].
      unfold withoutIds. split.
      * now apply StronglySorted_filter.
      * apply Forall_forall. intros e I. apply filter_In in I.
        rewrite Forall_forall in F. now apply F.
    + rewrite deleteAllAgentsAndData_run.
      destruct (String.eqb confirmWipe "YES_DELETE_EVERYTHING");
        cbn [fst snd clapEvents]; split; try assumption; constructor.
Qed.

Lemma spec_walk_timestamps (P : Z -> Prop) (total : Z)
  (events : list ClapEvent.t) :
  Forall (fun e => P (ClapEvent.createdAt e)) events ->
  forall running, Forall (fun tc => P (fst tc)) (spec_walk total running events).
Proof.
  induction 1 as [|e rest He Hr IH]; intro running; simpl; constructor.
  - exact He.
  - apply IH.
Qed.

Lemma spec_walk_newest_first (total : Z) (events : list ClapEvent.t) :
  newestFirst events ->
  forall running,
    StronglySorted (fun a b => fst b <= fst a) (spec_walk total running events).
Proof.
  unfold newestFirst.
  induction 1 as [|e rest Hs IH He]; intro running; simpl; constructor.
  - apply IH.
  - apply (spec_walk_timestamps
             (fun ts => ts <= ClapEvent.createdAt e) total rest He).
Qed.

(** For a database built with a clock that never goes back and read at or
    after the last call, the points [getClapRateHistory] returns are in the
    order of their timestamps and all lie in the window
    [now - lookback .. now]; the log itself is in the order of its
    timestamps, so that the index read newest first is the log reversed. *)
Theorem history_is_chronological (t now : Z) (range : Range) (db : DB) :
  builtBy t db -> t <= now ->
  let returned := h_points (getClapRateHistory now range db) in
  inTimeOrder returned
  /\ Forall (fun p => now - windows range <= Point.ts p <= now) returned
  /\ by_created_at_desc (clapEvents db) = rev (clapEvents db).
Proof.
  intros B Hle returned.
  destruct (builtBy_log t db B) as [C F].
  set (events := filteredEvents now range db).
  assert (Sorted : newestFirst events).
  { unfold events, filteredEvents, fetchedEvents, newestFirst. cbn zeta.
    apply StronglySorted_filter, StronglySorted_firstn.
    apply by_created_at_desc_sorted. }
  assert (W : 0 < windows range) by (destruct range; reflexivity).
  assert (In_window :
            Forall (fun e => now - windows range <= ClapEvent.createdAt e <= now)
              events).
  { apply Forall_forall. intros e I.
    unfold events, filteredEvents, fetchedEvents in I. cbn zeta in I.
    apply filter_In in I. destruct I as [I K].
    unfold inWindow in K. apply Z.leb_le in K. split; [exact K|].
    assert (I' : In e (clapEvents db)).
    { apply (Permutation_in e (by_created_at_desc_perm (clapEvents db))).
      rewrite <- (firstn_skipn takeLimit). apply in_or_app. now left. }
    rewrite Forall_forall in F. specialize (F e I'). cbn beta in F. lia. }
  set (total := Z.of_nat (List.length (agents db))).
  set (current := countIf Agent.isClapping (agents db)).
  assert (Series : historyPoints now range db
                   = map (pointOf total)
                       (rev ((now, current) :: spec_walk total current events)))
    by apply historyPoints_spec.
  assert (Ordered : inTimeOrder (historyPoints now range db)).
  { rewrite Series. unfold inTimeOrder.
    apply StronglySorted_map. cbn [pointOf Point.ts].
    apply (StronglySorted_rev (fun a b : Z * Z => fst a <= fst b)).
    constructor; [now apply spec_walk_newest_first|].
    apply (spec_walk_timestamps (fun ts => ts <= now)).
    eapply Forall_impl; [|exact In_window]. cbn beta. intros e He. lia. }
  assert (Within : Forall (fun p => now - windows range <= Point.ts p <= now)
                     (historyPoints now range db)).
  { rewrite Series. apply Forall_forall. intros p I.
    apply in_map_iff in I. destruct I as (tc & <- & I).
    apply in_rev in I. cbn [pointOf Point.ts].
    destruct I as [<- | I]; [cbn; lia|].
    pose proof (spec_walk_timestamps
                  (fun ts => now - windows range <= ts <= now)
                  total events In_window current) as G.
    rewrite Forall_forall in G. now apply G. }
  assert (E : returned = downsample range (historyPoints now range db))
    by reflexivity.
  split; [|split].
  - rewrite E. unfold inTimeOrder, downsample.
    now apply filterIndexFrom_sorted.
  - rewrite E. unfold downsample. apply Forall_forall. intros p I.
    apply filterIndexFrom_incl in I.
    rewrite Forall_forall in Within. now apply Within.
  - now apply chronological_desc.
Qed.

Lemma history_is_chronological_witness :
  inTimeOrder (h_points (getClapRateHistory 410 hour clapRun)).
Proof.
  apply (history_is_chronological 300 410 hour clapRun); [|lia].
  unfold clapRun.
  apply built_step with (t := 100); [|lia].
  apply built_step with (t := 10); [|lia].
  apply built_step with (t := 10); [|lia].
  apply built_empty.
Defined.

(** ** The ticker *)

Lemma StronglySorted_across {A} (R : A -> A -> Prop) (l1 l2 : list A) :
  StronglySorted R (l1 ++ l2) ->
  forall x y, In x l1 -> In y l2 -> R x y.
Proof.
  induction l1 as [|a l1 IH]; simpl; intros Hs x y Ix Iy; [contradiction|].
  apply StronglySorted_inv in Hs. destruct Hs as [Hs Ha].
  destruct Ix as [<- | Ix].
  - rewrite Forall_forall in Ha. apply Ha, in_or_app. now right.
  - now apply IH.
Qed.

Lemma take_integer {A} (k : Z) (l : list A) :
  0 <= k -> take (ofInteger k) l = Some (firstn (Z.to_nat k) l).
Proof.
  intro H. unfold take, ofInteger. rewrite Qfloor_Z.
  change 0%Q with (inject_Z 0). rewrite Qle_bool_integers.
  assert ((0 <=? k) = true) as -> by now apply Z.leb_le.
  assert (Qeq_bool (inject_Z k) (inject_Z k) = true) as ->
    by (apply Qeq_bool_iff; reflexivity).
  reflexivity.
Qed.

(** Called with an integer (or nothing) as [limit], [getTickerEvents]
    returns the newest events of the log, newest first: as many as the limit
    says (20 by default, at least 1, at most 100) or all of them when there
    are fewer, and no event left out is newer than one returned.  In a
    database built from the empty one, the agent of each returned event is
    still in the table and the event carries that agent's verified flag. *)
Theorem ticker_shows_newest (limit : option Z) (db : DB) :
  let k := Z.min 100 (Z.max 1 (orDefault limit 20)) in
  exists shown,
    getTickerEvents (option_map ofInteger limit) db = Some shown
    /\ Z.of_nat (List.length shown)
       = Z.min k (Z.of_nat (List.length (clapEvents db)))
    /\ newestFirst (map TickerEvent.event shown)
    /\ (exists older,
          Permutation (map TickerEvent.event shown ++ older) (clapEvents db)
          /\ forall x o,
               In x shown -> In o older ->
               ClapEvent.createdAt o
               <= ClapEvent.createdAt (TickerEvent.event x))
    /\ (reachable db ->
        Forall (fun x =>
                  exists a,
                    lookupAgent (ClapEvent.agentId (TickerEvent.event x))
                      (agents db) = Some a
                    /\ TickerEvent.xVerified x = Agent.xVerified a)
          shown).
Proof.
  intro k.
  set (sorted := by_created_at_desc (clapEvents db)).
  set (shown := map (fun e =>
                       TickerEvent.mk e
                         (verifiedFlag
                            (lookupAgent (ClapEvent.agentId e) (agents db))))
                  (firstn (Z.to_nat k) sorted)).
  assert (Run : getTickerEvents (option_map ofInteger limit) db = Some shown).
  { unfold getTickerEvents.
    rewrite orDefault_integer, max_integers, min_integers. fold k sorted.
    rewrite take_integer by (unfold k; lia). reflexivity. }
  exists shown. split; [exact Run|].
  assert (E : map TickerEvent.event shown = firstn (Z.to_nat k) sorted).
  { unfold shown. rewrite map_map. cbn [TickerEvent.event]. apply map_id. }
  assert (P : Permutation sorted (clapEvents db))
    by apply by_created_at_desc_perm.
  assert (Hs : newestFirst sorted) by apply by_created_at_desc_sorted.
  split.
  { rewrite <- (length_map TickerEvent.event), E, length_firstn.
    rewrite (Permutation_length P). unfold k. lia. }
  split.
  { rewrite E. now apply StronglySorted_firstn. }
  split.
  { exists (skipn (Z.to_nat k) sorted). rewrite E, firstn_skipn.
    split; [exact P|].
    intros x o Ix Io.
    assert (Ie : In (TickerEvent.event x) (firstn (Z.to_nat k) sorted))
      by (rewrite <- E; now apply in_map).
    unfold newestFirst in Hs. rewrite <- (firstn_skipn (Z.to_nat k)) in Hs.
    exact (StronglySorted_across _ _ _ Hs _ _ Ie Io). }
  intro R. destruct (reachable_noOrphans db R) as [Fe _].
  apply Forall_forall. intros x Ix.
  unfold shown in Ix.
  apply in_map_iff in Ix. destruct Ix as (e & <- & Ie).
  cbn [TickerEvent.event TickerEvent.xVerified].
  assert (I : In e (clapEvents db)).
  { apply (Permutation_in e P).
    rewrite <- (firstn_skipn (Z.to_nat k)). apply in_or_app. now left. }
  rewrite Forall_forall in Fe. specialize (Fe e I). cbn beta in Fe.
  destruct (lookupAgent (ClapEvent.agentId e) (agents db)) as [a|];
    [|contradiction].
  now exists a.
Qed.

Lemma ticker_shows_newest_witness :
  exists shown,
    getTickerEvents (Some (ofInteger 1)) clapRun = Some shown
    /\ Forall (fun x =>
                 exists a,
                   lookupAgent (ClapEvent.agentId (TickerEvent.event x))
                     (agents clapRun) = Some a
                   /\ TickerEvent.xVerified x = Agent.xVerified a)
         shown.
Proof.
  destruct (ticker_shows_newest (Some 1) clapRun)
    as (shown & Run & _ & _ & _ & Flags).
  exists shown. split; [exact Run|]. apply Flags.
  unfold clapRun. repeat apply reach_step. apply reach_empty.
Defined.

(** ** Handles *)

Lemma handle_char (c : ascii) :
  isHandleChar c = true ->
  isWhiteSpace c = false /\ lowerAscii c = c /\ c <> "@"%char.
Proof.
  unfold isHandleChar, isWhiteSpace, lowerAscii. intro H.
  assert (At : c <> "@"%char).
  { intros ->. discriminate H. }
  set (n := nat_of_ascii c) in *.
  assert (R : (97 <= n <= 122 \/ 48 <= n <= 57 \/ n = 95)%nat).
  { apply orb_true_iff in H. destruct H as [H | H].
    - apply orb_true_iff in H. destruct H as [H | H];
        apply andb_true_iff in H; destruct H as [H1 H2];
        apply Nat.leb_le in H1, H2; lia.
    - apply Nat.eqb_eq in H. lia. }
  split; [|split; [|exact At]].
  - apply orb_false_iff. split.
    + apply andb_false_iff.
      destruct (Nat.leb_spec 9 n); [right | now left].
      apply Nat.leb_gt. lia.
    + apply Nat.eqb_neq. lia.
  - assert (((65 <=? n)%nat && (n <=? 90)%nat)%bool = false) as ->;
      [|reflexivity].
    apply andb_false_iff.
    destruct (Nat.leb_spec 65 n); [right | now left].
    apply Nat.leb_gt. lia.
Qed.

Lemma dropWhile_none {A} (p : A -> bool) (l : list A) :
  Forall (fun x => p x = false) l -> dropWhile p l = l.
Proof. destruct 1 as [|x l Hx _]; simpl; [reflexivity | now rewrite Hx]. Qed.

Lemma trim_nothing (s : string) :
  Forall (fun c => isWhiteSpace c = false) (list_ascii_of_string s) ->
  trim s = s.
Proof.
  intro F. unfold trim. rewrite (dropWhile_none _ _ F).
  rewrite dropWhile_none by now apply Forall_rev.
  rewrite rev_involutive. apply string_of_list_ascii_of_string.
Qed.

Lemma stripAt_other (c : ascii) (s : string) :
  c <> "@"%char -> stripAt (String c s) = String c s.
Proof.
  intro H. destruct c as [[] [] [] [] [] [] [] []]; try reflexivity.
  now contradiction H.
Qed.

Lemma toLowerCase_fixed (s : string) :
  Forall (fun c => lowerAscii c = c) (list_ascii_of_string s) ->
  toLowerCase s = s.
Proof.
  induction s as [|c s IH]; simpl; intro F; [reflexivity|].
  apply Forall_cons_iff in F. destruct F as [Hc F].
  now rewrite Hc, IH.
Qed.

Lemma handle_chars (h : string) :
  matchesHandleFormat h = true ->
  h <> EmptyString
  /\ Forall (fun c => isWhiteSpace c = false /\ lowerAscii c = c
                      /\ c <> "@"%char)
       (list_ascii_of_string h).
Proof.
  unfold matchesHandleFormat. intro H.
  apply andb_true_iff in H. destruct H as [H Hc].
  apply andb_true_iff in H. destruct H as [Hl _].
  split.
  - intros ->. discriminate Hl.
  - rewrite forallb_forall in Hc. apply Forall_forall. intros c I.
    now apply handle_char, Hc.
Qed.

(** A handle that passes the format test of the route
    [/api/verifications/x/start] is left as it is by [normalizeXHandle], so
    the mutation, which normalizes again, stores and returns exactly the
    handle the route has tested.  Only one leading [@] is removed: for such
    a handle [h], the input [@@h] is normalized to [@h], which fails the
    format test. *)
Theorem accepted_handle_is_unchanged (h : string) :
  matchesHandleFormat h = true ->
  normalizeXHandle h = h
  /\ (forall now agentId agent challengeText expiresAt db,
        lookupAgent agentId (agents db) = Some agent ->
        ownedByOther (existingOwner h db) agentId = false ->
        fst (createXVerificationChallenge now agentId h challengeText
               expiresAt db)
        = Ok {| ci_challengeId := nextId db;
                ci_challengeText := challengeText;
                ci_xHandle := h;
                ci_expiresAt := expiresAt |})
  /\ normalizeXHandle (String "@" (String "@" h)) = String "@" h
  /\ matchesHandleFormat (String "@" h) = false.
Proof.
  intro M. destruct (handle_chars h M) as [Hne F].
  assert (Fw : Forall (fun c => isWhiteSpace c = false) (list_ascii_of_string h))
    by (eapply Forall_impl; [|exact F]; now intros c (W & _ & _)).
  assert (Fl : Forall (fun c => lowerAscii c = c) (list_ascii_of_string h))
    by (eapply Forall_impl; [|exact F]; now intros c (_ & L & _)).
  assert (N : normalizeXHandle h = h).
  { unfold normalizeXHandle. rewrite (trim_nothing h Fw).
    destruct h as [|c h]; [contradiction|].
    rewrite stripAt_other; [now apply toLowerCase_fixed|].
    cbn in F. apply Forall_cons_iff in F. now destruct F as [(_ & _ & A) _]. }
  split; [exact N|]. split.
  - intros now agentId agent challengeText expiresAt db L O.
    rewrite (create_run _ _ _ _ _ _ _ L), N, O. reflexivity.
  - split.
    + unfold normalizeXHandle. rewrite trim_nothing.
      * cbn [stripAt toLowerCase]. f_equal. now apply toLowerCase_fixed.
      * cbn [list_ascii_of_string]. repeat (constructor; [reflexivity|]).
        exact Fw.
    + unfold matchesHandleFormat. cbn [list_ascii_of_string forallb].
      change (isHandleChar "@") with false. cbn [andb].
      apply andb_false_r.
Qed.

Lemma accepted_handle_is_unchanged_witness :
  normalizeXHandle "jeb_42" = "jeb_42"%string.
Proof.
  apply (accepted_handle_is_unchanged "jeb_42"). reflexivity.
Defined.

(** ** The bulk deletions *)

Lemma filter_perm {A} (p : A -> bool) (l l' : list A) :
  Permutation l l' -> Permutation (filter p l) (filter p l').
Proof.
  induction 1 as [| x l l' P IH | x y l | l l' l'' P1 IH1 P2 IH2]; simpl.
  - constructor.
  - destruct (p x); [now constructor | exact IH].
  - destruct (p x), (p y); try reflexivity. apply perm_swap.
  - now transitivity (filter p l').
Qed.

Lemma filter_nothing {A} (l : list A) : filter (fun _ => false) l = [].
Proof. induction l as [|x l IH]; [reflexivity | exact IH]. Qed.

(** Among documents with distinct ids, those whose id is among the ids of
    the first [k] are the first [k]. *)
Lemma filter_first_ids {A} (idOf : A -> Id) (l : list A) :
  NoDup (map idOf l) ->
  forall k,
    filter (fun a => hasId (map idOf (firstn k l)) (idOf a)) l = firstn k l.
Proof.
  induction l as [|x l IH]; intros N k; [now rewrite firstn_nil|].
  cbn [map] in N. apply NoDup_cons_iff in N. destruct N as [Nx N].
  destruct k as [|k].
  - cbn [firstn map]. apply filter_nothing.
  - cbn [firstn map filter].
    assert (hasId (idOf x :: map idOf (firstn k l)) (idOf x) = true) as ->
      by (apply hasId_true; now left).
    f_equal.
    transitivity (filter (fun a => hasId (map idOf (firstn k l)) (idOf a)) l);
      [|now apply IH].
    apply filter_ext_in. intros y I.
    unfold hasId. cbn [existsb].
    destruct (Nat.eqb_spec (idOf y) (idOf x)) as [E | _]; [|reflexivity].
    exfalso. apply Nx. rewrite <- E. now apply in_map.
Qed.

Lemma lookupAgent_present (a : Agent.t) (l : list Agent.t) :
  In a l -> lookupAgent (Agent._id a) l <> None.
Proof.
  intros I E. unfold lookupAgent in E.
  apply (find_none _ _ E) in I. now rewrite Nat.eqb_refl in I.
Qed.

Lemma newestAgentsFirst_sorted (l : list Agent.t) :
  StronglySorted (fun a b => Agent.createdAt b <= Agent.createdAt a)
    (newestAgentsFirst l).
Proof.
  unfold newestAgentsFirst. apply sortBy_sorted.
  - intros x y H. apply Qle_bool_iff in H.
    change 0%Q with (inject_Z 0) in H. rewrite <- Zle_Qle in H. lia.
  - intros x y H.
    assert (N : ~ (inject_Z (Agent.createdAt y - Agent.createdAt x) <= 0)%Q)
      by (rewrite <- Qle_bool_iff, H; discriminate).
    change 0%Q with (inject_Z 0) in N. rewrite <- Zle_Qle in N. lia.
  - intros x y z. lia.
Qed.

Lemma relativeIndex_range (len : Z) (i : IntegerOrInfinity) :
  0 <= len -> 0 <= relativeIndex len i <= len.
Proof.
  intro H. destruct i as [| |z]; cbn; try lia.
  destruct (Z.ltb_spec z 0); lia.
Qed.

Lemma slice_from_zero {A} (stop : Num) (l : list A) :
  slice (ofInteger 0) stop l
  = firstn
      (Z.to_nat
         (relativeIndex (Z.of_nat (List.length l)) (toIntegerOrInfinity stop)))
      l.
Proof.
  unfold slice. set (len := Z.of_nat (List.length l)).
  assert (Hl : 0 <= len) by (unfold len; lia).
  pose proof (relativeIndex_range len (toIntegerOrInfinity stop) Hl) as R.
  assert (K : relativeIndex len (toIntegerOrInfinity (ofInteger 0)) = 0).
  { cbn [ofInteger toIntegerOrInfinity relativeIndex].
    rewrite (Qtrunc_integer (inject_Z 0) 0) by reflexivity. cbn. lia. }
  rewrite K. cbn [Z.to_nat skipn]. f_equal. lia.
Qed.

(** The agents [deleteAllButNAgents] keeps are the first [staying keep n] of
    the [n] sorted agents. *)
Lemma kept_prefix {A} (keep : Num) (l : list A) :
  slice (ofInteger 0) (Math.max (ofInteger 0) (Math.floor keep)) l
  = firstn (Z.to_nat (staying keep (Z.of_nat (List.length l)))) l.
Proof.
  rewrite slice_from_zero. f_equal. f_equal.
  set (len := Z.of_nat (List.length l)).
  assert (Hl : 0 <= len) by (unfold len; lia).
  destruct keep as [| | |q]; cbn [Math.floor staying].
  - cbn. lia.
  - cbn [ofInteger Math.max toIntegerOrInfinity relativeIndex].
    rewrite (Qtrunc_integer (inject_Z 0) 0) by reflexivity. cbn. lia.
  - cbn. reflexivity.
  - change (Finite (inject_Z (Qfloor q))) with (ofInteger (Qfloor q)).
    rewrite max_integers. cbn [ofInteger toIntegerOrInfinity relativeIndex].
    rewrite (Qtrunc_integer _ (Z.max 0 (Qfloor q))) by reflexivity.
    assert ((Z.max 0 (Qfloor q) <? 0) = false) as -> by (apply Z.ltb_ge; lia).
    reflexivity.
Qed.

(** What [deleteAllButNAgents] reports as kept. *)
Lemma kept_number (keep : Num) (n : Z) :
  0 <= n ->
  Math.min (Math.max (ofInteger 0) (Math.floor keep)) (ofInteger n)
  = match keep with
    | NaN => NaN
    | _ => ofInteger (staying keep n)
    end.
Proof.
  intro H. destruct keep as [| | |q]; cbn [Math.floor staying].
  - reflexivity.
  - cbn [ofInteger Math.max]. fold (ofInteger 0). rewrite min_integers.
    now rewrite Z.min_l.
  - reflexivity.
  - change (Finite (inject_Z (Qfloor q))) with (ofInteger (Qfloor q)).
    now rewrite max_integers, min_integers.
Qed.

(** [deleteAllButNAgents] in a database with distinct ids, for every number
    [keep].  Of the [n] agents, [min(max(0, floor(keep)), n)] stay: none
    when [keep] is not a number or minus infinity, all when it is infinity;
    [deleted] is the number of agents that go; [kept] is the number of
    agents that stay, except that it is not a number when [keep] is not.
    The agents that stay are the newest (none that goes was created after
    one that stays); an event or a challenge stays exactly when its agent
    stays; no id is given out again. *)
Theorem keep_newest_agents (keep : Num) (db : DB) :
  wfDB db ->
  let n := Z.of_nat (List.length (agents db)) in
  exists r db',
    deleteAllButNAgents keep db = (Ok r, db')
    /\ k_ok r = true
    /\ Z.of_nat (List.length (agents db')) = staying keep n
    /\ deleted r = n - staying keep n
    /\ kept r = match keep with
                | NaN => NaN
                | _ => ofInteger (staying keep n)
                end
    /\ incl (agents db') (agents db)
    /\ (forall a b,
          In a (agents db') -> In b (agents db) -> ~ In b (agents db') ->
          Agent.createdAt b <= Agent.createdAt a)
    /\ (forall e,
          In e (clapEvents db')
          <-> In e (clapEvents db)
              /\ lookupAgent (ClapEvent.agentId e) (agents db') <> None)
    /\ (forall c,
          In c (xVerificationChallenges db')
          <-> In c (xVerificationChallenges db)
              /\ lookupAgent (Challenge.agentId c) (agents db') <> None)
    /\ nextId db' = nextId db.
Proof.
  intros W n.
  pose proof (deleteAllButNAgents_tables keep db W) as T.
  pose proof (deleteAllButNAgents_run keep db) as Run. cbn zeta in Run.
  destruct W as ((Na & _) & _).
  set (sorted := newestAgentsFirst (agents db)) in *.
  set (keepIds := keepIdsOf keep db) in *.
  set (p := fun a : Agent.t => hasId keepIds (Agent._id a)) in *.
  assert (P : Permutation sorted (agents db)) by apply sortBy_perm.
  assert (Ns : NoDup (map Agent._id sorted)).
  { apply (Permutation_NoDup (l := map Agent._id (agents db))); [|exact Na].
    apply Permutation_map. now symmetry. }
  assert (Ln : List.length sorted = List.length (agents db))
    by now apply Permutation_length.
  set (k := Z.to_nat (staying keep n)).
  assert (Ids : keepIds = map Agent._id (firstn k sorted)).
  { unfold keepIds, keepIdsOf. fold sorted. rewrite kept_prefix.
    rewrite Ln. reflexivity. }
  assert (Range : 0 <= staying keep n <= n).
  { assert (0 <= n) by (unfold n; lia).
    destruct keep; cbn [staying]; lia. }
  assert (Kf : filter p sorted = firstn k sorted).
  { unfold p. rewrite Ids. now apply filter_first_ids. }
  assert (Lk : Z.of_nat (List.length (filter p sorted)) = staying keep n).
  { rewrite Kf, length_firstn, Ln. unfold k. fold n. lia. }
  assert (Stay : forall a, In a (filter p (agents db))
                           <-> In a (firstn k sorted)).
  { intro a. rewrite <- Kf. split; intro I.
    - apply (Permutation_in a (filter_perm p _ _ (Permutation_sym P))), I.
    - apply (Permutation_in a (filter_perm p _ _ P)), I. }
  assert (Has : forall id,
             hasId keepIds id = true
             <-> lookupAgent id (filter p (agents db)) <> None).
  { intro id. split.
    - intro H.
      assert (I : In id (map Agent._id (firstn k sorted)))
        by (rewrite <- Ids; now apply hasId_true).
      apply in_map_iff in I. destruct I as (a & <- & I).
      apply lookupAgent_present. now apply Stay.
    - intro H.
      destruct (lookupAgent id (filter p (agents db))) as [a|] eqn:L;
        [|contradiction].
      apply lookupAgent_found in L. destruct L as [I <-].
      apply filter_In in I. now destruct I. }
  eexists. eexists. split; [exact Run|].
  rewrite Run in T. cbn [snd] in T. rewrite T.
  cbn [k_ok kept deleted agents clapEvents xVerificationChallenges nextId].
  fold sorted keepIds.
  split; [reflexivity|].
  split.
  { rewrite <- Lk.
    now rewrite (Permutation_length (filter_perm p _ _ P)). }
  split.
  { pose proof (length_split p sorted) as Sp. unfold countIf.
    assert (Hn : n = Z.of_nat (List.length sorted))
      by (unfold n; now rewrite Ln).
    unfold p in Sp, Lk. lia. }
  split.
  { rewrite Ln. fold n. apply kept_number. unfold n. lia. }
  split; [intros a I; now apply filter_In in I|].
  split.
  { intros a b Ia Ib Nb. apply Stay in Ia.
    assert (Ib' : In b (skipn k sorted)).
    { apply (Permutation_in b (Permutation_sym P)) in Ib.
      rewrite <- (firstn_skipn k sorted) in Ib.
      apply in_app_or in Ib. destruct Ib as [Ib | Ib]; [|exact Ib].
      exfalso. apply Nb. now apply Stay. }
    pose proof (newestAgentsFirst_sorted (agents db)) as Hs. fold sorted in Hs.
    rewrite <- (firstn_skipn k sorted) in Hs.
    exact (StronglySorted_across _ _ _ Hs a b Ia Ib'). }
  split.
  { intro e. rewrite filter_In, Has. reflexivity. }
  split; [|reflexivity].
  intro c. rewrite filter_In, Has. reflexivity.
Qed.

Lemma keep_newest_agents_witness :
  exists r db',
    deleteAllButNAgents (ofInteger 1) alphaAndBeta = (Ok r, db')
    /\ kept r = ofInteger 1
    /\ deleted r = 1.
Proof.
  destruct (keep_newest_agents (ofInteger 1) alphaAndBeta alphaAndBeta_wf)
    as (r & db' & Run & _ & _ & D & K & _).
  exists r, db'. split; [exact Run|]. split; [exact K | exact D].
Defined.

(** [deleteAllAgentsAndData] does nothing but throw unless it is given the
    confirmation string; given it, it reports the sizes of the three tables
    and empties them, giving out no id again.  On the emptied database the
    statistics are all zero and the history is the single point [(now, 0)];
    the listing has total 0 and no item, whatever numbers [page] and
    [pageSize] are, and one page when [pageSize] is an integer or absent;
    the ticker, asked with an integer or no limit, is empty. *)
Theorem wipe_clears_everything (db : DB) :
  (forall confirmWipe,
      confirmWipe <> "YES_DELETE_EVERYTHING"%string ->
      deleteAllAgentsAndData confirmWipe db
      = (Throw "Must pass confirmWipe: 'YES_DELETE_EVERYTHING' to proceed", db))
  /\ exists db',
       deleteAllAgentsAndData "YES_DELETE_EVERYTHING" db
       = (Ok {| w_ok := true;
                w_agents := Z.of_nat (List.length (agents db));
                w_events := Z.of_nat (List.length (clapEvents db));
                w_challenges :=
                  Z.of_nat (List.length (xVerificationChallenges db)) |}, db')
       /\ db' = mkDB [] [] [] (nextId db)
       /\ (forall now,
             getCurrentStats now db'
             = mkCurrentStats 0 0 0 0 0 0 0 0 0 0 0 0)
       /\ (forall now range,
             h_points (getClapRateHistory now range db') = [Point.mk now 0 0])
       /\ (forall limit : option Z,
             getTickerEvents (option_map ofInteger limit) db' = Some [])
       /\ (forall now sort page pageSize verifiedOnly,
             let listing :=
               listAgents now sort page pageSize verifiedOnly db' in
             ap_total listing = 0 /\ ap_items listing = [])
       /\ (forall now sort page (pageSize : option Z) verifiedOnly,
             ap_totalPages
               (listAgents now sort page (option_map ofInteger pageSize)
                  verifiedOnly db')
             = ofInteger 1).
Proof.
  split.
  - intros confirmWipe H. rewrite deleteAllAgentsAndData_run.
    apply String.eqb_neq in H. now rewrite H.
  - exists (mkDB [] [] [] (nextId db)).
    split; [now rewrite deleteAllAgentsAndData_run|].
    split; [reflexivity|].
    split; [reflexivity|].
    split; [now intros now []|].
    split.
    { intro limit. unfold getTickerEvents. cbn [clapEvents].
      rewrite orDefault_integer, max_integers, min_integers.
      rewrite take_integer by lia.
      unfold by_created_at_desc. cbn [fold_left]. now rewrite firstn_nil. }
    split.
    { intros now sort page pageSize verifiedOnly listing.
      split; [reflexivity|].
      unfold listing. rewrite listAgents_page. cbn zeta.
      cbn [agents filter map sortBy fold_right].
      unfold slice. now rewrite skipn_nil, firstn_nil. }
    intros now sort page pageSize verifiedOnly.
    transitivity
      (ap_totalPages
         (listAgents now sort None (option_map ofInteger pageSize) verifiedOnly
            (mkDB [] [] [] (nextId db)))); [reflexivity|].
    change (@None Num) with (option_map ofInteger None).
    rewrite listAgents_integers. cbn [ap_totalPages agents filter map sortBy
      fold_right List.length].
    set (s := Z.min 100 (Z.max 1 (orDefault pageSize 24))).
    assert (Hs : 0 < s) by (unfold s; lia).
    destruct s as [|q|q]; try lia. reflexivity.
Qed.

Lemma wipe_clears_everything_witness :
  deleteAllAgentsAndData "yes" alphaAndBeta
  = (Throw "Must pass confirmWipe: 'YES_DELETE_EVERYTHING' to proceed",
     alphaAndBeta).
Proof.
  apply (proj1 (wipe_clears_everything alphaAndBeta)). discriminate.
Defined.

(** ** Issuing and completing a challenge *)

Lemma lookupChallenge_fresh (db : DB) (c : Challenge.t) :
  wfDB db -> Challenge._id c = nextId db ->
  lookupChallenge (nextId db) (xVerificationChallenges db ++ [c]) = Some c.
Proof.
  intros (_ & _ & (_ & F)) E. unfold lookupChallenge. rewrite find_app.
  destruct (find _ (xVerificationChallenges db)) as [y|] eqn:Y.
  - apply find_some in Y. destruct Y as [I Q]. apply Nat.eqb_eq in Q.
    rewrite Forall_forall in F. specialize (F y I). lia.
  - cbn. now rewrite E, Nat.eqb_refl.
Qed.

(** A patch of the agent [id] that keeps a document an owner of [h] does
    not bring up another agent as the first owner of [h]. *)
Lemma first_owner_after_patch (h : string) (id : Id)
  (f : Agent.t -> Agent.t) (l : list Agent.t) :
  (forall x, Agent._id (f x) = Agent._id x) ->
  (forall x, ownsHandle h x = true -> ownsHandle h (f x) = true) ->
  ownedByOther (find (ownsHandle h) l) id = false ->
  ownedByOther (find (ownsHandle h) (patchList Agent._id id f l)) id = false.
Proof.
  intros Kid Kown. unfold patchList.
  induction l as [|x l IH]; cbn [map find]; [easy|].
  destruct (Nat.eqb_spec (Agent._id x) id) as [E | E].
  - destruct (ownsHandle h (f x)) eqn:O'.
    + intros _. cbn. rewrite Kid, E. now rewrite Nat.eqb_refl.
    + destruct (ownsHandle h x) eqn:O; [|exact IH].
      rewrite (Kown x O) in O'. discriminate.
  - destruct (ownsHandle h x); [easy | exact IH].
Qed.

(** From the request to the verified agent: in a database with distinct
    ids, a challenge requested for an existing agent and a handle no other
    verified agent owns is stored under the id that is returned, with the
    normalized handle, and is found by [getXVerificationChallengeForCheck];
    completing it before it expires succeeds (the handle written by the
    request is never a conflict), and then the agent is verified with that
    handle and the challenge carries the completion stamp and the post. *)
Theorem issue_then_complete (now nowCheck later : Z) (agentId : Id)
  (agent : Agent.t) (raw challengeText : string) (expiresAt : Z)
  (url : option string) (db : DB) :
  wfDB db ->
  lookupAgent agentId (agents db) = Some agent ->
  ownedByOther (existingOwner (normalizeXHandle raw) db) agentId = false ->
  nowCheck <= expiresAt ->
  let h := normalizeXHandle raw in
  let c := newChallenge now agentId h challengeText expiresAt (nextId db) in
  exists db1 db2,
    createXVerificationChallenge now agentId raw challengeText expiresAt db
    = (Ok {| ci_challengeId := nextId db;
             ci_challengeText := challengeText;
             ci_xHandle := h;
             ci_expiresAt := expiresAt |}, db1)
    /\ getXVerificationChallengeForCheck (nextId db) db1 = Some c
    /\ completeXVerificationChallenge nowCheck later (nextId db) url db1
       = (Ok {| cc_ok := true; cc_agentId := agentId; cc_xHandle := h |}, db2)
    /\ verifiedOwner db2 h (verifiedPatch later h (handlePatch now h agent))
    /\ lookupAgent agentId (agents db2)
       = Some (verifiedPatch later h (handlePatch now h agent))
    /\ getXVerificationChallengeForCheck (nextId db) db2
       = Some (set_completion (Some later) url c).
Proof.
  intros W L O Hexp h c.
  pose proof (create_run now agentId raw challengeText expiresAt db agent L)
    as Run.
  rewrite O in Run. fold h in Run.
  set (db1 := mkDB (patchList Agent._id agentId (handlePatch now h) (agents db))
                (clapEvents db) (xVerificationChallenges db ++ [c])
                (S (nextId db))).
  assert (Lc : lookupChallenge (nextId db) (xVerificationChallenges db1)
               = Some c)
    by (now apply lookupChallenge_fresh).
  assert (La : lookupAgent agentId (agents db1)
               = Some (handlePatch now h agent)).
  { cbn [db1 agents]. rewrite lookupAgent_patch_same by reflexivity.
    now rewrite L. }
  assert (O1 : ownedByOther (existingOwner h db1) agentId = false).
  { rewrite existingOwner_find in O |- *. cbn [db1 agents].
    apply first_owner_after_patch; [reflexivity | | exact O].
    intros x Hx. apply ownsHandle_iff in Hx. destruct Hx as [V _].
    apply ownsHandle_iff. split; [exact V | reflexivity]. }
  assert (Open : openAt nowCheck c) by (split; [reflexivity | cbn; lia]).
  pose proof (complete_success nowCheck later (nextId db) url db1 c
                (handlePatch now h agent) Lc Open O1 La) as Done.
  cbn [c newChallenge Challenge.agentId Challenge.xHandle Challenge._id]
    in Done.
  eexists db1, _. split; [exact Run|]. split; [exact Lc|].
  split; [exact Done|].
  assert (La2 : lookupAgent agentId
                  (patchList Agent._id agentId (verifiedPatch later h)
                     (agents db1))
                = Some (verifiedPatch later h (handlePatch now h agent))).
  { rewrite lookupAgent_patch_same by reflexivity. now rewrite La. }
  split; [|split].
  - split; [|split; reflexivity].
    cbn [agents]. now apply lookupAgent_found in La2.
  - exact La2.
  - unfold getXVerificationChallengeForCheck.
    cbn [xVerificationChallenges].
    rewrite lookupChallenge_patch_same by reflexivity. now rewrite Lc.
Qed.

Lemma issue_then_complete_witness :
  exists db1 db2,
    createXVerificationChallenge 50 1%nat "@Bob" "text" 900 alphaAndBeta
    = (Ok {| ci_challengeId := nextId alphaAndBeta;
             ci_challengeText := "text";
             ci_xHandle := "bob";
             ci_expiresAt := 900 |}, db1)
    /\ completeXVerificationChallenge 60 61 (nextId alphaAndBeta) None db1
       = (Ok {| cc_ok := true; cc_agentId := 1%nat; cc_xHandle := "bob" |},
          db2).
Proof.
  destruct (issue_then_complete 50 60 61 1%nat beta "@Bob" "text" 900 None
              alphaAndBeta alphaAndBeta_wf)
    as (db1 & db2 & Run & _ & Done & _);
    [reflexivity | reflexivity | lia |].
  exists db1, db2. split; [exact Run | exact Done].
Defined.

(** ** Ids *)

(** In every database built from the empty one the ids of a table are
    distinct and below the id counter, so looking an agent or a challenge
    of the table up by its id gives that very document. *)
Theorem ids_identify_documents (db : DB) :
  reachable db ->
  wfDB db
  /\ (forall a, In a (agents db) ->
                lookupAgent (Agent._id a) (agents db) = Some a)
  /\ (forall c, In c (xVerificationChallenges db) ->
                getXVerificationChallengeForCheck (Challenge._id c) db = Some c).
Proof.
  intro R. pose proof (reachable_wfDB db R) as W. split; [exact W|].
  destruct W as ((Na & _) & _ & (Nc & _)). split.
  - intros a I.
    destruct (lookupAgent (Agent._id a) (agents db)) as [b|] eqn:L.
    + apply lookupAgent_found in L. destruct L as [Ib E].
      f_equal. exact (same_id_same_doc Agent._id _ b a Na Ib I E).
    + now apply lookupAgent_present in I.
  - intros c I. unfold getXVerificationChallengeForCheck, lookupChallenge.
    destruct (find _ (xVerificationChallenges db)) as [b|] eqn:L.
    + apply find_some in L. destruct L as [Ib E]. apply Nat.eqb_eq in E.
      f_equal. exact (same_id_same_doc Challenge._id _ b c Nc Ib I E).
    + apply (find_none _ _ L) in I. now rewrite Nat.eqb_refl in I.
Qed.

Lemma ids_identify_documents_witness : wfDB conflictScenario.
Proof.
  apply ids_identify_documents. apply conflictScenario_reachable.
Defined.

(** ** The emoji of an agent *)

Lemma toInt32_range (x : Z) : - 2 ^ 31 <= toInt32 x < 2 ^ 31.
Proof.
  unfold toInt32.
  pose proof (Z.mod_pos_bound (x + 2 ^ 31) (2 ^ 32) ltac:(lia)). lia.
Qed.

Lemma toInt32_wraps (x : Z) : exists k, toInt32 x = x + k * 2 ^ 32.
Proof.
  exists (- ((x + 2 ^ 31) / 2 ^ 32)). unfold toInt32.
  rewrite Z.mod_eq by lia. lia.
Qed.

Lemma toInt32_plus (x k : Z) : toInt32 (x + k * 2 ^ 32) = toInt32 x.
Proof.
  unfold toInt32.
  replace (x + k * 2 ^ 32 + 2 ^ 31) with (x + 2 ^ 31 + k * 2 ^ 32) by lia.
  now rewrite Z_mod_plus_full.
Qed.

Lemma hashStep_wraps (H code : Z) :
  hashStep (toInt32 H) code = toInt32 (31 * H + code).
Proof.
  unfold hashStep. rewrite Z.shiftl_mul_pow2 by lia.
  destruct (toInt32_wraps H) as [k Ek].
  destruct (toInt32_wraps (toInt32 H * 2 ^ 5)) as [k' Ek'].
  rewrite Ek', Ek.
  replace ((H + k * 2 ^ 32) * 2 ^ 5 + k' * 2 ^ 32 - (H + k * 2 ^ 32) + code)
    with (31 * H + code + (31 * k + k') * 2 ^ 32) by lia.
  apply toInt32_plus.
Qed.

(** [getAgentEmoji] always returns an emoji of the table, for every seed;
    the hash it takes the index from is the sum
    [c0 * 31^(n-1) + ... + c(n-1)] of the code units wrapped once to a
    32-bit signed integer, whatever the length of the seed. *)
Theorem agent_emoji_is_defined (seed : list Z) :
  (exists emoji, getAgentEmoji seed = Some emoji /\ In emoji AGENT_EMOJIS)
  /\ hashOf seed = toInt32 (polyHash seed)
  /\ - 2 ^ 31 <= hashOf seed < 2 ^ 31.
Proof.
  assert (Hash : hashOf seed = toInt32 (polyHash seed)).
  { unfold hashOf, polyHash.
    assert (G : forall H,
               fold_left hashStep seed (toInt32 H)
               = toInt32 (fold_left (fun h c => 31 * h + c) seed H)).
    { induction seed as [|c seed IH]; intro H; [reflexivity|].
      cbn [fold_left]. rewrite hashStep_wraps. apply IH. }
    exact (G 0). }
  split; [|split; [exact Hash | rewrite Hash; apply toInt32_range]].
  unfold getAgentEmoji. cbn zeta.
  set (n := List.length AGENT_EMOJIS).
  assert (Hn : n = 50%nat) by reflexivity.
  set (i := Z.to_nat (Z.abs (hashOf seed) mod Z.of_nat n)).
  assert (Hi : (i < n)%nat).
  { unfold i. pose proof (Z.mod_pos_bound (Z.abs (hashOf seed)) (Z.of_nat n)).
    lia. }
  destruct (nth_error AGENT_EMOJIS i) as [emoji|] eqn:E.
  - exists emoji. split; [reflexivity|]. now apply nth_error_In in E.
  - apply nth_error_None in E. fold n in E. lia.
Qed.

(** ** The percentage over time *)

Lemma ratio_le (a1 e1 a2 e2 : Z) :
  0 < e1 -> 0 < e2 -> a1 * e2 <= a2 * e1 ->
  (inject_Z a1 / inject_Z e1 * 100 <= inject_Z a2 / inject_Z e2 * 100)%Q.
Proof.
  intros H1 H2 H.
  destruct e1 as [|p1|p1]; try lia. destruct e2 as [|p2|p2]; try lia.
  unfold Qle, Qdiv, Qmult, Qinv, inject_Z. cbn [Qnum Qden].
  rewrite !Pos2Z.inj_mul. nia.
Qed.

Lemma clampPct_mono (x y : Q) : (x <= y)%Q -> (clampPct x <= clampPct y)%Q.
Proof.
  intro H. unfold clampPct.
  apply Q.max_le_compat_l. now apply Q.min_le_compat_l.
Qed.

(** The percentage follows the state: for an agent whose timestamps and
    accumulator fit the clock, the percentage seen at a later time is not
    lower while the agent is clapping, and not higher while it is not. *)
Theorem percentage_follows_state (t t1 t2 : Z) (agent : Agent.t) :
  soundTimes t agent -> t <= t1 -> t1 <= t2 ->
  if Agent.isClapping agent
  then (computeAgentPct agent t1 <= computeAgentPct agent t2)%Q
  else (computeAgentPct agent t2 <= computeAgentPct agent t1)%Q.
Proof.
  intros (A & B & C & D) H1 H2.
  unfold computeAgentPct, liveClapMs, elapsedMs. cbn zeta.
  destruct (Agent.isClapping agent);
    apply clampPct_mono, ratio_le; try lia.
  - rewrite (Z.max_r 0 (t1 - Agent.lastStateChangedAt agent)) by lia.
    rewrite (Z.max_r 0 (t2 - Agent.lastStateChangedAt agent)) by lia.
    assert (G : 0 <= (Agent.lastStateChangedAt agent - Agent.createdAt agent
                      - Agent.cumulativeClapMs agent) * (t2 - t1)) by nia.
    destruct (Z.max_spec 1 (t1 - Agent.createdAt agent)) as [[E1 ->] | [E1 ->]].
    + rewrite Z.max_r by lia. nia.
    + assert (Agent.cumulativeClapMs agent
              + (t1 - Agent.lastStateChangedAt agent) = 0
              \/ Agent.cumulativeClapMs agent
                 + (t1 - Agent.lastStateChangedAt agent) = 1) as [Z0 | Z1]
        by lia.
      * rewrite Z0. lia.
      * rewrite Z1. lia.
  - assert (Z.max 1 (t1 - Agent.createdAt agent)
            <= Z.max 1 (t2 - Agent.createdAt agent)) by lia.
    nia.
Qed.

Lemma percentage_follows_state_witness :
  (computeAgentPct clappingSince900 1000 <= computeAgentPct clappingSince900 2000)%Q.
Proof.
  apply (percentage_follows_state 900 1000 2000 clappingSince900);
    [repeat split; cbn; lia | lia | lia].
Defined.

(** ** A request for a handle by a verified agent *)

(** [createXVerificationChallenge] writes the requested handle into the
    agent and leaves the verified flag alone: a verified agent that requests
    a handle no other verified agent owns is, from the request on and before
    any completion, the verified owner of that handle, and a request of any
    other existing agent for that handle is then refused as a conflict. *)
Theorem request_rebinds_verified_agent (now : Z) (agentId : Id)
  (agent : Agent.t) (raw challengeText : string) (expiresAt : Z) (db : DB) :
  lookupAgent agentId (agents db) = Some agent ->
  Agent.xVerified agent = true ->
  ownedByOther (existingOwner (normalizeXHandle raw) db) agentId = false ->
  let h := normalizeXHandle raw in
  exists issued db',
    createXVerificationChallenge now agentId raw challengeText expiresAt db
    = (Ok issued, db')
    /\ verifiedOwner db' h (handlePatch now h agent)
    /\ (forall later other otherAgent raw' text' expires',
          other <> agentId ->
          lookupAgent other (agents db') = Some otherAgent ->
          normalizeXHandle raw' = h ->
          createXVerificationChallenge later other raw' text' expires' db'
          = (Throw err_conflict, db')).
Proof.
  intros L V O h.
  pose proof (create_run now agentId raw challengeText expiresAt db agent L)
    as Run.
  rewrite O in Run. fold h in Run.
  eexists. eexists. split; [exact Run|].
  assert (La : lookupAgent agentId
                 (patchList Agent._id agentId (handlePatch now h) (agents db))
               = Some (handlePatch now h agent)).
  { rewrite lookupAgent_patch_same by reflexivity. now rewrite L. }
  assert (Own : verifiedOwner
                  (mkDB (patchList Agent._id agentId (handlePatch now h)
                           (agents db))
                     (clapEvents db)
                     (xVerificationChallenges db
                      ++ [Challenge.mk (nextId db) agentId h challengeText now
                            expiresAt None None])
                     (S (nextId db)))
                  h (handlePatch now h agent)).
  { split; [|split; [exact V | reflexivity]].
    cbn [agents]. now apply lookupAgent_found in La. }
  split; [exact Own|].
  intros later other otherAgent raw' text' expires' Hne Lo Hn.
  rewrite (create_run _ _ _ _ _ _ _ Lo), Hn.
  match goal with |- (if ?b then _ else _) = _ =>
    assert (Hb : b = true); [|now rewrite Hb] end.
  match goal with |- ownedByOther (existingOwner h ?d) other = true =>
    set (db' := d) in * end.
  assert (O' : ownedByOther (existingOwner h db') agentId = false).
  { rewrite existingOwner_find in O |- *. cbn [db' agents].
    apply first_owner_after_patch; [reflexivity | | exact O].
    intros x Hx. apply ownsHandle_iff in Hx. destruct Hx as [Vx _].
    apply ownsHandle_iff. split; [exact Vx | reflexivity]. }
  destruct (existingOwner h db') as [o|] eqn:E.
  - cbn in O' |- *. apply negb_false_iff, Nat.eqb_eq in O'.
    apply negb_true_iff, Nat.eqb_neq. congruence.
  - exfalso. exact (existingOwner_none h db' _ E Own).
Qed.

Lemma request_rebinds_verified_agent_witness :
  exists issued db',
    createXVerificationChallenge 400 0%nat "@Bob" "text" 900 alphaAndBeta
    = (Ok issued, db')
    /\ verifiedOwner db' "bob" (handlePatch 400 "bob" alpha).
Proof.
  destruct (request_rebinds_verified_agent 400 0%nat alpha "@Bob" "text" 900
              alphaAndBeta)
    as (issued & db' & Run & Own & _);
    [reflexivity | reflexivity | reflexivity |].
  exists issued, db'. split; [exact Run | exact Own].
Defined.
